(** * Agent-based ecosystem: a shallow embedding of the simulation core

    The development follows the TypeScript sources:
    - [models/Organism.ts], [models/Producer.ts], [models/Consumer.ts],
      [models/Decomposer.ts]: the organism classes;
    - [models/Grid.ts]: the cell grid;
    - [models/Environment.ts]: climate, seasons and disturbances;
    - [hooks/useSimulation.ts]: initialisation, the simulation cycle,
      saving and loading.

    Conventions of the embedding.
    - A JavaScript [number] is an exact rational ([Q]); binary64 rounding
      is not modelled.  Where the source can divide by zero the quotient
      is computed in [JS.num], which adds [NaN] and the two infinities.
    - Grid coordinates, grid dimensions and configured counts are
      integers ([Z]); the day counter of the environment is a [nat].
    - Class instances are records and methods are functions returning
      the updated receiver.
    - [Math.random()] and [uuidv4()] read from an explicit source [Src]
      that is threaded through every call which draws from it. *)

From Stdlib Require Import QArith Qround Qminmax Qabs ZArith List String Bool Lia Lqa.
Import ListNotations.

Open Scope string_scope.
Open Scope list_scope.
Open Scope Q_scope.

(** ** JavaScript numbers and truthiness *)

Definition Qlt_bool (a b : Q) : bool := negb (Qle_bool b a).

Module JS.

(** A number that may have left the rationals. *)
Inductive num : Type :=
| Fin (q : Q)
| PInf
| NInf
| NaN.

(** [a / b] on finite operands. *)
Definition div (a b : Q) : num :=
  if Qeq_bool b 0 then
    if Qeq_bool a 0 then NaN
    else if Qlt_bool 0 a then PInf else NInf
  else Fin (a / b).

Definition add (a b : num) : num :=
  match a, b with
  | NaN, _ | _, NaN => NaN
  | PInf, NInf | NInf, PInf => NaN
  | PInf, _ | _, PInf => PInf
  | NInf, _ | _, NInf => NInf
  | Fin x, Fin y => Fin (x + y)
  end.

Definition opp (a : num) : num :=
  match a with
  | Fin x => Fin (- x)
  | PInf => NInf
  | NInf => PInf
  | NaN => NaN
  end.

Definition sub (a b : num) : num := add a (opp b).

(** [a / d] for a finite, nonzero constant [d]. *)
Definition div_const (a : num) (d : Q) : num :=
  match a with
  | Fin x => Fin (x / d)
  | PInf => if Qlt_bool 0 d then PInf else NInf
  | NInf => if Qlt_bool 0 d then NInf else PInf
  | NaN => NaN
  end.

(** [a / b] for a finite [a]; a finite number over an infinity is 0. *)
Definition div_by (a : Q) (b : num) : num :=
  match b with
  | Fin d => div a d
  | PInf | NInf => Fin 0
  | NaN => NaN
  end.

(** [Math.max(lo, a)] for a finite [lo]. *)
Definition max (lo : Q) (a : num) : num :=
  match a with
  | Fin x => Fin (Qmax lo x)
  | PInf => PInf
  | NInf => Fin lo
  | NaN => NaN
  end.

(** [a < b]: every comparison with [NaN] is false. *)
Definition ltb (a b : num) : bool :=
  match a, b with
  | NaN, _ | _, NaN => false
  | Fin x, Fin y => Qlt_bool x y
  | NInf, NInf | PInf, _ => false
  | NInf, _ => true
  | Fin _, PInf => true
  | Fin _, NInf => false
  end.

(** Equality of numbers up to the representation of a rational. *)
Definition eqv (a b : num) : Prop :=
  match a, b with
  | Fin x, Fin y => x == y
  | PInf, PInf | NInf, NInf | NaN, NaN => True
  | _, _ => False
  end.

(** [o || d] on an optional number: [undefined] and [0] are falsy. *)
Definition or_num (o : option Q) (d : Q) : Q :=
  match o with
  | Some q => if Qeq_bool q 0 then d else q
  | None => d
  end.

Definition or_int (o : option Z) (d : Z) : Z :=
  match o with
  | Some z => if Z.eqb z 0 then d else z
  | None => d
  end.

(** [o || d] on an optional string: the empty string is falsy. *)
Definition or_str (o : option string) (d : string) : string :=
  match o with
  | Some EmptyString => d
  | Some s => s
  | None => d
  end.

Definition or_bool (o : option bool) (d : bool) : bool :=
  match o with
  | Some true => true
  | _ => d
  end.

(** [o || d] where every defined value is truthy (objects, arrays,
    non-empty enum strings). *)
Definition or_obj {A : Type} (o : option A) (d : A) : A :=
  match o with
  | Some a => a
  | None => d
  end.

End JS.

(** ** The source of randomness and identifiers *)

Record Src : Type := {
  rnd : nat -> Q;        (* successive results of Math.random() *)
  uuids : nat -> string  (* successive results of uuidv4() *)
}.

Definition M (A : Type) : Type := Src -> A * Src.

Definition ret {A : Type} (a : A) : M A := fun s => (a, s).

Definition bind {A B : Type} (c : M A) (k : A -> M B) : M B :=
  fun s => let r := c s in k (fst r) (snd r).

Notation "x <- c ;; k" := (bind c (fun x => k))
  (at level 61, c at next level, right associativity).

Definition Math_random : M Q :=
  fun s => (rnd s 0%nat, {| rnd := fun n => rnd s (S n); uuids := uuids s |}).

Definition uuidv4 : M string :=
  fun s => (uuids s 0%nat, {| rnd := rnd s; uuids := fun n => uuids s (S n) |}).

(** [Math.random()] returns a number in [0, 1). *)
Definition unit_draws (s : Src) : Prop := forall n, 0 <= rnd s n /\ rnd s n < 1.

(** ** types.ts *)

Inductive OrganismType : Type := TProducer | TConsumer | TDecomposer.

Inductive ConsumerType : Type := Herbivore | Carnivore | Omnivore.

Inductive Season : Type := Spring | Summer | Fall | Winter.

Inductive DisturbanceType : Type :=
  Fire | Drought | Flood | Disease | HumanActivity | NoDisturbance.

Definition OrganismType_eqb (a b : OrganismType) : bool :=
  match a, b with
  | TProducer, TProducer | TConsumer, TConsumer | TDecomposer, TDecomposer => true
  | _, _ => false
  end.

Definition ConsumerType_eqb (a b : ConsumerType) : bool :=
  match a, b with
  | Herbivore, Herbivore | Carnivore, Carnivore | Omnivore, Omnivore => true
  | _, _ => false
  end.

Record Position : Type := { px : Z; py : Z }.

Definition Position_eqb (a b : Position) : bool :=
  Z.eqb (px a) (px b) && Z.eqb (py a) (py b).

(** [OrganismAttributes]; the class [Organism] has the same fields, so
    the record serves for both. *)
Record Organism : Type := {
  id : string;
  type : OrganismType;
  position : Position;
  energy : Q;
  size : Q;
  age : Q;
  maxAge : Q;
  reproductionEnergy : Q;
  reproductionRate : Q;
  movementCost : Q;
  isDead : bool;
  species : string
}.

(** The fields the subclasses add to [OrganismAttributes]; a field that
    an attributes object does not carry is [None]. *)
Record Extras : Type := {
  x_growthRate : option Q;
  x_photosynthesisRate : option Q;
  x_waterConsumption : option Q;
  x_consumerType : option ConsumerType;
  x_huntingEfficiency : option Q;
  x_metabolismRate : option Q;
  x_diet : option (list string);
  x_decompositionRate : option Q;
  x_nutrientProductionRate : option Q
}.

Definition no_extras : Extras :=
  {| x_growthRate := None; x_photosynthesisRate := None; x_waterConsumption := None;
     x_consumerType := None; x_huntingEfficiency := None; x_metabolismRate := None;
     x_diet := None; x_decompositionRate := None; x_nutrientProductionRate := None |}.

(** An attributes object as it is stored in the organism table. *)
Record Attributes : Type := { base : Organism; extras : Extras }.

(** [Partial<...Attributes>]: what a constructor receives. *)
Record PartialAttributes : Type := {
  o_id : option string;
  o_type : option OrganismType;
  o_position : option Position;
  o_energy : option Q;
  o_size : option Q;
  o_age : option Q;
  o_maxAge : option Q;
  o_reproductionEnergy : option Q;
  o_reproductionRate : option Q;
  o_movementCost : option Q;
  o_isDead : option bool;
  o_species : option string;
  o_extras : Extras
}.

Definition empty_attributes : PartialAttributes :=
  {| o_id := None; o_type := None; o_position := None; o_energy := None;
     o_size := None; o_age := None; o_maxAge := None;
     o_reproductionEnergy := None; o_reproductionRate := None;
     o_movementCost := None; o_isDead := None; o_species := None;
     o_extras := no_extras |}.

(** Passing a stored attributes object to a constructor. *)
Definition as_partial (a : Attributes) : PartialAttributes :=
  let o := base a in
  {| o_id := Some (id o); o_type := Some (type o); o_position := Some (position o);
     o_energy := Some (energy o); o_size := Some (size o); o_age := Some (age o);
     o_maxAge := Some (maxAge o);
     o_reproductionEnergy := Some (reproductionEnergy o);
     o_reproductionRate := Some (reproductionRate o);
     o_movementCost := Some (movementCost o); o_isDead := Some (isDead o);
     o_species := Some (species o); o_extras := extras a |}.

(** [{ ...attributes, type: t, species: s }]. *)
Definition with_type_species (a : PartialAttributes) (t : OrganismType) (s : string)
  : PartialAttributes :=
  {| o_id := o_id a; o_type := Some t; o_position := o_position a;
     o_energy := o_energy a; o_size := o_size a; o_age := o_age a;
     o_maxAge := o_maxAge a; o_reproductionEnergy := o_reproductionEnergy a;
     o_reproductionRate := o_reproductionRate a;
     o_movementCost := o_movementCost a; o_isDead := o_isDead a;
     o_species := Some s; o_extras := o_extras a |}.

(** [{ ...attributes, movementCost: c }]. *)
Definition with_movementCost (a : PartialAttributes) (c : Q) : PartialAttributes :=
  {| o_id := o_id a; o_type := o_type a; o_position := o_position a;
     o_energy := o_energy a; o_size := o_size a; o_age := o_age a;
     o_maxAge := o_maxAge a; o_reproductionEnergy := o_reproductionEnergy a;
     o_reproductionRate := o_reproductionRate a;
     o_movementCost := Some c; o_isDead := o_isDead a;
     o_species := o_species a; o_extras := o_extras a |}.

(** Field updates of an [Organism]. *)
Definition set_position (o : Organism) (p : Position) : Organism :=
  {| id := id o; type := type o; position := p; energy := energy o; size := size o;
     age := age o; maxAge := maxAge o; reproductionEnergy := reproductionEnergy o;
     reproductionRate := reproductionRate o; movementCost := movementCost o;
     isDead := isDead o; species := species o |}.

Definition set_energy (o : Organism) (e : Q) : Organism :=
  {| id := id o; type := type o; position := position o; energy := e; size := size o;
     age := age o; maxAge := maxAge o; reproductionEnergy := reproductionEnergy o;
     reproductionRate := reproductionRate o; movementCost := movementCost o;
     isDead := isDead o; species := species o |}.

Definition set_size (o : Organism) (z : Q) : Organism :=
  {| id := id o; type := type o; position := position o; energy := energy o; size := z;
     age := age o; maxAge := maxAge o; reproductionEnergy := reproductionEnergy o;
     reproductionRate := reproductionRate o; movementCost := movementCost o;
     isDead := isDead o; species := species o |}.

Definition set_age (o : Organism) (a : Q) : Organism :=
  {| id := id o; type := type o; position := position o; energy := energy o;
     size := size o; age := a; maxAge := maxAge o;
     reproductionEnergy := reproductionEnergy o;
     reproductionRate := reproductionRate o; movementCost := movementCost o;
     isDead := isDead o; species := species o |}.

Definition set_isDead (o : Organism) (d : bool) : Organism :=
  {| id := id o; type := type o; position := position o; energy := energy o;
     size := size o; age := age o; maxAge := maxAge o;
     reproductionEnergy := reproductionEnergy o;
     reproductionRate := reproductionRate o; movementCost := movementCost o;
     isDead := d; species := species o |}.

Record EnvironmentConfig : Type := {
  temperature : Q;
  rainfall : Q;
  seasonalFactor : Q;
  nutrientLevel : Q;
  sunlightIntensity : Q;
  width : Z;
  height : Z;
  pollutionLevel : Q;
  season : Season;
  day : nat
}.

(** ** models/Organism.ts *)

Definition Organism_new (a : PartialAttributes) : M Organism :=
  i <- match o_id a with
       | Some EmptyString | None => uuidv4
       | Some s => ret s
       end ;;
  ret {| id := i;
         type := JS.or_obj (o_type a) TProducer;
         position := JS.or_obj (o_position a) {| px := 0; py := 0 |};
         energy := JS.or_num (o_energy a) 100;
         size := JS.or_num (o_size a) 1;
         age := JS.or_num (o_age a) 0;
         maxAge := JS.or_num (o_maxAge a) 100;
         reproductionEnergy := JS.or_num (o_reproductionEnergy a) 150;
         reproductionRate := JS.or_num (o_reproductionRate a) 0.2;
         movementCost := JS.or_num (o_movementCost a) 1;
         isDead := JS.or_bool (o_isDead a) false;
         species := JS.or_str (o_species a) "Generic Organism" |}.

Definition die (this : Organism) : Organism := set_isDead this true.

Definition Organism_update (this : Organism) : Organism :=
  let this := set_age this (age this + 1) in
  if Qle_bool (maxAge this) (age this) then die this
  else if Qle_bool (energy this) 0 then die this
  else this.

Definition move (this : Organism) (newPosition : Position) : Organism :=
  let this := set_position this newPosition in
  set_energy this (energy this - movementCost this).

(** [&&] short-circuits: no number is drawn when the energy is too low. *)
Definition canReproduce (this : Organism) : M bool :=
  if Qle_bool (reproductionEnergy this) (energy this) then
    r <- Math_random ;; ret (Qlt_bool r (reproductionRate this))
  else ret false.

(** Returns the offspring and the parent after the split. *)
Definition reproduce (this : Organism) : M (Organism * Organism) :=
  r1 <- Math_random ;;
  r2 <- Math_random ;;
  r3 <- Math_random ;;
  r4 <- Math_random ;;
  r5 <- Math_random ;;
  let offspringAttributes :=
    {| o_id := None;
       o_type := Some (type this);
       o_position := Some (position this);
       o_energy := Some (energy this * 0.5);
       o_size := Some (size this * (0.9 + r1 * 0.2));
       o_age := None;
       o_maxAge := Some (maxAge this * (0.9 + r2 * 0.2));
       o_reproductionEnergy := Some (reproductionEnergy this * (0.9 + r3 * 0.2));
       o_reproductionRate := Some (reproductionRate this * (0.9 + r4 * 0.2));
       o_movementCost := Some (movementCost this * (0.9 + r5 * 0.2));
       o_isDead := None;
       o_species := Some (species this);
       o_extras := no_extras |} in
  let this := set_energy this (energy this * 0.5) in
  offspring <- Organism_new offspringAttributes ;;
  ret (offspring, this).

Definition Organism_getAttributes (this : Organism) : Attributes :=
  {| base := this; extras := no_extras |}.

(** ** models/Producer.ts *)

Record Producer : Type := {
  p_org : Organism;
  growthRate : Q;
  photosynthesisRate : Q;
  waterConsumption : Q
}.

Definition Producer_new (a : PartialAttributes) : M Producer :=
  o <- Organism_new
         (with_movementCost
            (with_type_species a TProducer (JS.or_str (o_species a) "Basic Plant"))
            0) ;;
  ret {| p_org := o;
         growthRate := JS.or_num (x_growthRate (o_extras a)) 0.1;
         photosynthesisRate := JS.or_num (x_photosynthesisRate (o_extras a)) 0.25;
         waterConsumption := JS.or_num (x_waterConsumption (o_extras a)) 0.08 |}.

Definition Producer_with_org (this : Producer) (o : Organism) : Producer :=
  {| p_org := o; growthRate := growthRate this;
     photosynthesisRate := photosynthesisRate this;
     waterConsumption := waterConsumption this |}.

Definition Producer_getTemperatureFactor (t : Q) : Q :=
  let optimalTemp := 25 in
  let tolerance := 18 in
  let diff := Qabs (t - optimalTemp) in
  Qmax 0.1 (1 - diff / tolerance).

Definition Producer_getSeasonalFactor (f : Q) : Q := Qmax 0.3 f.

Definition environmentFactor (this : Producer) (env : EnvironmentConfig) : Q :=
  (sunlightIntensity env / 100) *
  Producer_getTemperatureFactor (temperature env) *
  (1 - pollutionLevel env / 100) *
  Producer_getSeasonalFactor (seasonalFactor env).

Definition Producer_update (this : Producer) (env : EnvironmentConfig)
    (cellNutrientLevel cellWaterLevel : Q) : Producer :=
  let o := Organism_update (p_org this) in
  if isDead o then Producer_with_org this o
  else
    let resourceFactor := Qmin (cellNutrientLevel / 100) (cellWaterLevel / 100) in
    let energyGain :=
      photosynthesisRate this * environmentFactor this env * resourceFactor * 12 in
    let o := set_energy o (energy o + energyGain) in
    if Qlt_bool 110 (energy o) && Qlt_bool 0.4 resourceFactor then
      let o := set_size o (size o + growthRate this * resourceFactor) in
      let o := set_energy o (energy o - growthRate this * 8) in
      Producer_with_org this o
    else Producer_with_org this o.

Definition Producer_getAttributes (this : Producer) : Attributes :=
  {| base := p_org this;
     extras :=
       {| x_growthRate := Some (growthRate this);
          x_photosynthesisRate := Some (photosynthesisRate this);
          x_waterConsumption := Some (waterConsumption this);
          x_consumerType := None; x_huntingEfficiency := None;
          x_metabolismRate := None; x_diet := None;
          x_decompositionRate := None; x_nutrientProductionRate := None |} |}.

(** ** models/Consumer.ts *)

Record Consumer : Type := {
  c_org : Organism;
  consumerType : ConsumerType;
  huntingEfficiency : Q;
  metabolismRate : Q;
  diet : list string
}.

Definition Consumer_new (a : PartialAttributes) : M Consumer :=
  o <- Organism_new
         (with_type_species a TConsumer (JS.or_str (o_species a) "Basic Consumer")) ;;
  ret {| c_org := o;
         consumerType := JS.or_obj (x_consumerType (o_extras a)) Herbivore;
         huntingEfficiency := JS.or_num (x_huntingEfficiency (o_extras a)) 0.5;
         metabolismRate := JS.or_num (x_metabolismRate (o_extras a)) 0.08;
         diet := JS.or_obj (x_diet (o_extras a)) [] |}.

Definition Consumer_with_org (this : Consumer) (o : Organism) : Consumer :=
  {| c_org := o; consumerType := consumerType this;
     huntingEfficiency := huntingEfficiency this;
     metabolismRate := metabolismRate this; diet := diet this |}.

Definition Consumer_getTemperatureFactor (t : Q) : Q :=
  let optimalTemp := 22 in
  let tolerance := 25 in
  let diff := Qabs (t - optimalTemp) in
  1 + (diff / tolerance) * 0.5.

Definition Consumer_getSeasonalFactor (f : Q) : Q := 1.3 - f * 0.4.

Definition Consumer_update (this : Consumer) (env : EnvironmentConfig) : Consumer :=
  let o := Organism_update (c_org this) in
  if isDead o then Consumer_with_org this o
  else
    let baseCost := size o * metabolismRate this in
    let energyCost :=
      baseCost * Consumer_getTemperatureFactor (temperature env)
               * Consumer_getSeasonalFactor (seasonalFactor env) in
    Consumer_with_org this (set_energy o (energy o - energyCost)).

(** The chance of a successful hunt, as the source computes it. *)
Definition huntingChance (this : Consumer) (prey : Organism) : JS.num :=
  let sizeFactor := JS.div (size prey) (size (c_org this)) in
  JS.div_by (huntingEfficiency this) (JS.add sizeFactor (JS.Fin 0.3)).

(** Returns the energy gained, the consumer and the prey after the
    attempt. *)
Definition eat (this : Consumer) (prey : Organism) : M (Q * Consumer * Organism) :=
  if isDead (c_org this) || isDead prey then ret (0, this, prey)
  else
    r <- Math_random ;;
    let huntingSuccess := JS.ltb (JS.Fin r) (huntingChance this prey) in
    if huntingSuccess then
      let energyGain := energy prey * 0.8 in
      let o := set_energy (c_org this) (energy (c_org this) + energyGain) in
      ret (energyGain, Consumer_with_org this o, die prey)
    else
      let o := set_energy (c_org this)
                 (energy (c_org this) - movementCost (c_org this) * 1.5) in
      ret (0, Consumer_with_org this o, prey).

Definition canEat (this : Consumer) (organism : Organism) : bool :=
  match consumerType this with
  | Herbivore => OrganismType_eqb (type organism) TProducer
  | Carnivore => OrganismType_eqb (type organism) TConsumer
  | Omnivore =>
      OrganismType_eqb (type organism) TProducer
      || OrganismType_eqb (type organism) TConsumer
  end.

Definition Consumer_getAttributes (this : Consumer) : Attributes :=
  {| base := c_org this;
     extras :=
       {| x_growthRate := None; x_photosynthesisRate := None;
          x_waterConsumption := None;
          x_consumerType := Some (consumerType this);
          x_huntingEfficiency := Some (huntingEfficiency this);
          x_metabolismRate := Some (metabolismRate this);
          x_diet := Some (diet this);
          x_decompositionRate := None; x_nutrientProductionRate := None |} |}.

(** ** models/Decomposer.ts *)

Record Decomposer : Type := {
  d_org : Organism;
  decompositionRate : Q;
  nutrientProductionRate : Q
}.

Definition Decomposer_new (a : PartialAttributes) : M Decomposer :=
  o <- Organism_new
         (with_type_species a TDecomposer (JS.or_str (o_species a) "Basic Decomposer")) ;;
  ret {| d_org := o;
         decompositionRate := JS.or_num (x_decompositionRate (o_extras a)) 0.35;
         nutrientProductionRate :=
           JS.or_num (x_nutrientProductionRate (o_extras a)) 0.25 |}.

Definition Decomposer_with_org (this : Decomposer) (o : Organism) : Decomposer :=
  {| d_org := o; decompositionRate := decompositionRate this;
     nutrientProductionRate := nutrientProductionRate this |}.

Definition Decomposer_getTemperatureFactor (t : Q) : Q :=
  if Qlt_bool t 0 then 0.2
  else if Qlt_bool 40 t then 0.6
  else if Qle_bool 15 t && Qle_bool t 35 then 1.0
  else if Qlt_bool t 15 then 0.2 + (t / 15) * 0.8
  else 1.0 - ((t - 35) / 10) * 0.4.

(** Returns [nutrientsProduced] and the decomposer after the update. *)
Definition Decomposer_update (this : Decomposer) (env : EnvironmentConfig)
    (deadOrganismCount : Q) : Q * Decomposer :=
  let o := Organism_update (d_org this) in
  if isDead o then (0, Decomposer_with_org this o)
  else
    let deadMatterFactor := Qmin 1 (deadOrganismCount / 4) in
    let moistureFactor := Qmax 0.3 (rainfall env / 100) in
    let temperatureFactor := Decomposer_getTemperatureFactor (temperature env) in
    let decompositionEfficiency :=
      decompositionRate this * deadMatterFactor * moistureFactor * temperatureFactor in
    let energyGain := decompositionEfficiency * 12 * deadOrganismCount in
    let o := set_energy o (energy o + energyGain) in
    let nutrientsProduced :=
      nutrientProductionRate this * decompositionEfficiency * deadOrganismCount in
    if Qlt_bool 130 (energy o) && Qlt_bool 0.25 deadMatterFactor then
      let o := set_size o (size o + 0.06 * deadMatterFactor) in
      let o := set_energy o (energy o - 4) in
      (nutrientsProduced, Decomposer_with_org this o)
    else (nutrientsProduced, Decomposer_with_org this o).

Definition decompose (this : Decomposer) (deadOrganism : Organism) : Q * Decomposer :=
  if isDead (d_org this) then (0, this)
  else
    let energyGain := size deadOrganism * 6 * decompositionRate this in
    let o := set_energy (d_org this) (energy (d_org this) + energyGain) in
    (size deadOrganism * nutrientProductionRate this, Decomposer_with_org this o).

Definition Decomposer_getAttributes (this : Decomposer) : Attributes :=
  {| base := d_org this;
     extras :=
       {| x_growthRate := None; x_photosynthesisRate := None;
          x_waterConsumption := None; x_consumerType := None;
          x_huntingEfficiency := None; x_metabolismRate := None; x_diet := None;
          x_decompositionRate := Some (decompositionRate this);
          x_nutrientProductionRate := Some (nutrientProductionRate this) |} |}.

(** ** Loops *)

(** The integers [a, a+1, ..., b] of a [for] loop. *)
Definition zrange (a b : Z) : list Z :=
  map (fun i => (a + Z.of_nat i)%Z) (seq 0 (Z.to_nat (b - a + 1))).

Fixpoint foldM {A B : Type} (f : B -> A -> M B) (l : list A) (b : B) : M B :=
  match l with
  | [] => ret b
  | a :: l' => b' <- f b a ;; foldM f l' b'
  end.

Fixpoint update_nth {A : Type} (n : nat) (f : A -> A) (l : list A) : list A :=
  match l, n with
  | [], _ => []
  | a :: l', O => f a :: l'
  | a :: l', S n' => a :: update_nth n' f l'
  end.

(** [array[Math.floor(Math.random() * array.length)]] for the draw [r]. *)
Definition pick {A : Type} (r : Q) (l : list A) : option A :=
  nth_error l (Z.to_nat (Qfloor (r * inject_Z (Z.of_nat (List.length l))))).

(** ** models/Grid.ts *)

Record Cell : Type := {
  cell_x : Z;
  cell_y : Z;
  cell_height : Q;
  cell_nutrientLevel : Q;
  cell_waterLevel : Q;
  organisms : list string;
  cell_temperature : Q;
  cell_pollutionLevel : Q
}.

Record Grid : Type := {
  grid_width : Z;
  grid_height : Z;
  cells : list (list Cell)
}.

Definition set_organisms (c : Cell) (l : list string) : Cell :=
  {| cell_x := cell_x c; cell_y := cell_y c; cell_height := cell_height c;
     cell_nutrientLevel := cell_nutrientLevel c; cell_waterLevel := cell_waterLevel c;
     organisms := l; cell_temperature := cell_temperature c;
     cell_pollutionLevel := cell_pollutionLevel c |}.

(** Assignment of the four terrain fields of a cell. *)
Definition set_terrain (c : Cell) (nutrient water temp pollution : Q) : Cell :=
  {| cell_x := cell_x c; cell_y := cell_y c; cell_height := cell_height c;
     cell_nutrientLevel := nutrient; cell_waterLevel := water;
     organisms := organisms c; cell_temperature := temp;
     cell_pollutionLevel := pollution |}.

Definition set_nutrientLevel (c : Cell) (nutrient : Q) : Cell :=
  set_terrain c nutrient (cell_waterLevel c) (cell_temperature c) (cell_pollutionLevel c).

Definition set_waterLevel (c : Cell) (water : Q) : Cell :=
  set_terrain c (cell_nutrientLevel c) water (cell_temperature c) (cell_pollutionLevel c).

(** [cells[y][x]]; [None] stands for [undefined]. *)
Definition cell_at (cs : list (list Cell)) (x y : Z) : option Cell :=
  match nth_error cs (Z.to_nat y) with
  | Some row => nth_error row (Z.to_nat x)
  | None => None
  end.

(** In-place update of the cell object [cells[y][x]]. *)
Definition update_cell (g : Grid) (x y : Z) (f : Cell -> Cell) : Grid :=
  {| grid_width := grid_width g; grid_height := grid_height g;
     cells := update_nth (Z.to_nat y) (update_nth (Z.to_nat x) f) (cells g) |}.

Definition in_bounds (g : Grid) (p : Position) : bool :=
  (0 <=? px p)%Z && (px p <? grid_width g)%Z &&
  (0 <=? py p)%Z && (py p <? grid_height g)%Z.

Definition getCell (g : Grid) (p : Position) : option Cell :=
  if in_bounds g p then cell_at (cells g) (px p) (py p) else None.

Definition push_organism (g : Grid) (p : Position) (organismId : string) : Grid :=
  update_cell g (px p) (py p) (fun c => set_organisms c (organisms c ++ [organismId])).

Definition addOrganism (g : Grid) (organism : Organism) : bool * Grid :=
  match getCell g (position organism) with
  | Some _ => (true, push_organism g (position organism) (id organism))
  | None => (false, g)
  end.

(** [indexOf] followed by [splice(index, 1)]: the first occurrence goes. *)
Fixpoint remove_first (x : string) (l : list string) : list string :=
  match l with
  | [] => []
  | y :: l' => if String.eqb x y then l' else y :: remove_first x l'
  end.

Definition includes (x : string) (l : list string) : bool :=
  existsb (String.eqb x) l.

Definition removeOrganism (g : Grid) (organismId : string) (p : Position) : bool * Grid :=
  match getCell g p with
  | Some cell =>
      if includes organismId (organisms cell) then
        (true, update_cell g (px p) (py p)
                 (fun c => set_organisms c (remove_first organismId (organisms c))))
      else (false, g)
  | None => (false, g)
  end.

Definition moveOrganism (g : Grid) (organismId : string) (oldPosition newPosition : Position)
  : bool * Grid :=
  if (px newPosition <? 0)%Z || (grid_width g <=? px newPosition)%Z ||
     (py newPosition <? 0)%Z || (grid_height g <=? py newPosition)%Z
  then (false, g)
  else
    let (removed, g1) := removeOrganism g organismId oldPosition in
    if negb removed then (false, g1)
    else
      match getCell g1 newPosition with
      | Some _ => (true, push_organism g1 newPosition organismId)
      | None => (false, g1)
      end.

(** The body of the two nested loops of [updateEnvironment] for one cell;
    neighbours are read from the grid as the earlier iterations left it. *)
Definition updateEnvironment_cell (env : EnvironmentConfig) (g : Grid) (x y : Z) : Grid :=
  match cell_at (cells g) x y with
  | None => g
  | Some cell =>
    let elevationFactor := 1 + cell_height cell * 0.3 in
    let drainageFactor := Qmin 1 (cell_height cell * 0.4) in
    let baseEvaporationRate := 0.08 * (1 + (temperature env - 20) / 15) in
    let elevationEvaporationRate := baseEvaporationRate * elevationFactor in
    let elevationRainfallReduction := Qmin 0.7 (cell_height cell * 0.2) in
    let effectiveRainfall := rainfall env * (1 - elevationRainfallReduction) in
    let rainAddition := effectiveRainfall * 0.15 * seasonalFactor env in
    let drainageAmount := cell_waterLevel cell * drainageFactor * 0.1 in
    let newWaterLevel :=
      cell_waterLevel cell * (1 - elevationEvaporationRate) + rainAddition - drainageAmount in
    let maxWaterLevel := Qmax 20 (100 - cell_height cell * 30) in
    let newWaterLevel := Qmax 0 (Qmin maxWaterLevel newWaterLevel) in
    let diffusionRate := 0.01 in
    let neighbors :=
      [ {| px := x - 1; py := y |}; {| px := x + 1; py := y |};
        {| px := x; py := y - 1 |}; {| px := x; py := y + 1 |} ]%Z in
    let '(nutrientDiffusion, validNeighborCount) :=
      fold_left
        (fun (acc : Q * Z) neighbor =>
           match getCell g neighbor with
           | Some neighborCell =>
               let heightDifference := cell_height cell - cell_height neighborCell in
               let flowModifier := if Qlt_bool 0 heightDifference then 1.5 else 0.7 in
               let nutrientDifference :=
                 (cell_nutrientLevel neighborCell - cell_nutrientLevel cell) * flowModifier in
               (fst acc + nutrientDifference, (snd acc + 1)%Z)
           | None => acc
           end)
        neighbors (0, 0%Z) in
    let newNutrient :=
      if (0 <? validNeighborCount)%Z then
        cell_nutrientLevel cell
        + nutrientDiffusion * diffusionRate / inject_Z validNeighborCount
      else cell_nutrientLevel cell in
    let tempAdjustmentRate := 0.2 in
    let elevationTempReduction := cell_height cell * 2 in
    let targetTemperature := temperature env - elevationTempReduction in
    let newTemperature :=
      cell_temperature cell * (1 - tempAdjustmentRate)
      + targetTemperature * tempAdjustmentRate in
    let pollutionDecayRate := 0.01 in
    let elevationPollutionReduction := cell_height cell * 0.1 in
    let targetPollution := Qmax 0 (pollutionLevel env - elevationPollutionReduction) in
    let newPollution :=
      Qmax 0 (cell_pollutionLevel cell * (1 - pollutionDecayRate) + targetPollution * 0.02) in
    update_cell g x y
      (fun c => set_terrain c newNutrient newWaterLevel newTemperature newPollution)
  end.

Definition updateEnvironment (g : Grid) (env : EnvironmentConfig) : Grid :=
  fold_left
    (fun g y => fold_left (fun g x => updateEnvironment_cell env g x y)
                          (zrange 0 (grid_width g - 1)) g)
    (zrange 0 (grid_height g - 1)) g.

Definition applyDisturbance_cell (type : DisturbanceType) (intensity : Q) (cell : Cell) : Cell :=
  let elevationResistance := 1 - Qmin 0.5 (cell_height cell * 0.2) in
  let effectiveIntensity := intensity * elevationResistance in
  match type with
  | Fire =>
      let fireIntensity :=
        if Qlt_bool 1 (cell_height cell) then intensity * 1.3 else effectiveIntensity in
      set_terrain cell
        (cell_nutrientLevel cell * (1 - 0.2 * fireIntensity))
        (cell_waterLevel cell * (1 - 0.8 * fireIntensity))
        (cell_temperature cell + 20 * fireIntensity)
        (cell_pollutionLevel cell)
  | Drought =>
      let droughtIntensity :=
        if Qlt_bool 0.5 (cell_height cell) then intensity * 1.4 else effectiveIntensity in
      set_terrain cell
        (cell_nutrientLevel cell)
        (cell_waterLevel cell * (1 - 0.7 * droughtIntensity))
        (cell_temperature cell + 5 * droughtIntensity)
        (cell_pollutionLevel cell)
  | Flood =>
      let floodIntensity :=
        if Qlt_bool (cell_height cell) 0.5 then intensity * 1.5
        else effectiveIntensity * 0.3 in
      set_terrain cell
        (cell_nutrientLevel cell * (1 - 0.3 * floodIntensity))
        (Qmin 100 (cell_waterLevel cell + 40 * floodIntensity))
        (cell_temperature cell)
        (cell_pollutionLevel cell)
  | Disease => cell
  | HumanActivity =>
      let humanIntensity :=
        if Qlt_bool (cell_height cell) 1 then intensity * 1.2
        else effectiveIntensity * 0.6 in
      set_terrain cell
        (cell_nutrientLevel cell * (1 - 0.4 * humanIntensity))
        (cell_waterLevel cell)
        (cell_temperature cell)
        (Qmin 100 (cell_pollutionLevel cell + 30 * humanIntensity))
  | NoDisturbance => cell
  end.

Definition applyDisturbance (g : Grid) (startX startY endX endY : Z)
    (type : DisturbanceType) (intensity : Q) : Grid :=
  fold_left
    (fun g y =>
       fold_left (fun g x => update_cell g x y (applyDisturbance_cell type intensity))
                 (zrange (Z.max 0 startX) (Z.min (grid_width g - 1) endX)) g)
    (zrange (Z.max 0 startY) (Z.min (grid_height g - 1) endY)) g.

(** The cells of the square of the given radius around a position, row
    by row, clipped to the grid, each with the loop indices [x], [y]. *)
Definition neighbourhood (g : Grid) (p : Position) (radius : Z) : list (Position * Cell) :=
  flat_map
    (fun y =>
       flat_map
         (fun x =>
            match cell_at (cells g) x y with
            | Some c => [({| px := x; py := y |}, c)]
            | None => []
            end)
         (zrange (Z.max 0 (px p - radius)) (Z.min (grid_width g - 1) (px p + radius))))
    (zrange (Z.max 0 (py p - radius)) (Z.min (grid_height g - 1) (py p + radius))).

Definition getNearbyOrganisms (g : Grid) (p : Position) (radius : Z) : list string :=
  flat_map (fun xc => organisms (snd xc)) (neighbourhood g p radius).

Definition findAvailablePosition (g : Grid) (origin : Position) (maxDistance : Z)
  : M (option Position) :=
  let positions :=
    flat_map
      (fun xc : Position * Cell =>
         let cell := snd xc in
         let baseScore := (10 - Z.min 10 (Z.of_nat (List.length (organisms cell))))%Z in
         let elevationBonus := if Qlt_bool 1 (cell_height cell) then 2%Z else 0%Z in
         let score := (baseScore + elevationBonus)%Z in
         repeat (fst xc) (Z.to_nat score))
      (neighbourhood g origin maxDistance) in
  match positions with
  | [] => ret None
  | _ => r <- Math_random ;; ret (pick r positions)
  end.

Definition addNutrients (g : Grid) (p : Position) (amount : Q) : Grid :=
  match getCell g p with
  | Some _ =>
      update_cell g (px p) (py p)
        (fun c => set_nutrientLevel c (Qmin 100 (cell_nutrientLevel c + amount)))
  | None => g
  end.

(** ** models/Environment.ts *)

Record Area : Type := { startX : Z; startY : Z; endX : Z; endY : Z }.

Record Disturbance : Type := {
  d_type : DisturbanceType;
  intensity : Q;
  duration : Q;
  affectedArea : Area;
  current : Q;
  active : bool
}.

(** Disturbance objects are shared between the environment's list, the
    return value of [addDisturbance] and the simulation state, and they
    are mutated in place.  The store holds every disturbance object ever
    created, at the index that serves as its address. *)
Definition Store : Type := list Disturbance.

Record SimulationConfig : Type := {
  gridWidth : Z;
  gridHeight : Z;
  initialProducers : Z;
  initialHerbivores : Z;
  initialCarnivores : Z;
  initialDecomposers : Z;
  simulationSpeed : Q;
  initialTemperature : Q;
  initialRainfall : Q;
  enableEvolution : bool;
  enableDisturbances : bool
}.

(** [Partial<EnvironmentConfig>]. *)
Record PartialEnvironmentConfig : Type := {
  oe_temperature : option Q;
  oe_rainfall : option Q;
  oe_seasonalFactor : option Q;
  oe_nutrientLevel : option Q;
  oe_sunlightIntensity : option Q;
  oe_width : option Z;
  oe_height : option Z;
  oe_pollutionLevel : option Q;
  oe_season : option Season;
  oe_day : option nat
}.

Definition full_config (c : EnvironmentConfig) : PartialEnvironmentConfig :=
  {| oe_temperature := Some (temperature c); oe_rainfall := Some (rainfall c);
     oe_seasonalFactor := Some (seasonalFactor c);
     oe_nutrientLevel := Some (nutrientLevel c);
     oe_sunlightIntensity := Some (sunlightIntensity c);
     oe_width := Some (width c); oe_height := Some (height c);
     oe_pollutionLevel := Some (pollutionLevel c);
     oe_season := Some (season c); oe_day := Some (day c) |}.

(** The instance fields [yearLength] and [seasonLength] are set once by
    the constructor and never assigned again. *)
Definition yearLength : nat := 120.
Definition seasonLength : nat := 30.

Record Environment : Type := {
  config : EnvironmentConfig;
  env_day : nat;
  disturbances : list nat  (* addresses into the store *)
}.

Definition Environment_new (c : PartialEnvironmentConfig)
    (simulationConfig : option SimulationConfig) : Environment :=
  {| env_day := 0;
     config :=
       {| temperature := JS.or_num (oe_temperature c) 25;
          rainfall := JS.or_num (oe_rainfall c) 50;
          seasonalFactor := JS.or_num (oe_seasonalFactor c) 1.0;
          nutrientLevel := JS.or_num (oe_nutrientLevel c) 50;
          sunlightIntensity := JS.or_num (oe_sunlightIntensity c) 80;
          width :=
            JS.or_int (oe_width c)
              (JS.or_int (option_map gridWidth simulationConfig) 50);
          height :=
            JS.or_int (oe_height c)
              (JS.or_int (option_map gridHeight simulationConfig) 50);
          pollutionLevel := JS.or_num (oe_pollutionLevel c) 10;
          season := JS.or_obj (oe_season c) Spring;
          day := match oe_day c with Some d => d | None => 0%nat end |};
     disturbances := [] |}.

Definition set_config (this : Environment) (c : EnvironmentConfig) : Environment :=
  {| config := c; env_day := env_day this; disturbances := disturbances this |}.

Definition set_disturbances (this : Environment) (l : list nat) : Environment :=
  {| config := config this; env_day := env_day this; disturbances := l |}.

Definition set_climate (c : EnvironmentConfig) (temp rain sun factor : Q)
  : EnvironmentConfig :=
  {| temperature := temp; rainfall := rain; seasonalFactor := factor;
     nutrientLevel := nutrientLevel c; sunlightIntensity := sun;
     width := width c; height := height c; pollutionLevel := pollutionLevel c;
     season := season c; day := day c |}.

Definition set_pollutionLevel (c : EnvironmentConfig) (p : Q) : EnvironmentConfig :=
  {| temperature := temperature c; rainfall := rainfall c;
     seasonalFactor := seasonalFactor c; nutrientLevel := nutrientLevel c;
     sunlightIntensity := sunlightIntensity c; width := width c; height := height c;
     pollutionLevel := p; season := season c; day := day c |}.

Definition set_day_season (c : EnvironmentConfig) (d : nat) (s : Season)
  : EnvironmentConfig :=
  {| temperature := temperature c; rainfall := rainfall c;
     seasonalFactor := seasonalFactor c; nutrientLevel := nutrientLevel c;
     sunlightIntensity := sunlightIntensity c; width := width c; height := height c;
     pollutionLevel := pollutionLevel c; season := s; day := d |}.

Definition nat_Q (n : nat) : Q := inject_Z (Z.of_nat n).

Definition updateSeasonalFactors (this : Environment) : M Environment :=
  let dayInSeason := (env_day this mod seasonLength)%nat in
  let seasonProgress := nat_Q dayInSeason / nat_Q seasonLength in
  let c := config this in
  let c :=
    match season c with
    | Spring =>
        set_climate c (15 + 10 * seasonProgress) (40 + 20 * seasonProgress)
                      (60 + 20 * seasonProgress) (0.7 + 0.3 * seasonProgress)
    | Summer =>
        set_climate c (25 + 5 * (1 - seasonProgress)) (60 - 20 * seasonProgress)
                      (80 + 20 * (1 - seasonProgress)) 1.0
    | Fall =>
        set_climate c (25 - 15 * seasonProgress) (40 - 10 * seasonProgress)
                      (60 - 20 * seasonProgress) (0.7 - 0.2 * seasonProgress)
    | Winter =>
        set_climate c (10 - 5 * seasonProgress) (30 - 10 * (1 - seasonProgress))
                      (40 + 20 * seasonProgress) (0.5 + 0.2 * seasonProgress)
    end in
  r1 <- Math_random ;;
  r2 <- Math_random ;;
  let temp := temperature c + (r1 * 2 - 1) in
  let rain := rainfall c + (r2 * 4 - 2) in
  ret (set_config this
         (set_climate c (Qmax (-10) (Qmin 40 temp)) (Qmax 10 (Qmin 100 rain))
                        (Qmax 30 (Qmin 100 (sunlightIntensity c))) (seasonalFactor c))).

Definition age_disturbance (d : Disturbance) : Disturbance :=
  {| d_type := d_type d; intensity := intensity d; duration := duration d;
     affectedArea := affectedArea d; current := current d + 1; active := active d |}.

Definition deactivate (d : Disturbance) : Disturbance :=
  {| d_type := d_type d; intensity := intensity d; duration := duration d;
     affectedArea := affectedArea d; current := current d; active := false |}.

(** The callback of [this.disturbances.filter(...)], run over the list in
    order; it mutates the objects it visits. *)
Fixpoint updateDisturbances_filter (l : list nat) (h : Store) : list nat * Store :=
  match l with
  | [] => ([], h)
  | a :: l' =>
      match nth_error h a with
      | None => updateDisturbances_filter l' h
      | Some d =>
          if negb (active d) then updateDisturbances_filter l' h
          else
            let h := update_nth a age_disturbance h in
            if Qle_bool (duration d) (current d + 1) then
              updateDisturbances_filter l' (update_nth a deactivate h)
            else
              let r := updateDisturbances_filter l' h in
              (a :: fst r, snd r)
      end
  end.

Definition updateDisturbances (this : Environment) (h : Store) : Environment * Store :=
  let r := updateDisturbances_filter (disturbances this) h in
  (set_disturbances this (fst r), snd r).

Definition clamp (lo hi x : Q) : Q := Qmax lo (Qmin hi x).

(** Returns the address of the new disturbance object. *)
Definition addDisturbance (this : Environment) (h : Store) (type : DisturbanceType)
    (intensity0 duration0 : Q) (area : Area) : nat * Environment * Store :=
  let disturbance :=
    {| d_type := type; intensity := intensity0; duration := duration0;
       affectedArea := area; current := 0; active := true |} in
  let a := List.length h in
  let h := (h ++ [disturbance])%list in
  let c := config this in
  let c :=
    match type with
    | Fire =>
        set_climate c (temperature c + 5 * intensity0) (rainfall c)
                      (sunlightIntensity c) (seasonalFactor c)
    | Drought =>
        set_climate c (temperature c) (rainfall c * (1 - 0.3 * intensity0))
                      (sunlightIntensity c) (seasonalFactor c)
    | Flood =>
        set_climate c (temperature c) (rainfall c + 30 * intensity0)
                      (sunlightIntensity c) (seasonalFactor c)
    | HumanActivity => set_pollutionLevel c (pollutionLevel c + 20 * intensity0)
    | Disease | NoDisturbance => c
    end in
  let c :=
    set_pollutionLevel
      (set_climate c (clamp (-10) 45 (temperature c)) (clamp 5 100 (rainfall c))
                     (sunlightIntensity c) (seasonalFactor c))
      (clamp 0 100 (pollutionLevel c)) in
  (a, {| config := c; env_day := env_day this;
         disturbances := (disturbances this ++ [a])%list |}, h).

Definition generateRandomDisturbance (this : Environment) (h : Store)
  : M (Environment * Store) :=
  let disturbanceTypes := [Fire; Drought; Flood; Disease; HumanActivity] in
  r1 <- Math_random ;;
  r2 <- Math_random ;;
  r3 <- Math_random ;;
  r4 <- Math_random ;;
  r5 <- Math_random ;;
  r6 <- Math_random ;;
  match pick r1 disturbanceTypes with
  | None => ret (this, h)
  | Some type =>
      let intensity0 := 0.2 + r2 * 0.5 in
      let duration0 := 3 + inject_Z (Qfloor (r3 * 8)) in
      let w := width (config this) in
      let hgt := height (config this) in
      let centerX := Qfloor (r4 * inject_Z w) in
      let centerY := Qfloor (r5 * inject_Z hgt) in
      let radius := (Qfloor (r6 * (inject_Z (Z.min w hgt) / 6)) + 2)%Z in
      let area :=
        {| startX := Z.max 0 (centerX - radius);
           startY := Z.max 0 (centerY - radius);
           endX := Z.min (w - 1) (centerX + radius);
           endY := Z.min (hgt - 1) (centerY + radius) |} in
      let r := addDisturbance this h type intensity0 duration0 area in
      ret (snd (fst r), snd r)
  end.

Definition season_of_day (d : nat) : Season :=
  let dayInYear := (d mod yearLength)%nat in
  match (dayInYear / seasonLength)%nat with
  | 0%nat => Spring
  | 1%nat => Summer
  | 2%nat => Fall
  | _ => Winter
  end.

Definition Environment_update (this : Environment) (h : Store) : M (Environment * Store) :=
  let d := S (env_day this) in
  let this :=
    {| config := set_day_season (config this) d (season_of_day d);
       env_day := d; disturbances := disturbances this |} in
  this <- updateSeasonalFactors this ;;
  let u := updateDisturbances this h in
  r <- Math_random ;;
  if Qlt_bool r 0.0005 then generateRandomDisturbance (fst u) (snd u)
  else ret u.

Definition getActiveDisturbances (this : Environment) (h : Store) : list nat :=
  filter (fun a => match nth_error h a with Some d => active d | None => false end)
         (disturbances this).

Definition getConfig (this : Environment) : EnvironmentConfig := config this.

(** ** Grid construction

    [Math.sqrt] and [Math.log] are not rational functions; the
    definitions that call them take them as parameters.  No division in
    [initializeGrid] is by zero as long as [Math_sqrt] is positive on
    positive arguments. *)

Section Simulation.

Variable Math_sqrt : Q -> Q.
Variable Math_log : Q -> Q.

Definition sq (x : Q) : Q := x * x.

(** One of the three hills of a cell: updates the running [cellHeight]. *)
Definition hill (w h x y : Q) (cellHeight : Q) : M Q :=
  r1 <- Math_random ;;
  r2 <- Math_random ;;
  r3 <- Math_random ;;
  let hillX := (w * 0.2) + (r1 * w * 0.6) in
  let hillY := (h * 0.2) + (r2 * h * 0.6) in
  let hillRadius := 3 + r3 * 5 in
  let distanceFromHill := Math_sqrt (sq (x - hillX) + sq (y - hillY)) in
  if Qlt_bool distanceFromHill hillRadius then
    r4 <- Math_random ;;
    let hillElevationFactor := 1 - (distanceFromHill / hillRadius) in
    ret (Qmax cellHeight (hillElevationFactor * (0.8 + r4 * 1.2)))
  else ret cellHeight.

Definition initializeCell (width0 height0 : Z) (env : EnvironmentConfig) (xi yi : Z)
  : M Cell :=
  let w := inject_Z width0 in
  let h := inject_Z height0 in
  let x := inject_Z xi in
  let y := inject_Z yi in
  let distanceFromCenter := Math_sqrt (sq (x - w / 2) + sq (y - h / 2)) in
  let normalizedDistance :=
    distanceFromCenter / Math_sqrt (sq (w / 2) + sq (h / 2)) in
  let cellHeight := 0 in
  let centerX := w / 2 in
  let centerY := h / 2 in
  let islandRadius := inject_Z (Z.min width0 height0) * 0.25 in
  let distanceFromIslandCenter := Math_sqrt (sq (x - centerX) + sq (y - centerY)) in
  let cellHeight :=
    if Qlt_bool distanceFromIslandCenter islandRadius then
      let elevationFactor := 1 - (distanceFromIslandCenter / islandRadius) in
      Qmax cellHeight (elevationFactor * 2.5)
    else cellHeight in
  cellHeight <- hill w h x y cellHeight ;;
  cellHeight <- hill w h x y cellHeight ;;
  cellHeight <- hill w h x y cellHeight ;;
  r1 <- Math_random ;;
  let cellHeight := cellHeight + (r1 - 0.5) * 0.3 in
  let cellHeight := Qmax 0 cellHeight in
  r2 <- Math_random ;;
  let baseNutrients := 50 + r2 * 50 in
  let elevationNutrientPenalty := cellHeight * 15 in
  let nutrientVariation := 1 - normalizedDistance * 0.3 in
  r3 <- Math_random ;;
  let baseWater := rainfall env * 0.8 + r3 * 20 in
  let elevationWaterPenalty := cellHeight * 25 in
  let waterVariation := 1 - normalizedDistance * 0.2 in
  let finalNutrients :=
    Qmax 10 ((baseNutrients - elevationNutrientPenalty) * nutrientVariation) in
  let finalWater := Qmax 5 ((baseWater - elevationWaterPenalty) * waterVariation) in
  r4 <- Math_random ;;
  r5 <- Math_random ;;
  ret {| cell_x := xi; cell_y := yi; cell_height := cellHeight;
         cell_nutrientLevel := finalNutrients; cell_waterLevel := finalWater;
         organisms := [];
         cell_temperature := temperature env + (r4 * 4 - 2);
         cell_pollutionLevel := pollutionLevel env * (0.8 + r5 * 0.4) |}.

Definition initializeGrid (width0 height0 : Z) (env : EnvironmentConfig)
  : M (list (list Cell)) :=
  foldM
    (fun grid y =>
       row <- foldM (fun row x =>
                       c <- initializeCell width0 height0 env x y ;;
                       ret (row ++ [c]))
                    (zrange 0 (width0 - 1)) [] ;;
       ret (grid ++ [row]))
    (zrange 0 (height0 - 1)) [].

Definition Grid_new (width0 height0 : Z) (env : EnvironmentConfig) : M Grid :=
  cs <- initializeGrid width0 height0 env ;;
  ret {| grid_width := width0; grid_height := height0; cells := cs |}.

(** ** hooks/useSimulation.ts: the state *)

Record SimulationStatistics : Type := {
  producers : list Q;
  herbivores : list Q;
  carnivores : list Q;
  decomposers : list Q;
  biodiversityIndex : list Q;
  averageTemperature : list Q;
  averageRainfall : list Q;
  totalEnergy : list Q;
  totalNutrients : list Q;
  stabilityIndex : list JS.num
}.

Definition EMPTY_STATS : SimulationStatistics :=
  {| producers := []; herbivores := []; carnivores := []; decomposers := [];
     biodiversityIndex := []; averageTemperature := []; averageRainfall := [];
     totalEnergy := []; totalNutrients := []; stabilityIndex := [] |}.

(** The organism table, a JavaScript object whose keys are visited in
    insertion order (identifiers are not array indices). *)
Definition Table : Type := list (string * Attributes).

Fixpoint lookup {A : Type} (k : string) (t : list (string * A)) : option A :=
  match t with
  | [] => None
  | (k', v) :: t' => if String.eqb k k' then Some v else lookup k t'
  end.

(** [t[k] = v]: an existing key keeps its place, a new key goes last. *)
Fixpoint assign {A : Type} (k : string) (v : A) (t : list (string * A))
  : list (string * A) :=
  match t with
  | [] => [(k, v)]
  | (k', v') :: t' =>
      if String.eqb k k' then (k', v) :: t' else (k', v') :: assign k v t'
  end.

(** [delete t[k]]. *)
Definition delete {A : Type} (k : string) (t : list (string * A)) : list (string * A) :=
  filter (fun kv => negb (String.eqb k (fst kv))) t.

(** [state.grid] is a reference to an array of rows.  After
    [initialize] and after every cycle it is the very array the current
    [Grid] object holds and mutates ([GridCells]); after [loadSimulation]
    it is the array of the snapshot ([Snapshot]). *)
Inductive CellsRef : Type :=
| GridCells
| Snapshot (cs : list (list Cell)).

Record SimulationState : Type := {
  st_day : nat;
  st_season : Season;
  st_environment : EnvironmentConfig;
  st_grid : CellsRef;
  st_organisms : Table;
  st_disturbance : option nat;   (* address of a disturbance object *)
  st_statistics : SimulationStatistics;
  st_paused : bool;
  st_cyclesPerSecond : Q
}.

Record SavedSimulation : Type := {
  saved_name : string;
  saved_date : string;
  saved_state : SimulationState;
  saved_config : SimulationConfig
}.

(** The values the hook keeps between calls: its React state, its refs,
    the store of disturbance objects and the restart that
    [checkForExtinction] hands to [setTimeout]. *)
Record Hook : Type := {
  hk_config : SimulationConfig;
  hk_state : SimulationState;
  gridRef : option Grid;
  environmentRef : option Environment;
  hk_store : Store;
  autoRestartOnExtinction : bool;
  extinctionCount : nat;
  lastExtinctionDay : nat;
  scheduledRestart : option SimulationConfig
}.

Definition DEFAULT_CONFIG : SimulationConfig :=
  {| gridWidth := 30; gridHeight := 30; initialProducers := 80;
     initialHerbivores := 25; initialCarnivores := 8; initialDecomposers := 100;
     simulationSpeed := 1; initialTemperature := 25; initialRainfall := 30;
     enableEvolution := true; enableDisturbances := false |}.

Definition generateRandomConfig : M SimulationConfig :=
  r1 <- Math_random ;;
  r2 <- Math_random ;;
  r3 <- Math_random ;;
  r4 <- Math_random ;;
  r5 <- Math_random ;;
  r6 <- Math_random ;;
  r7 <- Math_random ;;
  r8 <- Math_random ;;
  r9 <- Math_random ;;
  ret {| gridWidth := 25 + Qfloor (r1 * 15);
         gridHeight := 25 + Qfloor (r2 * 15);
         initialProducers := 60 + Qfloor (r3 * 40);
         initialHerbivores := 15 + Qfloor (r4 * 20);
         initialCarnivores := 5 + Qfloor (r5 * 10);
         initialDecomposers := 50 + Qfloor (r6 * 20);
         simulationSpeed := 1;
         initialTemperature := 20 + r7 * 10;
         initialRainfall := 40 + r8 * 40;
         enableEvolution := true;
         enableDisturbances := Qlt_bool 0.5 r9 |}.

(** ** hooks/useSimulation.ts: [initialize] *)

Definition spawn_attributes (pos : Position) (energy0 size0 maxAge0 rate0 threshold0 : Q)
    (species0 : string) (movementCost0 : option Q) (x : Extras) : PartialAttributes :=
  {| o_id := None; o_type := None; o_position := Some pos;
     o_energy := Some energy0; o_size := Some size0; o_age := None;
     o_maxAge := Some maxAge0; o_reproductionEnergy := Some threshold0;
     o_reproductionRate := Some rate0; o_movementCost := movementCost0;
     o_isDead := None; o_species := Some species0; o_extras := x |}.

Definition random_position (c : SimulationConfig) : M Position :=
  rx <- Math_random ;;
  ry <- Math_random ;;
  ret {| px := Qfloor (rx * inject_Z (gridWidth c));
         py := Qfloor (ry * inject_Z (gridHeight c)) |}.

(** [organisms[o.id] = attrs; grid.addOrganism(attrs)]. *)
Definition register (a : Attributes) (acc : Table * Grid) : Table * Grid :=
  (assign (id (base a)) a (fst acc), snd (addOrganism (snd acc) (base a))).

Definition spawn_producer (c : SimulationConfig) (acc : Table * Grid) : M (Table * Grid) :=
  pos <- random_position c ;;
  r1 <- Math_random ;;
  r2 <- Math_random ;;
  r3 <- Math_random ;;
  r4 <- Math_random ;;
  r5 <- Math_random ;;
  r6 <- Math_random ;;
  r7 <- Math_random ;;
  producer <- Producer_new
    (spawn_attributes pos (120 + r1 * 40) (0.6 + r2 * 1.2)
       (90 + inject_Z (Qfloor (r3 * 30))) (0.12 + r4 * 0.15) (110 + r5 * 50)
       "Basic Plant" None
       {| x_growthRate := Some (0.06 + r6 * 0.08);
          x_photosynthesisRate := Some (0.15 + r7 * 0.15);
          x_waterConsumption := None; x_consumerType := None;
          x_huntingEfficiency := None; x_metabolismRate := None; x_diet := None;
          x_decompositionRate := None; x_nutrientProductionRate := None |}) ;;
  ret (register (Producer_getAttributes producer) acc).

Definition spawn_herbivore (c : SimulationConfig) (acc : Table * Grid) : M (Table * Grid) :=
  pos <- random_position c ;;
  r1 <- Math_random ;;
  r2 <- Math_random ;;
  r3 <- Math_random ;;
  r4 <- Math_random ;;
  r5 <- Math_random ;;
  r6 <- Math_random ;;
  r7 <- Math_random ;;
  r8 <- Math_random ;;
  consumer <- Consumer_new
    (spawn_attributes pos (180 + r1 * 40) (1.0 + r2 * 0.8)
       (70 + inject_Z (Qfloor (r3 * 25))) (0.06 + r4 * 0.12) (160 + r5 * 30)
       "Herbivore" (Some (0.6 + r8 * 0.3))
       {| x_growthRate := None; x_photosynthesisRate := None;
          x_waterConsumption := None; x_consumerType := Some Herbivore;
          x_huntingEfficiency := Some (0.5 + r6 * 0.25);
          x_metabolismRate := Some (0.06 + r7 * 0.03);
          x_diet := Some ["Basic Plant"];
          x_decompositionRate := None; x_nutrientProductionRate := None |}) ;;
  ret (register (Consumer_getAttributes consumer) acc).

Definition spawn_carnivore (c : SimulationConfig) (acc : Table * Grid) : M (Table * Grid) :=
  pos <- random_position c ;;
  r1 <- Math_random ;;
  r2 <- Math_random ;;
  r3 <- Math_random ;;
  r4 <- Math_random ;;
  r5 <- Math_random ;;
  r6 <- Math_random ;;
  r7 <- Math_random ;;
  r8 <- Math_random ;;
  consumer <- Consumer_new
    (spawn_attributes pos (220 + r1 * 80) (1.8 + r2 * 1.5)
       (80 + inject_Z (Qfloor (r3 * 30))) (0.04 + r4 * 0.06) (220 + r5 * 40)
       "Carnivore" (Some (1.0 + r8 * 0.4))
       {| x_growthRate := None; x_photosynthesisRate := None;
          x_waterConsumption := None; x_consumerType := Some Carnivore;
          x_huntingEfficiency := Some (0.6 + r6 * 0.3);
          x_metabolismRate := Some (0.08 + r7 * 0.04);
          x_diet := Some ["Herbivore"];
          x_decompositionRate := None; x_nutrientProductionRate := None |}) ;;
  ret (register (Consumer_getAttributes consumer) acc).

Definition spawn_decomposer (c : SimulationConfig) (acc : Table * Grid) : M (Table * Grid) :=
  pos <- random_position c ;;
  r1 <- Math_random ;;
  r2 <- Math_random ;;
  r3 <- Math_random ;;
  r4 <- Math_random ;;
  r5 <- Math_random ;;
  r6 <- Math_random ;;
  r7 <- Math_random ;;
  r8 <- Math_random ;;
  decomposer <- Decomposer_new
    (spawn_attributes pos (100 + r1 * 30) (0.4 + r2 * 0.6)
       (75 + inject_Z (Qfloor (r3 * 15))) (0.25 + r4 * 0.15) (90 + r5 * 40)
       "Decomposer" (Some (0.2 + r8 * 0.2))
       {| x_growthRate := None; x_photosynthesisRate := None;
          x_waterConsumption := None; x_consumerType := None;
          x_huntingEfficiency := None; x_metabolismRate := None; x_diet := None;
          x_decompositionRate := Some (0.25 + r6 * 0.25);
          x_nutrientProductionRate := Some (0.3 + r7 * 0.2) |}) ;;
  ret (register (Decomposer_getAttributes decomposer) acc).

(** [for (let i = 0; i < count; i++) body]. *)
Definition times {B : Type} (count : Z) (body : B -> M B) (b : B) : M B :=
  foldM (fun b _ => body b) (zrange 0 (count - 1)) b.

Definition initial_environment (c : SimulationConfig) : Environment :=
  Environment_new
    {| oe_temperature := Some (initialTemperature c);
       oe_rainfall := Some (initialRainfall c);
       oe_seasonalFactor := None; oe_nutrientLevel := None;
       oe_sunlightIntensity := None; oe_width := None; oe_height := None;
       oe_pollutionLevel := None; oe_season := None; oe_day := None |}
    (Some c).

Definition initialize (newConfig : option SimulationConfig) (hk : Hook) : M Hook :=
  let configToUse := JS.or_obj newConfig (hk_config hk) in
  let environment := initial_environment configToUse in
  grid <- Grid_new (gridWidth configToUse) (gridHeight configToUse)
                   (getConfig environment) ;;
  acc <- times (initialProducers configToUse) (spawn_producer configToUse) ([], grid) ;;
  acc <- times (initialHerbivores configToUse) (spawn_herbivore configToUse) acc ;;
  acc <- times (initialCarnivores configToUse) (spawn_carnivore configToUse) acc ;;
  acc <- times (initialDecomposers configToUse) (spawn_decomposer configToUse) acc ;;
  ret {| hk_config := configToUse;
         hk_state :=
           {| st_day := 0; st_season := Spring;
              st_environment := getConfig environment;
              st_grid := GridCells;
              st_organisms := fst acc;
              st_disturbance := None;
              st_statistics := EMPTY_STATS;
              st_paused := true;
              st_cyclesPerSecond := simulationSpeed configToUse |};
         gridRef := Some (snd acc);
         environmentRef := Some environment;
         hk_store := hk_store hk;
         autoRestartOnExtinction := autoRestartOnExtinction hk;
         extinctionCount := extinctionCount hk;
         lastExtinctionDay := lastExtinctionDay hk;
         scheduledRestart := scheduledRestart hk |}.

(** ** [runCycle]: statistics *)

Definition is_type (t : OrganismType) (a : Attributes) : bool :=
  OrganismType_eqb (type (base a)) t.

Definition is_guild (g : ConsumerType) (a : Attributes) : bool :=
  is_type TConsumer a &&
  match x_consumerType (extras a) with
  | Some g' => ConsumerType_eqb g' g
  | None => false
  end.

(** [Object.values(t).filter(p).length]. *)
Definition count (p : Attributes -> bool) (t : Table) : Z :=
  Z.of_nat (List.length (filter p (map snd t))).

Definition totalOrganisms (t : Table) : Z :=
  (count (is_type TProducer) t + count (is_guild Herbivore) t
   + count (is_guild Carnivore) t + count (is_type TDecomposer) t)%Z.

(** [array.slice(-n)]. *)
Definition slice_last {A : Type} (n : nat) (l : list A) : list A :=
  skipn (List.length l - n) l.

(** [array.reduce((sum, val) => sum + f(val), 0)]. *)
Definition reduce_sum {A : Type} (f : A -> Q) (l : list A) : Q :=
  fold_left (fun sum val => sum + f val) l 0.

Definition compute_stabilityIndex (stats : SimulationStatistics) : JS.num :=
  if (10 <? List.length (producers stats))%nat then
    let recentProducers := slice_last 10 (producers stats) in
    let avgProducers :=
      reduce_sum (fun val => val) recentProducers
      / nat_Q (List.length recentProducers) in
    let variationProducers :=
      JS.div (reduce_sum (fun val => Qabs (val - avgProducers)) recentProducers)
             avgProducers in
    let recentHerbivores := slice_last 10 (herbivores stats) in
    let avgHerbivores :=
      JS.div (reduce_sum (fun val => val) recentHerbivores)
             (nat_Q (List.length recentHerbivores)) in
    let variationHerbivores :=
      if JS.ltb (JS.Fin 0) avgHerbivores then
        match avgHerbivores with
        | JS.Fin avg =>
            JS.div (reduce_sum (fun val => Qabs (val - avg)) recentHerbivores) avg
        | _ => JS.NaN
        end
      else JS.Fin 0 in
    JS.max 0 (JS.sub (JS.Fin 1)
                (JS.div_const (JS.add variationProducers variationHerbivores) 4))
  else JS.Fin 1.

Definition speciesCounts (t : Table) : list (string * Q) :=
  fold_left
    (fun counts a =>
       let sp := species (base a) in
       assign sp (match lookup sp counts with Some n => n | None => 0 end + 1) counts)
    (map snd t) [].

Definition compute_biodiversity (t : Table) : Q :=
  let counts := map snd (speciesCounts t) in
  let total := fold_left (fun sum n => sum + n) counts 0 in
  fold_left
    (fun biodiversity n =>
       let proportion := n / total in
       biodiversity - proportion * Math_log proportion)
    counts 0.

Definition grid_totalNutrients (g : Grid) : Q :=
  fold_left
    (fun sum row => sum + fold_left (fun rowSum cell => rowSum + cell_nutrientLevel cell) row 0)
    (cells g) 0.

Definition push_statistics (stats : SimulationStatistics)
    (p h c d bio temp rain en nut : Q) (stab : JS.num) : SimulationStatistics :=
  {| producers := producers stats ++ [p];
     herbivores := herbivores stats ++ [h];
     carnivores := carnivores stats ++ [c];
     decomposers := decomposers stats ++ [d];
     biodiversityIndex := biodiversityIndex stats ++ [bio];
     averageTemperature := averageTemperature stats ++ [temp];
     averageRainfall := averageRainfall stats ++ [rain];
     totalEnergy := totalEnergy stats ++ [en];
     totalNutrients := totalNutrients stats ++ [nut];
     stabilityIndex := stabilityIndex stats ++ [stab] |}.

Definition truncate_statistics (stats : SimulationStatistics) : SimulationStatistics :=
  if (500 <? List.length (producers stats))%nat then
    {| producers := slice_last 500 (producers stats);
       herbivores := slice_last 500 (herbivores stats);
       carnivores := slice_last 500 (carnivores stats);
       decomposers := slice_last 500 (decomposers stats);
       biodiversityIndex := slice_last 500 (biodiversityIndex stats);
       averageTemperature := slice_last 500 (averageTemperature stats);
       averageRainfall := slice_last 500 (averageRainfall stats);
       totalEnergy := slice_last 500 (totalEnergy stats);
       totalNutrients := slice_last 500 (totalNutrients stats);
       stabilityIndex := slice_last 500 (stabilityIndex stats) |}
  else stats.

(** ** [runCycle]: the pass over the organisms *)

(** The local variables of the [setState] callback that the loop over
    the organisms reads and writes, with the grid it mutates. *)
Record Loop : Type := {
  newOrganisms : Table;
  deadOrganisms : list string;
  positionChanges : list (string * (Position * Position));
  newOrganismsToAdd : list Organism;
  deadOrganismsCounts : list (Position * Z);
  grid : Grid
}.

Definition set_newOrganisms (l : Loop) (t : Table) : Loop :=
  {| newOrganisms := t; deadOrganisms := deadOrganisms l;
     positionChanges := positionChanges l; newOrganismsToAdd := newOrganismsToAdd l;
     deadOrganismsCounts := deadOrganismsCounts l; grid := grid l |}.

Definition set_deadOrganisms (l : Loop) (d : list string) : Loop :=
  {| newOrganisms := newOrganisms l; deadOrganisms := d;
     positionChanges := positionChanges l; newOrganismsToAdd := newOrganismsToAdd l;
     deadOrganismsCounts := deadOrganismsCounts l; grid := grid l |}.

Definition set_positionChanges (l : Loop) (m : list (string * (Position * Position)))
  : Loop :=
  {| newOrganisms := newOrganisms l; deadOrganisms := deadOrganisms l;
     positionChanges := m; newOrganismsToAdd := newOrganismsToAdd l;
     deadOrganismsCounts := deadOrganismsCounts l; grid := grid l |}.

Definition set_newOrganismsToAdd (l : Loop) (a : list Organism) : Loop :=
  {| newOrganisms := newOrganisms l; deadOrganisms := deadOrganisms l;
     positionChanges := positionChanges l; newOrganismsToAdd := a;
     deadOrganismsCounts := deadOrganismsCounts l; grid := grid l |}.

Definition set_deadOrganismsCounts (l : Loop) (c : list (Position * Z)) : Loop :=
  {| newOrganisms := newOrganisms l; deadOrganisms := deadOrganisms l;
     positionChanges := positionChanges l; newOrganismsToAdd := newOrganismsToAdd l;
     deadOrganismsCounts := c; grid := grid l |}.

Definition set_grid (l : Loop) (g : Grid) : Loop :=
  {| newOrganisms := newOrganisms l; deadOrganisms := deadOrganisms l;
     positionChanges := positionChanges l; newOrganismsToAdd := newOrganismsToAdd l;
     deadOrganismsCounts := deadOrganismsCounts l; grid := g |}.

(** [deadOrganismsCounts[cellKey] || 0]; the key ["x,y"] is the position. *)
Fixpoint deadCountAt (p : Position) (c : list (Position * Z)) : Z :=
  match c with
  | [] => 0
  | (q, n) :: c' => if Position_eqb p q then n else deadCountAt p c'
  end.

Fixpoint bump (p : Position) (c : list (Position * Z)) : list (Position * Z) :=
  match c with
  | [] => [(p, 1%Z)]
  | (q, n) :: c' => if Position_eqb p q then (q, (n + 1)%Z) :: c' else (q, n) :: bump p c'
  end.

(** The eight neighbours in the order of the loops over [dx] and [dy]. *)
Definition offsets : list (Z * Z) :=
  [(-1, -1); (-1, 0); (-1, 1); (0, -1); (0, 1); (1, -1); (1, 0); (1, 1)]%Z.

Definition in_config (env : EnvironmentConfig) (p : Position) : bool :=
  (0 <=? px p)%Z && (px p <? width env)%Z && (0 <=? py p)%Z && (py p <? height env)%Z.

Definition shifted (p : Position) (d : Z * Z) : Position :=
  {| px := px p + fst d; py := py p + snd d |}.

(** The block "Handle reproduction", which the three branches share up
    to the search radius.  Returns the parent after the attempt. *)
Definition handle_reproduction (o : Organism) (radius : Z) (l : Loop) : M (Organism * Loop) :=
  can <- canReproduce o ;;
  if can then
    offspringPosition <- findAvailablePosition (grid l) (position o) radius ;;
    match offspringPosition with
    | Some p =>
        r <- reproduce o ;;
        let offspring := set_position (fst r) p in
        ret (snd r, set_newOrganismsToAdd l (newOrganismsToAdd l ++ [offspring]))
    | None => ret (o, l)
    end
  else ret (o, l).

Definition step_producer (env : EnvironmentConfig) (key : string) (organism : Attributes)
    (cell : Cell) (l : Loop) : M Loop :=
  producer <- Producer_new (as_partial organism) ;;
  let producer :=
    Producer_update producer env (cell_nutrientLevel cell) (cell_waterLevel cell) in
  let l := set_newOrganisms l (assign key (Producer_getAttributes producer) (newOrganisms l)) in
  r <- handle_reproduction (p_org producer) 2 l ;;
  ret (snd r).

(** "Move consumers": an 80% chance of a step to a random valid
    neighbour. *)
Definition consumer_move (env : EnvironmentConfig) (o : Organism) (l : Loop)
  : M (Organism * Loop) :=
  r <- Math_random ;;
  if Qlt_bool r 0.8 then
    let validMoves := filter (in_config env) (map (shifted (position o)) offsets) in
    match validMoves with
    | [] => ret (o, l)
    | _ =>
        r' <- Math_random ;;
        match pick r' validMoves with
        | Some newPos =>
            let oldPos := position o in
            ret (move o newPos,
                 set_positionChanges l (assign (id o) (oldPos, newPos) (positionChanges l)))
        | None => ret (o, l)
        end
    end
  else ret (o, l).

(** One of the two feeding attempts of a consumer.  [wanted] is the test
    of the [filter] on the nearby identifiers and [rebuild] is
    [new Producer(target)] or [new Consumer(target)] with the
    [getAttributes()] after the attempt. *)
Definition try_eat (consumer : Consumer) (radius : Z) (wanted : Attributes -> bool)
    (rebuild : Attributes -> M (Organism * (Organism -> Attributes)))
    (l : Loop) : M (Consumer * Loop) :=
  let nearby :=
    filter (fun i => match lookup i (newOrganisms l) with
                     | Some a => wanted a
                     | None => false
                     end)
           (getNearbyOrganisms (grid l) (position (c_org consumer)) radius) in
  match nearby with
  | [] => ret (consumer, l)
  | _ =>
      r <- Math_random ;;
      match pick r nearby with
      | None => ret (consumer, l)
      | Some targetId =>
          match lookup targetId (newOrganisms l) with
          | None => ret (consumer, l)
          | Some target =>
              if canEat consumer (base target) then
                inst <- rebuild target ;;
                res <- eat consumer (fst inst) ;;
                ret (snd (fst res),
                     set_newOrganisms l
                       (assign targetId (snd inst (snd res)) (newOrganisms l)))
              else ret (consumer, l)
          end
      end
  end.

Definition rebuild_producer (target : Attributes) : M (Organism * (Organism -> Attributes)) :=
  p <- Producer_new (as_partial target) ;;
  ret (p_org p, fun o => Producer_getAttributes (Producer_with_org p o)).

Definition rebuild_consumer (target : Attributes) : M (Organism * (Organism -> Attributes)) :=
  c <- Consumer_new (as_partial target) ;;
  ret (c_org c, fun o => Consumer_getAttributes (Consumer_with_org c o)).

Definition step_consumer (env : EnvironmentConfig) (key : string) (organism : Attributes)
    (l : Loop) : M Loop :=
  consumer <- Consumer_new (as_partial organism) ;;
  let consumer := Consumer_update consumer env in
  r <- consumer_move env (c_org consumer) l ;;
  let consumer := Consumer_with_org consumer (fst r) in
  let l := snd r in
  r <- (if negb (ConsumerType_eqb (consumerType consumer) Carnivore) then
          try_eat consumer 1
            (fun a => is_type TProducer a && negb (isDead (base a)))
            rebuild_producer l
        else ret (consumer, l)) ;;
  let consumer := fst r in
  let l := snd r in
  r <- (if negb (ConsumerType_eqb (consumerType consumer) Herbivore) then
          try_eat consumer 2
            (fun a => is_type TConsumer a
                      && negb (String.eqb (id (base a)) (id (c_org consumer)))
                      && negb (isDead (base a)))
            rebuild_consumer l
        else ret (consumer, l)) ;;
  let consumer := fst r in
  let l := snd r in
  r <- handle_reproduction (c_org consumer) 3 l ;;
  let consumer := Consumer_with_org consumer (fst r) in
  let l := snd r in
  ret (set_newOrganisms l (assign key (Consumer_getAttributes consumer) (newOrganisms l))).

(** "Move decomposers occasionally": a 40% chance of a step; a
    neighbour with [k] dead organisms is entered [k + 1] times. *)
Definition decomposer_move (env : EnvironmentConfig) (o : Organism) (l : Loop)
  : M (Organism * Loop) :=
  r <- Math_random ;;
  if Qlt_bool r 0.4 then
    let validMoves :=
      flat_map
        (fun newPos =>
           repeat newPos (Z.to_nat (deadCountAt newPos (deadOrganismsCounts l) + 1)))
        (filter (in_config env) (map (shifted (position o)) offsets)) in
    match validMoves with
    | [] => ret (o, l)
    | _ =>
        r' <- Math_random ;;
        match pick r' validMoves with
        | Some newPos =>
            let oldPos := position o in
            ret (move o newPos,
                 set_positionChanges l (assign (id o) (oldPos, newPos) (positionChanges l)))
        | None => ret (o, l)
        end
    end
  else ret (o, l).

(** "Decomposers can consume dead organisms". *)
Definition decomposer_feed (decomposer : Decomposer) (deadCount : Z) (cell : Cell)
    (l : Loop) : M (Decomposer * Loop) :=
  if (0 <? deadCount)%Z then
    let cellOrganisms :=
      filter (fun i => match lookup i (newOrganisms l) with
                       | Some a => isDead (base a)
                       | None => false
                       end)
             (organisms cell) in
    match cellOrganisms with
    | [] => ret (decomposer, l)
    | _ =>
        r <- Math_random ;;
        match pick r cellOrganisms with
        | None => ret (decomposer, l)
        | Some targetId =>
            match lookup targetId (newOrganisms l) with
            | None => ret (decomposer, l)
            | Some target =>
                let res := decompose decomposer (base target) in
                let decomposer := snd res in
                let l :=
                  set_grid l (addNutrients (grid l) (position (d_org decomposer)) (fst res)) in
                let l :=
                  if includes targetId (deadOrganisms l) then l
                  else set_deadOrganisms l (deadOrganisms l ++ [targetId]) in
                ret (decomposer, l)
            end
        end
    end
  else ret (decomposer, l).

Definition step_decomposer (env : EnvironmentConfig) (key : string) (organism : Attributes)
    (cell : Cell) (l : Loop) : M Loop :=
  decomposer <- Decomposer_new (as_partial organism) ;;
  let deadCount := deadCountAt (position (d_org decomposer)) (deadOrganismsCounts l) in
  let u := Decomposer_update decomposer env (inject_Z deadCount) in
  let nutrientsProduced := fst u in
  let decomposer := snd u in
  let l :=
    if Qlt_bool 0 nutrientsProduced then
      set_grid l (addNutrients (grid l) (position (d_org decomposer)) nutrientsProduced)
    else l in
  r <- decomposer_move env (d_org decomposer) l ;;
  let decomposer := Decomposer_with_org decomposer (fst r) in
  let l := snd r in
  r <- decomposer_feed decomposer deadCount cell l ;;
  let decomposer := fst r in
  let l := snd r in
  r <- handle_reproduction (d_org decomposer) 2 l ;;
  let decomposer := Decomposer_with_org decomposer (fst r) in
  let l := snd r in
  ret (set_newOrganisms l
         (assign key (Decomposer_getAttributes decomposer) (newOrganisms l))).

(** The body of [for (const [id, organism] of Object.entries(newOrganisms))]. *)
Definition step_organism (env : EnvironmentConfig) (l : Loop) (entry : string * Attributes)
  : M Loop :=
  let key := fst entry in
  let organism := snd entry in
  if isDead (base organism) then
    ret (set_deadOrganismsCounts
           (set_deadOrganisms l (deadOrganisms l ++ [key]))
           (bump (position (base organism)) (deadOrganismsCounts l)))
  else
    match getCell (grid l) (position (base organism)) with
    | None => ret l
    | Some cell =>
        match type (base organism) with
        | TProducer => step_producer env key organism cell l
        | TConsumer => step_consumer env key organism l
        | TDecomposer => step_decomposer env key organism cell l
        end
    end.

(** ** [runCycle]: applying the queued changes *)

(** [newOrganisms[id].position = newPos].  JavaScript throws here when
    the table has no entry [id]; this cannot happen while every key of
    the table is the identifier of its entry, and the model then leaves
    the table alone. *)
Definition assign_position (key : string) (p : Position) (t : Table) : Table :=
  match lookup key t with
  | Some a => assign key {| base := set_position (base a) p; extras := extras a |} t
  | None => t
  end.

Definition apply_move (l : Loop) (m : string * (Position * Position)) : Loop :=
  let g := snd (moveOrganism (grid l) (fst m) (fst (snd m)) (snd (snd m))) in
  set_newOrganisms (set_grid l g) (assign_position (fst m) (snd (snd m)) (newOrganisms l)).

Definition apply_birth (l : Loop) (newOrganism : Organism) : Loop :=
  let a := Organism_getAttributes newOrganism in
  set_grid
    (set_newOrganisms l (assign (id newOrganism) a (newOrganisms l)))
    (snd (addOrganism (grid l) (base a))).

Definition apply_removal (l : Loop) (key : string) : Loop :=
  match lookup key (newOrganisms l) with
  | Some a =>
      set_newOrganisms
        (set_grid l (snd (removeOrganism (grid l) key (position (base a)))))
        (delete key (newOrganisms l))
  | None => l
  end.

Definition apply_changes (l : Loop) : Loop :=
  let l := fold_left apply_move (positionChanges l) l in
  let l := fold_left apply_birth (newOrganismsToAdd l) l in
  fold_left apply_removal (deadOrganisms l) l.

(** ** [runCycle] *)

Definition with_extinction (hk : Hook) (g : Grid) (e : Environment) (h : Store)
    (today : nat) (c : SimulationConfig) : Hook :=
  {| hk_config := hk_config hk; hk_state := hk_state hk;
     gridRef := Some g; environmentRef := Some e; hk_store := h;
     autoRestartOnExtinction := autoRestartOnExtinction hk;
     extinctionCount := S (extinctionCount hk);
     lastExtinctionDay := today;
     scheduledRestart := Some c |}.

Definition with_state (hk : Hook) (g : Grid) (e : Environment) (h : Store)
    (st : SimulationState) : Hook :=
  {| hk_config := hk_config hk; hk_state := st;
     gridRef := Some g; environmentRef := Some e; hk_store := h;
     autoRestartOnExtinction := autoRestartOnExtinction hk;
     extinctionCount := extinctionCount hk;
     lastExtinctionDay := lastExtinctionDay hk;
     scheduledRestart := scheduledRestart hk |}.

Definition apply_disturbances (h : Store) (active0 : list nat) (g : Grid) : Grid :=
  fold_left
    (fun g a =>
       match nth_error h a with
       | Some d =>
           applyDisturbance g (startX (affectedArea d)) (startY (affectedArea d))
             (endX (affectedArea d)) (endY (affectedArea d)) (d_type d) (intensity d)
       | None => g
       end)
    active0 g.

(** The first half of [runCycle]: the environment and the grid advance,
    then the organisms are visited.  Returns the environment, the store
    and the local variables as the loop leaves them. *)
Definition cycle_pass (environment : Environment) (grid0 : Grid) (hk : Hook)
  : M (Environment * Store * Loop) :=
  u <- Environment_update environment (hk_store hk) ;;
  let environment := fst u in
  let store := snd u in
  let environmentConfig := getConfig environment in
  let activeDisturbances := getActiveDisturbances environment store in
  let grid0 := updateEnvironment grid0 environmentConfig in
  let grid0 := apply_disturbances store activeDisturbances grid0 in
  let l0 :=
    {| newOrganisms := st_organisms (hk_state hk); deadOrganisms := [];
       positionChanges := []; newOrganismsToAdd := [];
       deadOrganismsCounts := []; grid := grid0 |} in
  l <- foldM (step_organism environmentConfig) (st_organisms (hk_state hk)) l0 ;;
  ret (environment, store, l).

(** The test of [checkForExtinction]. *)
Definition restarting (hk : Hook) (table : Table) : bool :=
  (totalOrganisms table =? 0)%Z && autoRestartOnExtinction hk.

(** One call of [runCycle], the [setState] callback being applied at
    once to the current state. *)
Definition runCycle (hk : Hook) : M Hook :=
  match environmentRef hk, gridRef hk with
  | Some environment, Some grid0 =>
      p <- cycle_pass environment grid0 hk ;;
      let environment := fst (fst p) in
      let store := snd (fst p) in
      let environmentConfig := getConfig environment in
      let activeDisturbances := getActiveDisturbances environment store in
      let prevState := hk_state hk in
      let l := apply_changes (snd p) in
      let table := newOrganisms l in
      let producerCount := count (is_type TProducer) table in
      let herbivoreCount := count (is_guild Herbivore) table in
      let carnivoreCount := count (is_guild Carnivore) table in
      let decomposerCount := count (is_type TDecomposer) table in
      if restarting hk table then
        newConfig <- generateRandomConfig ;;
        ret (with_extinction hk (grid l) environment store (day environmentConfig) newConfig)
      else
        let totalEnergy0 := reduce_sum (fun a => energy (base a)) (map snd table) in
        let totalNutrients0 := grid_totalNutrients (grid l) in
        let biodiversity := compute_biodiversity table in
        let stability := compute_stabilityIndex (st_statistics prevState) in
        let newStatistics :=
          truncate_statistics
            (push_statistics (st_statistics prevState)
               (inject_Z producerCount) (inject_Z herbivoreCount)
               (inject_Z carnivoreCount) (inject_Z decomposerCount)
               biodiversity (temperature environmentConfig)
               (rainfall environmentConfig) totalEnergy0 totalNutrients0 stability) in
        ret (with_state hk (grid l) environment store
               {| st_day := day environmentConfig;
                  st_season := season environmentConfig;
                  st_environment := environmentConfig;
                  st_grid := GridCells;
                  st_organisms := table;
                  st_disturbance := hd_error activeDisturbances;
                  st_statistics := newStatistics;
                  st_paused := st_paused prevState;
                  st_cyclesPerSecond := st_cyclesPerSecond prevState |})
  | _, _ => ret hk
  end.

Definition step (hk : Hook) : M Hook := runCycle hk.

(** ** [saveSimulation] and [loadSimulation] *)

(** The date string comes from the clock and is a parameter here. *)
Definition saveSimulation (hk : Hook) (name date : string) : SavedSimulation :=
  {| saved_name := name; saved_date := date;
     saved_state := hk_state hk; saved_config := hk_config hk |}.

(** The array [state.grid] of a snapshot that was saved from this hook
    and is loaded into it: once a new [Grid] is installed, the old
    grid's array is no longer the current one. *)
Definition detach (old : option Grid) (r : CellsRef) : CellsRef :=
  match r, old with
  | GridCells, Some g => Snapshot (cells g)
  | GridCells, None => Snapshot []
  | Snapshot cs, _ => Snapshot cs
  end.

Definition with_grid_ref (st : SimulationState) (r : CellsRef) : SimulationState :=
  {| st_day := st_day st; st_season := st_season st;
     st_environment := st_environment st; st_grid := r;
     st_organisms := st_organisms st; st_disturbance := st_disturbance st;
     st_statistics := st_statistics st; st_paused := st_paused st;
     st_cyclesPerSecond := st_cyclesPerSecond st |}.

Definition loadSimulation (savedSimulation : SavedSimulation) (hk : Hook) : M Hook :=
  let st := saved_state savedSimulation in
  let environment :=
    Environment_new (full_config (st_environment st))
                    (Some (saved_config savedSimulation)) in
  grid0 <- Grid_new (width (st_environment st)) (height (st_environment st))
                    (getConfig environment) ;;
  let grid0 :=
    fold_left (fun g organism => snd (addOrganism g (base organism)))
              (map snd (st_organisms st)) grid0 in
  ret {| hk_config := saved_config savedSimulation;
         hk_state := with_grid_ref st (detach (gridRef hk) (st_grid st));
         gridRef := Some grid0;
         environmentRef := Some environment;
         hk_store := hk_store hk;
         autoRestartOnExtinction := autoRestartOnExtinction hk;
         extinctionCount := extinctionCount hk;
         lastExtinctionDay := lastExtinctionDay hk;
         scheduledRestart := scheduledRestart hk |}.

End Simulation.

(** * Vocabulary of the statements *)

(** Sample values, the notions of the specification in its own words,
    and the relations and invariants the statements below are phrased
    with. *)

Definition sample_organism : Organism :=
  {| id := "a"; type := TConsumer; position := {| px := 0; py := 0 |};
     energy := 200; size := 1; age := 0; maxAge := 100;
     reproductionEnergy := 150; reproductionRate := 0.2; movementCost := 1;
     isDead := false; species := "Herbivore" |}.

Definition constant_source (r : Q) : Src :=
  {| rnd := fun _ => r; uuids := fun _ => "u" |}.

(** The resource factor in the words of the specification. *)
Definition resourceFactor (cellNutrient cellWater : Q) : Q :=
  Qmin cellNutrient cellWater / 100.

Definition photosynthesisGain (this : Producer) (env : EnvironmentConfig)
    (cellNutrient cellWater : Q) : Q :=
  photosynthesisRate this * environmentFactor this env
  * resourceFactor cellNutrient cellWater * 12.

Definition sample_env : EnvironmentConfig :=
  {| temperature := 25; rainfall := 50; seasonalFactor := 1; nutrientLevel := 50;
     sunlightIntensity := 80; width := 1; height := 1; pollutionLevel := 10;
     season := Spring; day := 0%nat |}.

Definition sample_producer : Producer :=
  {| p_org :=
       {| id := "p"; type := TProducer; position := {| px := 0; py := 0 |};
          energy := 200; size := 1; age := 0; maxAge := 100;
          reproductionEnergy := 150; reproductionRate := 0.2; movementCost := 1;
          isDead := false; species := "Basic Plant" |};
     growthRate := 0.1; photosynthesisRate := 0.25; waterConsumption := 0.08 |}.

Definition sample_consumer : Consumer :=
  {| c_org := sample_organism; consumerType := Herbivore;
     huntingEfficiency := 1; metabolismRate := 0.08; diet := [] |}.

Definition sample_cell (l : list string) : Cell :=
  {| cell_x := 0; cell_y := 0; cell_height := 0; cell_nutrientLevel := 50;
     cell_waterLevel := 50; organisms := l; cell_temperature := 25;
     cell_pollutionLevel := 10 |}.

Definition sample_grid (l : list string) : Grid :=
  {| grid_width := 1; grid_height := 1; cells := [[sample_cell l]] |}.

Fixpoint updates (n : nat) (this : Environment) (h : Store) : M (Environment * Store) :=
  match n with
  | O => ret (this, h)
  | S n' => r <- Environment_update this h ;; updates n' (fst r) (snd r)
  end.

(** The addresses in the environment's list are distinct and allocated. *)
Definition env_wf (this : Environment) (h : Store) : Prop :=
  NoDup (disturbances this) /\
  Forall (fun a => (a < List.length h)%nat) (disturbances this).

(** The object at [a] is listed, active, [k] ticks old and lasts [d]. *)
Definition tracked (a k d : nat) (this : Environment) (h : Store) : Prop :=
  In a (disturbances this) /\
  exists dis, nth_error h a = Some dis /\ active dis = true /\
              current dis == nat_Q k /\ duration dis == nat_Q d.

Definition sample_area : Area := {| startX := 0; startY := 0; endX := 0; endY := 0 |}.

Definition no_config : PartialEnvironmentConfig :=
  {| oe_temperature := None; oe_rainfall := None; oe_seasonalFactor := None;
     oe_nutrientLevel := None; oe_sunlightIntensity := None; oe_width := None;
     oe_height := None; oe_pollutionLevel := None; oe_season := None;
     oe_day := None |}.

Fixpoint total (l : list Q) : Q :=
  match l with
  | [] => 0
  | x :: l' => x + total l'
  end.

Definition mean (l : list Q) : Q := total l / nat_Q (List.length l).

(** The sum of the absolute deviations from [m]. *)
Fixpoint total_abs_dev (m : Q) (l : list Q) : Q :=
  match l with
  | [] => 0
  | x :: l' => Qabs (x - m) + total_abs_dev m l'
  end.

(** What the source divides by the mean: the sum of the absolute
    deviations. *)
Definition variation (l : list Q) : Q := total_abs_dev (mean l) l / mean l.

Definition guarded_variation (l : list Q) : Q :=
  if Qlt_bool 0 (mean l) then variation l else 0.

(** What the specification divides by the mean: the mean absolute
    deviation. *)
Definition mad_variation (l : list Q) : Q :=
  (total_abs_dev (mean l) l / nat_Q (List.length l)) / mean l.

(** The stability index in the words of the specification. *)
Definition claimed_stabilityIndex (stats : SimulationStatistics) : Q :=
  if (List.length (producers stats) <? 10)%nat then 1
  else
    let P := slice_last 10 (producers stats) in
    let H := slice_last 10 (herbivores stats) in
    Qmax 0 (1 - (mad_variation P
                 + (if Qlt_bool 0 (mean H) then mad_variation H else 0)) / 4).

Definition series (p h : list Q) : SimulationStatistics :=
  {| producers := p; herbivores := h; carnivores := []; decomposers := [];
     biodiversityIndex := []; averageTemperature := []; averageRainfall := [];
     totalEnergy := []; totalNutrients := []; stabilityIndex := [] |}.

Definition ten_samples : SimulationStatistics :=
  series [10; 20; 10; 20; 10; 20; 10; 20; 10; 20] [5; 5; 5; 5; 5; 5; 5; 5; 5; 5].

Definition eleven_samples : SimulationStatistics :=
  series [10; 10; 20; 10; 20; 10; 20; 10; 20; 10; 20] [5; 5; 5; 5; 5; 5; 5; 5; 5; 5; 5].

(** An organism table without organisms of the kind [p], over a grid of
    the given dimensions. *)
Definition spawn_invariant (p : Attributes -> bool) (w h : Z) (acc : Table * Grid) : Prop :=
  count p (fst acc) = 0%Z /\ grid_width (snd acc) = w /\ grid_height (snd acc) = h.

Definition bad_config : SimulationConfig :=
  {| gridWidth := 0; gridHeight := -1; initialProducers := -1;
     initialHerbivores := -1; initialCarnivores := -1; initialDecomposers := -1;
     simulationSpeed := 1; initialTemperature := 25; initialRainfall := 30;
     enableEvolution := true; enableDisturbances := false |}.

(** The hook before the first call of [initialize]. *)
Definition fresh_hook (c : SimulationConfig) : Hook :=
  {| hk_config := c;
     hk_state :=
       {| st_day := 0; st_season := Spring;
          st_environment :=
            {| temperature := initialTemperature c; rainfall := initialRainfall c;
               seasonalFactor := 1.0; nutrientLevel := 50; sunlightIntensity := 80;
               width := gridWidth c; height := gridHeight c; pollutionLevel := 10;
               season := Spring; day := 0 |};
          st_grid := Snapshot [];
          st_organisms := [];
          st_disturbance := None;
          st_statistics := EMPTY_STATS;
          st_paused := true;
          st_cyclesPerSecond := simulationSpeed c |};
     gridRef := None; environmentRef := None; hk_store := [];
     autoRestartOnExtinction := true; extinctionCount := 0;
     lastExtinctionDay := 0; scheduledRestart := None |}.

(** The grid [loadSimulation] installs: fresh terrain drawn from the
    random source, then the organisms of the snapshot. *)
Definition reloaded_grid (Math_sqrt : Q -> Q) (st : SimulationState)
    (sc : SimulationConfig) (s : Src) : Grid :=
  fold_left (fun g organism => snd (addOrganism g (base organism)))
    (map snd (st_organisms st))
    (fst (Grid_new Math_sqrt (width (st_environment st)) (height (st_environment st))
            (getConfig (Environment_new (full_config (st_environment st)) (Some sc)))
            s)).

Definition burning : Disturbance :=
  {| d_type := Fire; intensity := 1; duration := 10; affectedArea := sample_area;
     current := 5; active := true |}.

Definition day5_config : EnvironmentConfig :=
  {| temperature := 25; rainfall := 50; seasonalFactor := 1; nutrientLevel := 50;
     sunlightIntensity := 80; width := 1; height := 1; pollutionLevel := 10;
     season := Spring; day := 5 |}.

(** A running simulation on its fifth day, with a fire that has five days
    left. *)
Definition day5_hook : Hook :=
  {| hk_config := DEFAULT_CONFIG;
     hk_state :=
       {| st_day := 5; st_season := Spring; st_environment := day5_config;
          st_grid := GridCells;
          st_organisms := [("p", Producer_getAttributes sample_producer)];
          st_disturbance := Some 0%nat; st_statistics := EMPTY_STATS;
          st_paused := true; st_cyclesPerSecond := 1 |};
     gridRef := Some (sample_grid ["p"]);
     environmentRef :=
       Some {| config := day5_config; env_day := 5; disturbances := [0%nat] |};
     hk_store := [burning];
     autoRestartOnExtinction := true; extinctionCount := 0;
     lastExtinctionDay := 0; scheduledRestart := None |}.

(** [s'] is what is left of [s] after some draws. *)
Definition later (s' s : Src) : Prop :=
  exists k, forall n, uuids s' n = uuids s (k + n)%nat.

(** A computation leaves a later source. *)
Definition forward {A : Type} (c : M A) : Prop := forall s, later (snd (c s)) s.

(** Every key is the non-empty identifier of its entry, and no key
    occurs twice. *)
Definition table_wf (t : Table) : Prop :=
  NoDup (map fst t) /\
  forall k a, In (k, a) t -> id (base a) = k /\ k <> "".

Definition cellN (cs : list (list Cell)) (i j : nat) : option Cell :=
  match nth_error cs j with
  | Some row => nth_error row i
  | None => None
  end.

(** Two grids with the same dimensions and, cell by cell, the same
    organism lists: what every change of terrain preserves. *)
Definition similar (g g' : Grid) : Prop :=
  grid_width g' = grid_width g /\ grid_height g' = grid_height g /\
  forall i j, option_map organisms (cellN (cells g') i j)
              = option_map organisms (cellN (cells g) i j).

Definition idsN (g : Grid) (i j : nat) : list string :=
  match cellN (cells g) i j with
  | Some c => organisms c
  | None => []
  end.

(** How often [X] is listed in the cell with column [i] and row [j]. *)
Definition occ (X : string) (g : Grid) (i j : nat) : nat :=
  count_occ string_dec (idsN g i j) X.

Definition at_index (p : Position) (i j : nat) : bool :=
  Nat.eqb (Z.to_nat (px p)) i && Nat.eqb (Z.to_nat (py p)) j.

(** [X] is listed once in the cell at [p], which is in the grid, and in
    no other cell. *)
Definition placed (X : string) (p : Position) (g : Grid) : Prop :=
  in_bounds g p = true /\
  forall i j, occ X g i j = if at_index p i j then 1%nat else 0%nat.

Definition nowhere (X : string) (g : Grid) : Prop := forall i j, occ X g i j = 0%nat.

(** Same dimensions and the same cells present. *)
Definition congruent (g g' : Grid) : Prop :=
  grid_width g' = grid_width g /\ grid_height g' = grid_height g /\
  forall i j, cellN (cells g') i j = None <-> cellN (cells g) i j = None.

(** Every position within the bounds has a cell. *)
Definition rectangular (g : Grid) : Prop :=
  forall p, in_bounds g p = true -> getCell g p <> None.

Section FrameVocabulary.

(** [R]: the identifiers the source of the cycle can hand out; [X]: the
    organism that is followed; [own]: whether the entry being visited is
    the one of [X]. *)
Variable R : string -> Prop.
Variable X : string.
Variable own : bool.

Definition draws_in (s : Src) : Prop := forall n, R (uuids s n).

(** A postcondition that holds whatever the source draws. *)
Definition post {A : Type} (c : M A) (Q : A -> Prop) : Prop :=
  forall s, draws_in s -> Q (fst (c s)).

Record rel (l l' : Loop) : Prop := {
  rel_wf : table_wf (newOrganisms l) -> table_wf (newOrganisms l');
  rel_add : forall o, In o (newOrganismsToAdd l') ->
                      In o (newOrganismsToAdd l) \/ R (id o);
  rel_grid : similar (grid l) (grid l');
  rel_dead : incl (deadOrganisms l) (deadOrganisms l');
  rel_moves : own = false ->
              lookup X (positionChanges l') = lookup X (positionChanges l);
  rel_table : own = false -> forall a,
              lookup X (newOrganisms l) = Some a -> isDead (base a) = true ->
              lookup X (newOrganisms l') = Some a;
  rel_nodup : NoDup (map fst (positionChanges l)) ->
              NoDup (map fst (positionChanges l'))
}.

(** The two kinds of move share this description: nothing happens, or
    the organism steps to a position within the configured bounds and
    the step is queued under its identifier. *)
Definition move_outcome (env : EnvironmentConfig) (o : Organism) (l : Loop)
    (res : Organism * Loop) : Prop :=
  rel l (snd res) /\
  id (fst res) = id o /\ isDead (fst res) = isDead o /\
  newOrganisms (snd res) = newOrganisms l /\
  deadOrganisms (snd res) = deadOrganisms l /\
  grid (snd res) = grid l /\
  ((fst res = o /\ positionChanges (snd res) = positionChanges l) \/
   (exists q, in_config env q = true /\ fst res = move o q /\
              positionChanges (snd res)
              = assign (id o) (position o, q) (positionChanges l))).

Definition eater_outcome (consumer : Consumer) (l : Loop) (res : Consumer * Loop) : Prop :=
  rel l (snd res) /\
  id (c_org (fst res)) = id (c_org consumer) /\
  isDead (c_org (fst res)) = isDead (c_org consumer) /\
  position (c_org (fst res)) = position (c_org consumer) /\
  deadOrganisms (snd res) = deadOrganisms l /\
  positionChanges (snd res) = positionChanges l /\
  grid (snd res) = grid l.

Definition feeder_outcome (decomposer : Decomposer) (l : Loop) (res : Decomposer * Loop)
  : Prop :=
  rel l (snd res) /\
  id (d_org (fst res)) = id (d_org decomposer) /\
  isDead (d_org (fst res)) = isDead (d_org decomposer) /\
  position (d_org (fst res)) = position (d_org decomposer) /\
  newOrganisms (snd res) = newOrganisms l /\
  positionChanges (snd res) = positionChanges l.

End FrameVocabulary.

(** The next base update kills the instance built from these stored
    attributes: it reaches its maximal age or has no energy left (the
    constructor first replaces a stored 0 by its default). *)
Definition doomed (o : Organism) : bool :=
  Qle_bool (JS.or_num (Some (maxAge o)) 100) (JS.or_num (Some (age o)) 0 + 1)
  || Qle_bool (JS.or_num (Some (energy o)) 100) 0.

Section VisitVocabulary.

Variable env : EnvironmentConfig.
Variable key : string.
Variable p0 : Position.
Variable l0 : Loop.

(** The instance [o] of the visited organism is dead, and either it
    stands at [p0] with no step queued since the visit began, or it
    stands at a position within the configured bounds with the step from
    [p0] queued. *)
Definition carried (o : Organism) (l : Loop) : Prop :=
  id o = key /\ isDead o = true /\
  ((position o = p0 /\
    lookup key (positionChanges l) = lookup key (positionChanges l0)) \/
   (exists q, in_config env q = true /\ position o = q /\
              lookup key (positionChanges l) = Some (p0, q))).

(** The table holds such an instance under [key]. *)
Definition visited (l : Loop) : Prop :=
  exists a1, lookup key (newOrganisms l) = Some a1 /\ carried (base a1) l.

End VisitVocabulary.

(** What a queued change that concerns another organism leaves as it is
    for [X]. *)
Record keeps (X : string) (l l' : Loop) : Prop := {
  keeps_table : lookup X (newOrganisms l') = lookup X (newOrganisms l);
  keeps_occ : forall i j, occ X (grid l') i j = occ X (grid l) i j;
  keeps_cong : congruent (grid l) (grid l');
  keeps_wf : table_wf (newOrganisms l) -> table_wf (newOrganisms l');
  keeps_moves : positionChanges l' = positionChanges l;
  keeps_add : newOrganismsToAdd l' = newOrganismsToAdd l;
  keeps_dead : deadOrganisms l' = deadOrganisms l
}.

(** An identifier the source may hand out: not [X], and not empty. *)
Definition fresh (X : string) (i : string) : Prop := i <> X /\ i <> "".

Definition initial_loop (table : Table) (g : Grid) : Loop :=
  {| newOrganisms := table; deadOrganisms := []; positionChanges := [];
     newOrganismsToAdd := []; deadOrganismsCounts := []; grid := g |}.

(** [o] dies in its next update: it reaches its maximum age or its energy
    is exhausted (as the constructors read these fields). *)
Definition dies_in_update (o : Organism) : Prop :=
  isDead o = false /\ doomed o = true.

Definition dying_producer : Attributes :=
  {| base :=
       {| id := "p"; type := TProducer; position := {| px := 0; py := 0 |};
          energy := 100; size := 1; age := 0; maxAge := 1;
          reproductionEnergy := 150; reproductionRate := 0.2; movementCost := 1;
          isDead := false; species := "Basic Plant" |};
     extras := no_extras |}.

Definition tiny_environment : Environment :=
  Environment_new
    {| oe_temperature := None; oe_rainfall := None; oe_seasonalFactor := None;
       oe_nutrientLevel := None; oe_sunlightIntensity := None; oe_width := Some 1%Z;
       oe_height := Some 1%Z; oe_pollutionLevel := None; oe_season := None;
       oe_day := None |} None.

(** The scenario of C6: a 1x1 grid holding one producer with [maxAge] 1. *)
Definition tiny_hook (auto : bool) : Hook :=
  {| hk_config := DEFAULT_CONFIG;
     hk_state :=
       {| st_day := 0; st_season := Spring; st_environment := getConfig tiny_environment;
          st_grid := GridCells; st_organisms := [("p", dying_producer)];
          st_disturbance := None; st_statistics := EMPTY_STATS; st_paused := true;
          st_cyclesPerSecond := 1 |};
     gridRef := Some (sample_grid ["p"]);
     environmentRef := Some tiny_environment; hk_store := [];
     autoRestartOnExtinction := auto; extinctionCount := 0; lastExtinctionDay := 0;
     scheduledRestart := None |}.

(** * Properties *)

(** ** Comparisons on rationals *)

Lemma Qlt_bool_iff (a b : Q) : Qlt_bool a b = true <-> a < b.
Proof.
  unfold Qlt_bool. rewrite negb_true_iff.
  destruct (Qle_bool b a) eqn:E.
  - apply Qle_bool_iff in E. split; [discriminate | intro H; exfalso; lra].
  - split; [intros _ | reflexivity].
    destruct (Qlt_le_dec a b) as [H | H]; [exact H |].
    apply Qle_bool_iff in H. congruence.
Qed.

Lemma Qlt_bool_false_iff (a b : Q) : Qlt_bool a b = false <-> b <= a.
Proof.
  unfold Qlt_bool. rewrite negb_false_iff. apply Qle_bool_iff.
Qed.

Lemma Qle_bool_false_iff (a b : Q) : Qle_bool a b = false <-> b < a.
Proof.
  rewrite <- Qlt_bool_iff. unfold Qlt_bool.
  destruct (Qle_bool a b); simpl; split; congruence.
Qed.

Lemma Qeq_bool_false_iff (a b : Q) : Qeq_bool a b = false <-> ~ a == b.
Proof.
  split.
  - intros H E. apply Qeq_bool_iff in E. congruence.
  - intro H. destruct (Qeq_bool a b) eqn:E; [| reflexivity].
    apply Qeq_bool_iff in E. contradiction.
Qed.

Lemma or_num_nonzero (q d : Q) : ~ q == 0 -> JS.or_num (Some q) d = q.
Proof.
  intro H. unfold JS.or_num. apply Qeq_bool_false_iff in H. now rewrite H.
Qed.

Lemma or_str_nonempty (s d : string) : s <> "" -> JS.or_str (Some s) d = s.
Proof.
  destruct s; [congruence | reflexivity].
Qed.

(** ** Organisms *)

(** The constructor never leaves the species label empty, and no method
    assigns to it. *)
Lemma Organism_new_species (a : PartialAttributes) (s : Src) :
  species (fst (Organism_new a s)) <> "".
Proof.
  unfold Organism_new, bind, ret. cbn.
  destruct (o_species a) as [[| c t] |]; cbn; congruence.
Qed.

(** C4. For an organism with energy [E > 0], [reproduce()] leaves the
    parent with energy [E/2] and returns an offspring with energy [E/2],
    of the parent's type and species; the two halves add up to [E]. *)
Theorem reproduce_splits_energy (this : Organism) (s : Src) :
  0 < energy this ->
  species this <> "" ->
  let offspring := fst (fst (reproduce this s)) in
  let parent := snd (fst (reproduce this s)) in
  energy parent == energy this / 2 /\
  energy offspring == energy this / 2 /\
  type offspring = type this /\
  species offspring = species this /\
  energy parent + energy offspring == energy this.
Proof.
  intros HE Hsp. cbn -[JS.or_num JS.or_str Qmult Qdiv Qplus].
  assert (Hne : ~ energy this * 0.5 == 0) by lra.
  rewrite (or_num_nonzero _ _ Hne), (or_str_nonempty _ _ Hsp).
  repeat split; try reflexivity; try lra; field.
Qed.

Lemma reproduce_splits_energy_witness :
  let offspring := fst (fst (reproduce sample_organism (constant_source 0.5))) in
  let parent := snd (fst (reproduce sample_organism (constant_source 0.5))) in
  energy parent == 100 /\ energy offspring == 100.
Proof.
  pose proof (reproduce_splits_energy sample_organism (constant_source 0.5)) as H.
  cbv zeta in H.
  destruct H as (Hp & Ho & _); [reflexivity | discriminate |].
  split; [rewrite Hp | rewrite Ho]; reflexivity.
Defined.

Lemma Organism_update_size (o : Organism) : size (Organism_update o) = size o.
Proof.
  unfold Organism_update.
  destruct (Qle_bool _ _); [reflexivity |].
  destruct (Qle_bool _ _); reflexivity.
Qed.

Lemma Organism_update_energy (o : Organism) : energy (Organism_update o) = energy o.
Proof.
  unfold Organism_update.
  destruct (Qle_bool _ _); [reflexivity |].
  destruct (Qle_bool _ _); reflexivity.
Qed.

(** C10. The [Producer] constructor passes [movementCost: 0] to the base
    constructor, whose [attributes.movementCost || 1] replaces the falsy
    0 by the default: every producer is built with movement cost 1, and
    [move] charges it one unit of energy. *)
Theorem Producer_new_movementCost (a : PartialAttributes) (s : Src) (pos : Position) :
  let p := p_org (fst (Producer_new a s)) in
  movementCost p = 1 /\
  position (move p pos) = pos /\
  energy (move p pos) == energy p - 1.
Proof.
  cbn. repeat split; reflexivity.
Qed.

(** ** Producer growth *)

Lemma resourceFactor_eq (n w : Q) : Qmin (n / 100) (w / 100) == resourceFactor n w.
Proof.
  unfold resourceFactor.
  destruct (Q.min_spec n w) as [[Hlt Hm] | [Hle Hm]]; rewrite Hm.
  - apply Q.min_l. apply Qmult_le_compat_r; [lra | discriminate].
  - apply Q.min_r. apply Qmult_le_compat_r; [lra | discriminate].
Qed.

(** C3, as stated, fails: a producer with growth rate 0.1 that meets both
    thresholds pays 0.8, not 8. *)
Lemma growth_cost_counterexample :
  let this' := Producer_update sample_producer sample_env 100 100 in
  let E := energy (p_org sample_producer)
           + photosynthesisGain sample_producer sample_env 100 100 in
  isDead (p_org this') = false /\
  110 < E /\ 0.4 < resourceFactor 100 100 /\
  energy (p_org this') == E - 0.8 /\
  ~ energy (p_org this') == E - 8.
Proof.
  vm_compute. repeat split; congruence.
Qed.

(** C3, amended. For a producer that survives the base update, with [E]
    its energy after the photosynthesis gain and [rf] the resource
    factor: if [E > 110] and [rf > 0.4] the size grows by
    [growthRate * rf] and the energy drops by [8 * growthRate]; otherwise
    the size is unchanged and nothing is deducted. *)
Theorem Producer_update_growth (this : Producer) (env : EnvironmentConfig) (n w : Q) :
  let this' := Producer_update this env n w in
  let rf := resourceFactor n w in
  let E := energy (p_org this) + photosynthesisGain this env n w in
  isDead (Organism_update (p_org this)) = false ->
  (110 < E /\ 0.4 < rf ->
     size (p_org this') == size (p_org this) + growthRate this * rf /\
     energy (p_org this') == E - 8 * growthRate this) /\
  (~ (110 < E /\ 0.4 < rf) ->
     size (p_org this') = size (p_org this) /\
     energy (p_org this') == E).
Proof.
  intros this' rf E Halive.
  subst this' rf E. unfold Producer_update, photosynthesisGain.
  rewrite Halive.
  pose proof (resourceFactor_eq n w) as Hrf.
  set (rf0 := Qmin (n / 100) (w / 100)) in *.
  cbn [energy set_energy].
  rewrite Organism_update_energy.
  set (g0 := photosynthesisRate this * environmentFactor this env * rf0 * 12).
  assert (Hg : g0 == photosynthesisRate this * environmentFactor this env
                      * resourceFactor n w * 12).
  { unfold g0. rewrite Hrf. reflexivity. }
  destruct (Qlt_bool 110 (energy (p_org this) + g0)) eqn:HE;
    destruct (Qlt_bool 0.4 rf0) eqn:HR; cbn [andb];
    cbn [p_org Producer_with_org size energy set_size set_energy];
    rewrite ?Organism_update_size;
    rewrite <- Hg; rewrite <- Hrf.
  - apply Qlt_bool_iff in HE, HR.
    split; [intros _ | intros H; exfalso; apply H; split; assumption].
    split; [reflexivity | ring].
  - apply Qlt_bool_false_iff in HR.
    split; [intros [_ H]; exfalso; lra | intros _; split; reflexivity].
  - apply Qlt_bool_false_iff in HE.
    split; [intros [H _]; exfalso; lra | intros _; split; reflexivity].
  - apply Qlt_bool_false_iff in HE.
    split; [intros [H _]; exfalso; lra | intros _; split; reflexivity].
Qed.

Lemma Producer_update_growth_witness :
  let this' := Producer_update sample_producer sample_env 100 100 in
  size (p_org this') == 1.1 /\ energy (p_org this') == 201.36.
Proof.
  pose proof (Producer_update_growth sample_producer sample_env 100 100) as H.
  cbv zeta in H.
  destruct H as [H _]; [reflexivity |].
  destruct H as [Hs He]; [split; reflexivity |].
  split; [rewrite Hs | rewrite He]; reflexivity.
Defined.

(** ** Hunting *)

(** With positive sizes the chance computed by the source is the rational
    [huntingEfficiency / (prey.size / self.size + 0.3)]. *)
Lemma huntingChance_positive_sizes (this : Consumer) (prey : Organism) :
  0 < size (c_org this) -> 0 < size prey ->
  huntingChance this prey
  = JS.Fin (huntingEfficiency this / (size prey / size (c_org this) + 0.3)).
Proof.
  intros Hs Hp. unfold huntingChance. unfold JS.div at 1.
  assert (H1 : Qeq_bool (size (c_org this)) 0 = false)
    by (apply Qeq_bool_false_iff; lra).
  rewrite H1. cbn [JS.add JS.div_by]. unfold JS.div.
  assert (Hq : 0 < size prey / size (c_org this)).
  { apply Qlt_shift_div_l; lra. }
  assert (H2 : Qeq_bool (size prey / size (c_org this) + 0.3) 0 = false)
    by (apply Qeq_bool_false_iff; lra).
  now rewrite H2.
Qed.

(** C5. [eat(prey)] with [r] the number the next [Math.random()] call
    returns.  If either party is dead the call returns 0 and changes
    neither organism.  Otherwise (sizes being positive) the hunt succeeds
    exactly when [r < huntingEfficiency / (prey.size / self.size + 0.3)];
    on success the consumer gains 0.8 times the prey's energy, the prey
    is marked dead and the gain is returned; on failure the consumer
    loses 1.5 times its movement cost and 0 is returned. *)
Theorem eat_spec (this : Consumer) (prey : Organism) (s : Src) :
  let r := rnd s 0%nat in
  let gain := fst (fst (fst (eat this prey s))) in
  let this' := snd (fst (fst (eat this prey s))) in
  let prey' := snd (fst (eat this prey s)) in
  let chance := huntingEfficiency this / (size prey / size (c_org this) + 0.3) in
  (isDead (c_org this) = true \/ isDead prey = true ->
     gain = 0 /\ this' = this /\ prey' = prey) /\
  (isDead (c_org this) = false -> isDead prey = false ->
   0 < size (c_org this) -> 0 < size prey ->
     (r < chance ->
        energy (c_org this') == energy (c_org this) + 0.8 * energy prey /\
        prey' = die prey /\ isDead prey' = true /\
        gain == 0.8 * energy prey) /\
     (~ r < chance ->
        energy (c_org this') == energy (c_org this) - 1.5 * movementCost (c_org this) /\
        prey' = prey /\
        gain = 0)).
Proof.
  intros r gain this' prey' chance. subst gain this' prey'.
  unfold eat. split.
  - intros [H | H]; rewrite H; rewrite ?orb_true_r; cbn; repeat split.
  - intros Ht Hp Hst Hsp. rewrite Ht, Hp. cbn [orb].
    unfold bind, Math_random, ret. cbn [fst snd].
    rewrite (huntingChance_positive_sizes this prey Hst Hsp).
    cbn [JS.ltb]. fold r. fold chance.
    destruct (Qlt_bool r chance) eqn:E.
    + apply Qlt_bool_iff in E. cbn.
      split; [intros _ | intros H; contradiction].
      repeat split; ring.
    + apply Qlt_bool_false_iff in E. cbn.
      split; [intros H; exfalso; lra | intros _].
      repeat split; ring.
Qed.

Lemma eat_spec_witness :
  let res := fst (eat sample_consumer (p_org sample_producer) (constant_source 0.5)) in
  energy (c_org (snd (fst res))) == 360 /\ isDead (snd res) = true.
Proof.
  pose proof (eat_spec sample_consumer (p_org sample_producer) (constant_source 0.5)) as H.
  cbv zeta in H. destruct H as [_ H].
  destruct H as [H _]; try reflexivity.
  destruct H as (He & _ & Hd & _); [reflexivity |].
  split; [rewrite He; reflexivity | exact Hd].
Defined.

(** ** The grid *)

(** C8. A move whose destination lies outside the grid fails and leaves
    the grid, hence every cell's organism list, as it was. *)
Theorem moveOrganism_out_of_bounds (g : Grid) (organismId : string)
    (oldPosition newPosition : Position) :
  ~ (0 <= px newPosition < grid_width g /\ 0 <= py newPosition < grid_height g)%Z ->
  moveOrganism g organismId oldPosition newPosition = (false, g).
Proof.
  intro Hout. unfold moveOrganism.
  destruct ((px newPosition <? 0)%Z || (grid_width g <=? px newPosition)%Z ||
            (py newPosition <? 0)%Z || (grid_height g <=? py newPosition)%Z) eqn:E;
    [reflexivity |].
  exfalso. apply Hout.
  repeat (apply orb_false_iff in E; destruct E as [E ?]).
  repeat match goal with
         | H : (_ <? _)%Z = false |- _ => apply Z.ltb_ge in H
         | H : (_ <=? _)%Z = false |- _ => apply Z.leb_gt in H
         end.
  lia.
Qed.

Lemma moveOrganism_out_of_bounds_witness :
  moveOrganism (sample_grid ["p"]) "p" {| px := 0; py := 0 |} {| px := 1; py := 0 |}
  = (false, sample_grid ["p"]).
Proof.
  apply moveOrganism_out_of_bounds. cbn. lia.
Defined.

(** ** Disturbances *)

Lemma update_nth_length {A : Type} (f : A -> A) (l : list A) (n : nat) :
  List.length (update_nth n f l) = List.length l.
Proof.
  revert n. induction l as [| x l IH]; intros [| n]; simpl; auto.
Qed.

Lemma update_nth_same {A : Type} (f : A -> A) (l : list A) (n : nat) (x : A) :
  nth_error l n = Some x -> nth_error (update_nth n f l) n = Some (f x).
Proof.
  revert n. induction l as [| y l IH]; intros [| n]; simpl; try discriminate.
  - intros [= ->]. reflexivity.
  - apply IH.
Qed.

Lemma update_nth_other {A : Type} (f : A -> A) (l : list A) (n m : nat) :
  n <> m -> nth_error (update_nth n f l) m = nth_error l m.
Proof.
  revert n m. induction l as [| y l IH]; intros [| n] [| m] H; simpl; auto.
  congruence.
Qed.

Lemma update_nth_none {A : Type} (f : A -> A) (l : list A) (n : nat) :
  nth_error l n = None -> update_nth n f l = l.
Proof.
  revert n. induction l as [| y l IH]; intros [| n]; simpl; try discriminate; auto.
  intro H. now rewrite IH.
Qed.

Lemma nat_Q_S (k : nat) : nat_Q (S k) == nat_Q k + 1.
Proof.
  unfold nat_Q. rewrite Nat2Z.inj_succ, <- Z.add_1_r, inject_Z_plus. reflexivity.
Qed.

Lemma nat_Q_le (a b : nat) : nat_Q a <= nat_Q b <-> (a <= b)%nat.
Proof.
  unfold nat_Q. rewrite <- Zle_Qle. lia.
Qed.

(** What one pass of the filter does to a listed, active object and to
    every object that is not listed. *)
Lemma updateDisturbances_filter_spec (l : list nat) :
  forall (h : Store), NoDup l ->
  let kept := fst (updateDisturbances_filter l h) in
  let h' := snd (updateDisturbances_filter l h) in
  List.length h' = List.length h /\
  incl kept l /\ NoDup kept /\
  (forall a, ~ In a l -> nth_error h' a = nth_error h a) /\
  (forall a d, In a l -> nth_error h a = Some d -> active d = true ->
     if Qle_bool (duration d) (current d + 1)
     then ~ In a kept /\ nth_error h' a = Some (deactivate (age_disturbance d))
     else In a kept /\ nth_error h' a = Some (age_disturbance d)).
Proof.
  induction l as [| a0 l IH]; intros h Hnd.
  - cbn. repeat split; auto using incl_nil_l, NoDup_nil. intros a d [].
  - inversion Hnd as [| ? ? Hnotin Hnd']; subst.
    cbn [updateDisturbances_filter].
    destruct (nth_error h a0) as [d0 |] eqn:E0.
    2:{ specialize (IH h Hnd'). cbv zeta in IH.
        destruct IH as (Hlen & Hincl & Hndk & Hout & Hin).
        cbv zeta. repeat split; auto.
        - now apply incl_tl.
        - intros a Ha. apply Hout. intro; apply Ha; now right.
        - intros a d [-> | Ha] Hd Hact; [congruence |]. now apply Hin. }
    destruct (active d0) eqn:Eact; cbn [negb].
    2:{ specialize (IH h Hnd'). cbv zeta in IH.
        destruct IH as (Hlen & Hincl & Hndk & Hout & Hin).
        cbv zeta. repeat split; auto.
        - now apply incl_tl.
        - intros a Ha. apply Hout. intro; apply Ha; now right.
        - intros a d [-> | Ha] Hd Hact; [congruence |]. now apply Hin. }
    destruct (Qle_bool (duration d0) (current d0 + 1)) eqn:Eend.
    + set (h1 := update_nth a0 deactivate (update_nth a0 age_disturbance h)).
      specialize (IH h1 Hnd'). cbv zeta in IH.
      destruct IH as (Hlen & Hincl & Hndk & Hout & Hin).
      assert (Hh1 : forall a, a <> a0 -> nth_error h1 a = nth_error h a).
      { intros a Ha. unfold h1. rewrite !update_nth_other by congruence. reflexivity. }
      cbv zeta. repeat split; auto.
      * rewrite Hlen. unfold h1. now rewrite !update_nth_length.
      * now apply incl_tl.
      * intros a Ha. rewrite Hout by (intro; apply Ha; now right).
        apply Hh1. intros ->. apply Ha. now left.
      * intros a d [-> | Ha] Hd Hact.
        -- assert (d = d0) by congruence. subst d. rewrite Eend. split.
           ++ intro Hk. apply Hnotin. now apply Hincl.
           ++ rewrite Hout by assumption. unfold h1.
              apply update_nth_same. now apply update_nth_same.
        -- assert (a <> a0) by (intros ->; contradiction).
           apply Hin; auto. now rewrite Hh1.
    + set (h1 := update_nth a0 age_disturbance h).
      specialize (IH h1 Hnd'). cbv zeta in IH.
      cbv zeta. cbn [fst snd].
      destruct IH as (Hlen & Hincl & Hndk & Hout & Hin).
      assert (Hh1 : forall a, a <> a0 -> nth_error h1 a = nth_error h a).
      { intros a Ha. unfold h1. rewrite update_nth_other by congruence. reflexivity. }
      repeat split; auto.
      * rewrite Hlen. unfold h1. now rewrite update_nth_length.
      * intros x [-> | Hx]; [now left | right; now apply Hincl].
      * constructor; auto.
      * intros a Ha. rewrite Hout by (intro; apply Ha; now right).
        apply Hh1. intros ->. apply Ha. now left.
      * intros a d [-> | Ha] Hd Hact.
        -- assert (d = d0) by congruence. subst d. rewrite Eend. split.
           ++ now left.
           ++ rewrite Hout by assumption. unfold h1. now apply update_nth_same.
        -- assert (a <> a0) by (intros ->; contradiction).
           specialize (Hin a d Ha). rewrite Hh1 in Hin by assumption.
           specialize (Hin Hd Hact).
           destruct (Qle_bool (duration d) (current d + 1)).
           ++ destruct Hin as [Hn Hv]. split; [| exact Hv].
              intros [-> | Hk]; [congruence | contradiction].
           ++ destruct Hin as [Hn Hv]. split; [now right | exact Hv].
Qed.

Lemma updateSeasonalFactors_disturbances (this : Environment) (s : Src) :
  disturbances (fst (updateSeasonalFactors this s)) = disturbances this.
Proof. reflexivity. Qed.

(** Adding a disturbance allocates a fresh address and leaves the objects
    already in the store alone. *)
Lemma addDisturbance_shape (this : Environment) (h : Store) (type : DisturbanceType)
    (i d : Q) (area : Area) :
  let r := addDisturbance this h type i d area in
  fst (fst r) = List.length h /\
  disturbances (snd (fst r)) = (disturbances this ++ [List.length h])%list /\
  snd r = (h ++ [ {| d_type := type; intensity := i; duration := d;
                     affectedArea := area; current := 0; active := true |} ])%list.
Proof.
  unfold addDisturbance. cbn. repeat split.
Qed.

Lemma env_wf_add (this this' : Environment) (h : Store) (x : Disturbance) :
  env_wf this h ->
  disturbances this' = (disturbances this ++ [List.length h])%list ->
  env_wf this' (h ++ [x]).
Proof.
  intros [Hnd Hall] Hl. unfold env_wf. rewrite Hl. split.
  - apply NoDup_app; [exact Hnd | repeat constructor; intros [] | ].
    intros a Ha [<- | []]. rewrite Forall_forall in Hall.
    specialize (Hall _ Ha). lia.
  - rewrite length_app. cbn. apply Forall_app. split.
    + eapply Forall_impl; [| exact Hall]. cbn. intros; lia.
    + repeat constructor. lia.
Qed.

Lemma tracked_add (a k d : nat) (this this' : Environment) (h : Store) (x : Disturbance) :
  tracked a k d this h ->
  disturbances this' = (disturbances this ++ [List.length h])%list ->
  tracked a k d this' (h ++ [x]).
Proof.
  intros (Hin & dis & Hd & Hrest) Hl. unfold tracked. rewrite Hl. split.
  - apply in_or_app. now left.
  - exists dis. split; [| exact Hrest].
    rewrite nth_error_app1; [exact Hd |].
    apply nth_error_Some. congruence.
Qed.

(** A spontaneous disturbance either does not happen or is appended. *)
Lemma generateRandomDisturbance_shape (this : Environment) (h : Store) (s : Src) :
  let r := fst (generateRandomDisturbance this h s) in
  (r = (this, h)) \/
  (exists x, disturbances (fst r) = (disturbances this ++ [List.length h])%list /\
             snd r = (h ++ [x])%list).
Proof.
  unfold generateRandomDisturbance, bind, Math_random, ret. cbn [fst snd].
  match goal with |- context [pick ?r ?l] => destruct (pick r l) as [ty |] end.
  - right.
    match goal with
    | |- context [addDisturbance ?t ?h0 ?ty0 ?i ?d ?ar] =>
        pose proof (addDisturbance_shape t h0 ty0 i d ar) as Hs
    end.
    cbv zeta in Hs. destruct Hs as (_ & Hl & Hh).
    eexists. split; [exact Hl | exact Hh].
  - left. reflexivity.
Qed.

(** One update of the environment, seen from a tracked disturbance. *)
Lemma Environment_update_tracked (this : Environment) (h : Store) (s : Src) (a k d : nat) :
  env_wf this h -> tracked a k d this h ->
  let r := fst (Environment_update this h s) in
  ((S k < d)%nat -> tracked a (S k) d (fst r) (snd r) /\ env_wf (fst r) (snd r)) /\
  ((d <= S k)%nat ->
     ~ In a (getActiveDisturbances (fst r) (snd r))).
Proof.
  intros [Hnd Hall] (Hin & dis & Hd & Hact & Hcur & Hdur).
  unfold Environment_update, bind, ret. cbn [fst snd].
  unfold updateDisturbances. cbn [fst snd].
  rewrite !updateSeasonalFactors_disturbances. cbn [disturbances].
  pose proof (updateDisturbances_filter_spec (disturbances this) h Hnd) as Hspec.
  cbv zeta in Hspec.
  set (kept := fst (updateDisturbances_filter (disturbances this) h)) in *.
  set (h' := snd (updateDisturbances_filter (disturbances this) h)) in *.
  destruct Hspec as (Hlen & Hincl & Hndk & Hout & Hspec).
  specialize (Hspec a dis Hin Hd Hact).
  set (e1 := set_disturbances _ kept).
  assert (Hwf1 : env_wf e1 h').
  { split; [exact Hndk |]. cbn. rewrite Forall_forall in *.
    intros x Hx. rewrite Hlen. apply Hall. now apply Hincl. }
  assert (Hdecide : Qle_bool (duration dis) (current dis + 1) = true <-> (d <= S k)%nat).
  { rewrite Qle_bool_iff, Hdur, Hcur, <- nat_Q_S. apply nat_Q_le. }
  match goal with
  | |- context [Qlt_bool ?r 0.0005] => destruct (Qlt_bool r 0.0005)
  end.
  - match goal with
    | |- context [generateRandomDisturbance ?e ?h0 ?s0] =>
        pose proof (generateRandomDisturbance_shape e h0 s0) as Hg;
        cbv zeta in Hg;
        destruct (fst (generateRandomDisturbance e h0 s0)) as [e2 h2] eqn:Eg
    end.
    cbn [fst snd] in *.
    destruct (Qle_bool (duration dis) (current dis + 1)) eqn:Eend.
    + destruct Hspec as [Hnk Hv]. split; [intro Hlt; exfalso; assert (d <= S k)%nat by (now apply Hdecide); lia |].
      intros _ Hactive. unfold getActiveDisturbances in Hactive.
      apply filter_In in Hactive. destruct Hactive as [Hl Ha].
      destruct Hg as [Hg | (x & Hl2 & Hh2)].
      * injection Hg as He2 Hh2. rewrite He2 in Hl. contradiction.
      * rewrite Hh2 in Ha. rewrite Hl2 in Hl. apply in_app_or in Hl. destruct Hl as [Hl | [<- | []]].
        -- contradiction.
        -- assert (Hlt : (List.length h' < List.length h')%nat)
             by (apply nth_error_Some; rewrite Hv; discriminate).
           lia.
    + destruct Hspec as [Hk Hv].
      split; [intros Hlt | intro Hge; apply Hdecide in Hge; discriminate].
      assert (Ht1 : tracked a (S k) d e1 h').
      { split; [exact Hk |]. exists (age_disturbance dis).
        repeat split; auto. cbn. rewrite Hcur, nat_Q_S. reflexivity. }
      destruct Hg as [Hg | (x & Hl2 & Hh2)].
      * injection Hg as He2 Hh2. rewrite He2, Hh2. now split.
      * rewrite Hh2. split; [eapply tracked_add | eapply env_wf_add]; eauto.
  - cbn [fst snd].
    destruct (Qle_bool (duration dis) (current dis + 1)) eqn:Eend.
    + destruct Hspec as [Hnk Hv]. split; [intro Hlt; exfalso; assert (d <= S k)%nat by (now apply Hdecide); lia |].
      intros _ Hactive. unfold getActiveDisturbances in Hactive.
      apply filter_In in Hactive. destruct Hactive as [Hl _]. contradiction.
    + destruct Hspec as [Hk Hv].
      split; [intros Hlt | intro Hge; apply Hdecide in Hge; discriminate].
      split; [| exact Hwf1].
      split; [exact Hk |]. exists (age_disturbance dis).
      repeat split; auto. cbn. rewrite Hcur, nat_Q_S. reflexivity.
Qed.

Lemma tracked_active (a k d : nat) (this : Environment) (h : Store) :
  tracked a k d this h -> In a (getActiveDisturbances this h).
Proof.
  intros (Hin & dis & Hd & Hact & _). unfold getActiveDisturbances.
  apply filter_In. split; [exact Hin | now rewrite Hd].
Qed.

Lemma updates_tracked (k : nat) :
  forall (this : Environment) (h : Store) (s : Src) (a j d : nat),
  env_wf this h -> tracked a j d this h -> (j + k < d)%nat ->
  let r := fst (updates k this h s) in
  tracked a (j + k) d (fst r) (snd r) /\ env_wf (fst r) (snd r).
Proof.
  induction k as [| k IH]; intros this h s a j d Hwf Ht Hlt.
  - cbn. rewrite Nat.add_0_r. now split.
  - cbn [updates]. unfold bind. cbv zeta.
    destruct (Environment_update_tracked this h s a j d Hwf Ht) as [Hstep _].
    destruct Hstep as [Ht1 Hwf1]; [lia |].
    replace (j + S k)%nat with (S j + k)%nat by lia.
    apply IH; auto. lia.
Qed.

Lemma updates_expire (k : nat) :
  forall (this : Environment) (h : Store) (s : Src) (a j d : nat),
  env_wf this h -> tracked a j d this h -> (j + S k = d)%nat ->
  let r := fst (updates (S k) this h s) in
  ~ In a (getActiveDisturbances (fst r) (snd r)).
Proof.
  induction k as [| k IH]; intros this h s a j d Hwf Ht Hend.
  - cbn [updates]. unfold bind, ret. cbv zeta. cbn [fst snd].
    destruct (Environment_update_tracked this h s a j d Hwf Ht) as [_ Hstep].
    apply Hstep. lia.
  - change (updates (S (S k)) this h s)
      with (updates (S k) (fst (fst (Environment_update this h s)))
                          (snd (fst (Environment_update this h s)))
                          (snd (Environment_update this h s))).
    destruct (Environment_update_tracked this h s a j d Hwf Ht) as [Hstep _].
    destruct Hstep as [Ht1 Hwf1]; [lia |].
    apply (IH _ _ _ a (S j) d); auto. lia.
Qed.

(** A new environment has no disturbances, so it is well formed over any
    store. *)
Lemma Environment_new_wf (c : PartialEnvironmentConfig) (sc : option SimulationConfig)
    (h : Store) : env_wf (Environment_new c sc) h.
Proof.
  split; constructor.
Qed.

(** C7. [addDisturbance] with a whole duration [d >= 1] registers an
    active disturbance; for [Fire] it raises the temperature by
    [5 * intensity] before clamping to [-10, 45].  The disturbance is
    among the active ones after each of the next [d - 1] calls of
    [update()] and is gone after call number [d]. *)
Theorem disturbance_lifetime (this : Environment) (h : Store) (type : DisturbanceType)
    (i : Q) (d : nat) (area : Area) (s : Src) :
  (1 <= d)%nat ->
  env_wf this h ->
  let r0 := addDisturbance this h type i (nat_Q d) area in
  let a := fst (fst r0) in
  let after k := fst (updates k (snd (fst r0)) (snd r0) s) in
  In a (getActiveDisturbances (snd (fst r0)) (snd r0)) /\
  (type = Fire ->
     temperature (config (snd (fst r0)))
     == clamp (-10) 45 (temperature (config this) + 5 * i)) /\
  (forall k, (1 <= k < d)%nat ->
     In a (getActiveDisturbances (fst (after k)) (snd (after k)))) /\
  ~ In a (getActiveDisturbances (fst (after d)) (snd (after d))).
Proof.
  intros Hd Hwf r0 a after.
  pose proof (addDisturbance_shape this h type i (nat_Q d) area) as Hs.
  cbv zeta in Hs. fold r0 in Hs. destruct Hs as (Ha & Hl & Hh).
  assert (Hwf0 : env_wf (snd (fst r0)) (snd r0)).
  { rewrite Hh. eapply env_wf_add; eauto. }
  assert (Ht0 : tracked a 0 d (snd (fst r0)) (snd r0)).
  { split.
    - rewrite Hl. apply in_or_app. right. left. now rewrite <- Ha.
    - eexists. split.
      + rewrite Hh. unfold a. rewrite Ha.
        rewrite nth_error_app2 by lia. rewrite Nat.sub_diag. reflexivity.
      + cbn. repeat split; reflexivity. }
  split; [eapply tracked_active; exact Ht0 |].
  split; [intros ->; reflexivity |].
  split.
  - intros k Hk. unfold after.
    destruct (updates_tracked k _ _ s a 0%nat d Hwf0 Ht0) as [Ht _]; [lia |].
    eapply tracked_active. exact Ht.
  - unfold after. destruct d as [| d']; [lia |].
    apply (updates_expire d' _ _ s a 0%nat (S d') Hwf0 Ht0). lia.
Qed.

Lemma disturbance_lifetime_witness :
  let r0 := addDisturbance (Environment_new no_config None) [] Fire 1 (nat_Q 5) sample_area in
  let after k := fst (updates k (snd (fst r0)) (snd r0) (constant_source 0.5)) in
  temperature (config (snd (fst r0))) == 30 /\
  In 0%nat (getActiveDisturbances (fst (after 4%nat)) (snd (after 4%nat))) /\
  ~ In 0%nat (getActiveDisturbances (fst (after 5%nat)) (snd (after 5%nat))).
Proof.
  pose proof (disturbance_lifetime (Environment_new no_config None) [] Fire 1 5
                sample_area (constant_source 0.5)) as H.
  cbv zeta in H.
  destruct H as (_ & Hfire & Hk & Hend); [lia | apply Environment_new_wf |].
  split; [rewrite Hfire; reflexivity |].
  split; [apply (Hk 4%nat); lia | exact Hend].
Defined.

(** ** The stability index *)

(** C1, as stated, fails twice.  With exactly ten samples the source
    still answers 1 where the formula gives 11/12; with eleven samples it
    answers 1/6 because it divides the sum, not the mean, of the absolute
    deviations by the mean. *)
Lemma stabilityIndex_counterexample :
  (compute_stabilityIndex ten_samples = JS.Fin 1 /\
   claimed_stabilityIndex ten_samples == 11 # 12) /\
  (JS.eqv (compute_stabilityIndex eleven_samples) (JS.Fin (1 # 6)) /\
   claimed_stabilityIndex eleven_samples == 11 # 12 /\
   ~ JS.eqv (compute_stabilityIndex eleven_samples)
            (JS.Fin (claimed_stabilityIndex eleven_samples))).
Proof.
  repeat split; vm_compute; congruence.
Qed.

Lemma reduce_sum_acc {A : Type} (f : A -> Q) (l : list A) (acc : Q) :
  fold_left (fun sum val => sum + f val) l acc
  == acc + fold_left (fun sum val => sum + f val) l 0.
Proof.
  revert acc. induction l as [| x l IH]; intro acc; cbn.
  - ring.
  - rewrite IH. rewrite (IH (0 + f x)). ring.
Qed.

Lemma reduce_sum_cons {A : Type} (f : A -> Q) (x : A) (l : list A) :
  reduce_sum f (x :: l) == f x + reduce_sum f l.
Proof.
  unfold reduce_sum. cbn. rewrite reduce_sum_acc. ring.
Qed.

Lemma reduce_sum_total (l : list Q) : reduce_sum (fun val => val) l == total l.
Proof.
  induction l as [| x l IH]; [reflexivity |].
  rewrite reduce_sum_cons. cbn [total]. now rewrite IH.
Qed.

Lemma reduce_sum_abs_dev (m m' : Q) (l : list Q) :
  m == m' -> reduce_sum (fun val => Qabs (val - m)) l == total_abs_dev m' l.
Proof.
  intro Hm. induction l as [| x l IH]; [reflexivity |].
  rewrite reduce_sum_cons. cbn [total_abs_dev]. now rewrite IH, Hm.
Qed.

Lemma slice_last_length {A : Type} (n : nat) (l : list A) :
  (n <= List.length l)%nat -> List.length (slice_last n l) = n.
Proof.
  intro H. unfold slice_last. rewrite length_skipn. lia.
Qed.

Lemma slice_last_snoc {A : Type} (n : nat) (l : list A) (x : A) :
  (0 < n)%nat -> exists l', slice_last n (l ++ [x]) = l' ++ [x].
Proof.
  intro Hn. unfold slice_last. rewrite length_app. cbn [List.length].
  rewrite skipn_app.
  replace (List.length l + 1 - n - List.length l)%nat with 0%nat by lia.
  cbn [skipn]. eauto.
Qed.

Lemma JS_div_nonzero (a b : Q) : ~ b == 0 -> JS.div a b = JS.Fin (a / b).
Proof.
  intro H. unfold JS.div. apply Qeq_bool_false_iff in H. now rewrite H.
Qed.

Lemma Qlt_bool_compat (a b b' : Q) : b == b' -> Qlt_bool a b = Qlt_bool a b'.
Proof.
  intro H. destruct (Qlt_bool a b') eqn:E.
  - apply Qlt_bool_iff. apply Qlt_bool_iff in E. now rewrite H.
  - apply Qlt_bool_false_iff. apply Qlt_bool_false_iff in E. now rewrite H.
Qed.

Lemma nat_Q_zero (n : nat) : nat_Q n == 0 <-> n = 0%nat.
Proof.
  unfold nat_Q. split.
  - intro H. unfold Qeq in H. cbn in H. lia.
  - intros ->. reflexivity.
Qed.

(** The herbivore term of the source is the guarded variation, whatever
    the length of the series. *)
Lemma variationHerbivores_spec (H : list Q) :
  let avgHerbivores :=
    JS.div (reduce_sum (fun val => val) H) (nat_Q (List.length H)) in
  JS.eqv
    (if JS.ltb (JS.Fin 0) avgHerbivores then
       match avgHerbivores with
       | JS.Fin avg => JS.div (reduce_sum (fun val => Qabs (val - avg)) H) avg
       | _ => JS.NaN
       end
     else JS.Fin 0)
    (JS.Fin (guarded_variation H)).
Proof.
  cbv zeta. unfold guarded_variation.
  destruct H as [| x H'].
  - vm_compute. reflexivity.
  - set (H := x :: H').
    assert (Hlen : ~ nat_Q (List.length H) == 0).
    { rewrite nat_Q_zero. discriminate. }
    rewrite (JS_div_nonzero _ _ Hlen). cbn [JS.ltb].
    assert (Havg : reduce_sum (fun val => val) H / nat_Q (List.length H) == mean H).
    { unfold mean. now rewrite reduce_sum_total. }
    rewrite (Qlt_bool_compat _ _ _ Havg).
    destruct (Qlt_bool 0 (mean H)) eqn:E; [| reflexivity].
    apply Qlt_bool_iff in E.
    rewrite JS_div_nonzero by (rewrite Havg; lra).
    cbn [JS.eqv]. unfold variation.
    rewrite (reduce_sum_abs_dev _ _ _ Havg). now rewrite Havg.
Qed.

Lemma push_truncate_stabilityIndex (stats : SimulationStatistics)
    (p h c d bio temp rain en nut : Q) (stab : JS.num) :
  exists l,
    stabilityIndex
      (truncate_statistics (push_statistics stats p h c d bio temp rain en nut stab))
    = l ++ [stab].
Proof.
  unfold truncate_statistics.
  destruct (500 <? _)%nat; cbn [stabilityIndex push_statistics].
  - apply slice_last_snoc. lia.
  - eauto.
Qed.

(** C1, amended.  Each cycle that updates the state appends
    [compute_stabilityIndex] of the previous series.  That value is 1
    while the producer series holds at most 10 samples; with more than 10
    samples and a nonzero mean of the last 10 producer counts it is
    [max(0, 1 - (vP + vH)/4)], where a variation is the sum of the
    absolute deviations of the last 10 samples divided by their mean and
    the herbivore variation is 0 unless the herbivore mean is positive. *)
Theorem stabilityIndex_spec (Math_log : Q -> Q) (hk : Hook) (s : Src) :
  let stats := st_statistics (hk_state hk) in
  let hk' := fst (runCycle Math_log hk s) in
  let P := slice_last 10 (producers stats) in
  let H := slice_last 10 (herbivores stats) in
  (hk_state hk' = hk_state hk \/
   exists l, stabilityIndex (st_statistics (hk_state hk'))
             = l ++ [compute_stabilityIndex stats]) /\
  ((List.length (producers stats) <= 10)%nat ->
     compute_stabilityIndex stats = JS.Fin 1) /\
  ((10 < List.length (producers stats))%nat -> ~ mean P == 0 ->
     JS.eqv (compute_stabilityIndex stats)
            (JS.Fin (Qmax 0 (1 - (variation P + guarded_variation H) / 4)))).
Proof.
  intros stats hk' P H. split; [| split].
  - subst hk'. unfold runCycle.
    destruct (environmentRef hk) as [environment |]; [| now left].
    destruct (gridRef hk) as [grid0 |]; [| now left].
    unfold bind. cbv zeta.
    match goal with
    | |- context [if ?b then _ else _] => destruct b
    end.
    + left. reflexivity.
    + right. cbn [fst snd ret with_state hk_state st_statistics].
      apply push_truncate_stabilityIndex.
  - intro Hlen. unfold compute_stabilityIndex. fold stats.
    destruct (10 <? List.length (producers stats))%nat eqn:E; [| reflexivity].
    apply Nat.ltb_lt in E. lia.
  - intros Hlen Hmean. unfold compute_stabilityIndex. fold stats.
    apply Nat.ltb_lt in Hlen. rewrite Hlen. fold P. fold H.
    assert (Havg : reduce_sum (fun val => val) P / nat_Q (List.length P) == mean P).
    { unfold mean. now rewrite reduce_sum_total. }
    rewrite JS_div_nonzero by (now rewrite Havg).
    pose proof (variationHerbivores_spec H) as HH. cbv zeta in HH.
    destruct (if JS.ltb (JS.Fin 0) _ then _ else _) as [vh | | |];
      cbn [JS.eqv] in HH; try contradiction.
    cbn [JS.add JS.div_const JS.sub JS.opp JS.max JS.eqv].
    apply Q.max_compat; [reflexivity |].
    unfold variation at 1.
    rewrite (reduce_sum_abs_dev _ _ _ Havg), Havg, HH.
    unfold Qminus. reflexivity.
Qed.

Lemma stabilityIndex_spec_witness :
  JS.eqv (compute_stabilityIndex eleven_samples) (JS.Fin (1 # 6)).
Proof.
  pose proof (stabilityIndex_spec (fun _ => 0)
                {| hk_config := DEFAULT_CONFIG;
                   hk_state :=
                     {| st_day := 0; st_season := Spring; st_environment := sample_env;
                        st_grid := GridCells; st_organisms := [];
                        st_disturbance := None; st_statistics := eleven_samples;
                        st_paused := true; st_cyclesPerSecond := 1 |};
                   gridRef := None; environmentRef := None; hk_store := [];
                   autoRestartOnExtinction := true; extinctionCount := 0;
                   lastExtinctionDay := 0; scheduledRestart := None |}
                (constant_source 0.5)) as H.
  cbv zeta in H. destruct H as (_ & _ & H).
  cbn [hk_state st_statistics] in H.
  assert (H1 : (10 < List.length (producers eleven_samples))%nat) by (cbn; lia).
  assert (H2 : ~ mean (slice_last 10 (producers eleven_samples)) == 0)
    by (vm_compute; congruence).
  specialize (H H1 H2).
  destruct (compute_stabilityIndex eleven_samples) as [v | | |];
    cbn [JS.eqv] in *; try contradiction.
  rewrite H. vm_compute. reflexivity.
Defined.

(** ** Initialisation *)

Lemma foldM_invariant {A B : Type} (P : B -> Prop) (f : B -> A -> M B) (l : list A) :
  (forall b a s, P b -> P (fst (f b a s))) ->
  forall b s, P b -> P (fst (foldM f l b s)).
Proof.
  intro Hf. induction l as [| a l IH]; intros b s Hb; cbn.
  - exact Hb.
  - unfold bind. cbv zeta. apply IH. now apply Hf.
Qed.

Lemma times_invariant {B : Type} (P : B -> Prop) (n : Z) (body : B -> M B) :
  (forall b s, P b -> P (fst (body b s))) ->
  forall b s, P b -> P (fst (times n body b s)).
Proof.
  intros Hbody b s Hb. unfold times. apply foldM_invariant; auto.
Qed.

Lemma times_nonpositive {B : Type} (n : Z) (body : B -> M B) (b : B) (s : Src) :
  (n <= 0)%Z -> times n body b s = (b, s).
Proof.
  intro Hn. unfold times, zrange.
  replace (Z.to_nat (n - 1 - 0 + 1)) with 0%nat by lia. reflexivity.
Qed.

Lemma update_cell_dims (g : Grid) (x y : Z) (f : Cell -> Cell) :
  grid_width (update_cell g x y f) = grid_width g /\
  grid_height (update_cell g x y f) = grid_height g.
Proof. split; reflexivity. Qed.

Lemma addOrganism_dims (g : Grid) (o : Organism) :
  grid_width (snd (addOrganism g o)) = grid_width g /\
  grid_height (snd (addOrganism g o)) = grid_height g.
Proof.
  unfold addOrganism. destruct (getCell g (position o)); split; reflexivity.
Qed.

Lemma count_assign_none (p : Attributes -> bool) (k : string) (a : Attributes) (t : Table) :
  p a = false -> count p t = 0%Z -> count p (assign k a t) = 0%Z.
Proof.
  intros Ha. unfold count. induction t as [| [k' a'] t IH]; cbn.
  - now rewrite Ha.
  - destruct (p a') eqn:Ea'; cbn; [lia |]. intro Ht.
    destruct (String.eqb k k'); cbn.
    + now rewrite Ha.
    + rewrite Ea'. now apply IH.
Qed.

Lemma register_invariant (p : Attributes -> bool) (w h : Z) (a : Attributes)
    (acc : Table * Grid) :
  p a = false -> spawn_invariant p w h acc -> spawn_invariant p w h (register a acc).
Proof.
  intros Ha (Hc & Hw & Hh). unfold register, spawn_invariant. cbn [fst snd].
  destruct (addOrganism_dims (snd acc) (base a)) as [-> ->].
  repeat split; auto. now apply count_assign_none.
Qed.

Lemma spawn_producer_invariant (p : Attributes -> bool) (w h : Z) (c : SimulationConfig) :
  (forall a, type (base a) = TProducer -> p a = false) ->
  forall acc s, spawn_invariant p w h acc ->
                spawn_invariant p w h (fst (spawn_producer c acc s)).
Proof.
  intros Hp acc s Hacc. apply register_invariant; [| exact Hacc]. now apply Hp.
Qed.

Lemma spawn_herbivore_invariant (p : Attributes -> bool) (w h : Z) (c : SimulationConfig) :
  (forall a, type (base a) = TConsumer ->
             x_consumerType (extras a) = Some Herbivore -> p a = false) ->
  forall acc s, spawn_invariant p w h acc ->
                spawn_invariant p w h (fst (spawn_herbivore c acc s)).
Proof.
  intros Hp acc s Hacc. apply register_invariant; [| exact Hacc]. now apply Hp.
Qed.

Lemma spawn_carnivore_invariant (p : Attributes -> bool) (w h : Z) (c : SimulationConfig) :
  (forall a, type (base a) = TConsumer ->
             x_consumerType (extras a) = Some Carnivore -> p a = false) ->
  forall acc s, spawn_invariant p w h acc ->
                spawn_invariant p w h (fst (spawn_carnivore c acc s)).
Proof.
  intros Hp acc s Hacc. apply register_invariant; [| exact Hacc]. now apply Hp.
Qed.

Lemma spawn_decomposer_invariant (p : Attributes -> bool) (w h : Z) (c : SimulationConfig) :
  (forall a, type (base a) = TDecomposer -> p a = false) ->
  forall acc s, spawn_invariant p w h acc ->
                spawn_invariant p w h (fst (spawn_decomposer c acc s)).
Proof.
  intros Hp acc s Hacc. apply register_invariant; [| exact Hacc]. now apply Hp.
Qed.

(** C9, as stated, fails: a configuration with a zero width, a negative
    height and negative counts is not rejected; an environment, a grid
    and an organism table are built and installed. *)
Lemma initialize_counterexample :
  let hk := fst (initialize (fun q => q) (Some bad_config) (fresh_hook DEFAULT_CONFIG)
                   (constant_source 0.5)) in
  environmentRef hk <> None /\
  gridRef hk = Some {| grid_width := 0; grid_height := -1; cells := [] |} /\
  st_organisms (hk_state hk) = [] /\
  hk_config hk = bad_config.
Proof.
  vm_compute. repeat split. discriminate.
Qed.

(** C9, amended.  [initialize(config)] validates nothing: for every
    configuration it builds the environment, a grid of the configured
    dimensions and the organism table.  A grid with a non-positive
    dimension has no cell, and a non-positive count yields no organism
    of that kind. *)
Theorem initialize_builds_state (Math_sqrt : Q -> Q) (c : SimulationConfig) (hk : Hook)
    (s : Src) :
  let hk' := fst (initialize Math_sqrt (Some c) hk s) in
  let table := st_organisms (hk_state hk') in
  hk_config hk' = c /\
  environmentRef hk' = Some (initial_environment c) /\
  (exists g, gridRef hk' = Some g /\
             grid_width g = gridWidth c /\ grid_height g = gridHeight c /\
             ((gridWidth c <= 0 \/ gridHeight c <= 0)%Z -> forall p, getCell g p = None)) /\
  ((initialProducers c <= 0)%Z -> count (is_type TProducer) table = 0%Z) /\
  ((initialHerbivores c <= 0)%Z -> count (is_guild Herbivore) table = 0%Z) /\
  ((initialCarnivores c <= 0)%Z -> count (is_guild Carnivore) table = 0%Z) /\
  ((initialDecomposers c <= 0)%Z -> count (is_type TDecomposer) table = 0%Z).
Proof.
  intros hk' table. subst table hk'.
  unfold initialize, bind. cbv zeta.
  cbn [JS.or_obj fst snd ret hk_config hk_state st_organisms environmentRef gridRef].
  set (g0 := fst (Grid_new Math_sqrt (gridWidth c) (gridHeight c)
                    (getConfig (initial_environment c)) s)).
  set (s0 := snd (Grid_new Math_sqrt (gridWidth c) (gridHeight c)
                    (getConfig (initial_environment c)) s)).
  set (r1 := times (initialProducers c) (spawn_producer c) ([], g0) s0).
  set (r2 := times (initialHerbivores c) (spawn_herbivore c) (fst r1) (snd r1)).
  set (r3 := times (initialCarnivores c) (spawn_carnivore c) (fst r2) (snd r2)).
  set (r4 := times (initialDecomposers c) (spawn_decomposer c) (fst r3) (snd r3)).
  assert (Hstart : forall p, spawn_invariant p (gridWidth c) (gridHeight c) ([], g0))
    by (intro p; repeat split).
  assert (Hall : forall p,
            (forall a, type (base a) = TConsumer ->
                       x_consumerType (extras a) = Some Herbivore -> p a = false) ->
            (forall a, type (base a) = TConsumer ->
                       x_consumerType (extras a) = Some Carnivore -> p a = false) ->
            (forall a, type (base a) = TDecomposer -> p a = false) ->
            spawn_invariant p (gridWidth c) (gridHeight c) (fst r1) ->
            spawn_invariant p (gridWidth c) (gridHeight c) (fst r4)).
  { intros p Hh Hc Hd H1.
    apply times_invariant; [intros; now apply spawn_decomposer_invariant |].
    apply times_invariant; [intros; now apply spawn_carnivore_invariant |].
    apply times_invariant; [intros; now apply spawn_herbivore_invariant |].
    exact H1. }
  assert (Hdims : grid_width (snd (fst r4)) = gridWidth c /\
                  grid_height (snd (fst r4)) = gridHeight c).
  { assert (H : spawn_invariant (fun _ => false) (gridWidth c) (gridHeight c) (fst r4)).
    { apply Hall; auto.
      apply times_invariant; [intros; now apply spawn_producer_invariant | apply Hstart]. }
    destruct H as (_ & Hw & Hh). now split. }
  split; [reflexivity |]. split; [reflexivity |]. split.
  { exists (snd (fst r4)). destruct Hdims as [Hw Hh].
    repeat split; auto.
    intros Hbad p. unfold getCell, in_bounds. rewrite Hw, Hh.
    destruct ((0 <=? px p)%Z && (px p <? gridWidth c)%Z &&
              (0 <=? py p)%Z && (py p <? gridHeight c)%Z) eqn:E; [| reflexivity].
    repeat (apply andb_true_iff in E; destruct E as [E ?]).
    apply Z.leb_le in E.
    repeat match goal with
           | H : (_ <? _)%Z = true |- _ => apply Z.ltb_lt in H
           | H : (_ <=? _)%Z = true |- _ => apply Z.leb_le in H
           end.
    lia. }
  split; [| split; [| split]].
  - intro Hn.
    assert (H : spawn_invariant (is_type TProducer) (gridWidth c) (gridHeight c) (fst r4)).
    { apply Hall.
      - intros a Ht _. unfold is_type. now rewrite Ht.
      - intros a Ht _. unfold is_type. now rewrite Ht.
      - intros a Ht. unfold is_type. now rewrite Ht.
      - unfold r1. rewrite times_nonpositive by exact Hn. apply Hstart. }
    apply H.
  - intro Hn.
    assert (H : spawn_invariant (is_guild Herbivore) (gridWidth c) (gridHeight c) (fst r4)).
    { apply times_invariant.
      { intros; apply spawn_decomposer_invariant; auto.
        intros a Ht. unfold is_guild, is_type. now rewrite Ht. }
      apply times_invariant.
      { intros; apply spawn_carnivore_invariant; auto.
        intros a Ht Hg. unfold is_guild, is_type. now rewrite Ht, Hg. }
      unfold r2. rewrite times_nonpositive by exact Hn.
      apply times_invariant; [| apply Hstart].
      intros; apply spawn_producer_invariant; auto.
      intros a Ht. unfold is_guild, is_type. now rewrite Ht. }
    apply H.
  - intro Hn.
    assert (H : spawn_invariant (is_guild Carnivore) (gridWidth c) (gridHeight c) (fst r4)).
    { apply times_invariant.
      { intros; apply spawn_decomposer_invariant; auto.
        intros a Ht. unfold is_guild, is_type. now rewrite Ht. }
      unfold r3. rewrite times_nonpositive by exact Hn.
      apply times_invariant.
      { intros; apply spawn_herbivore_invariant; auto.
        intros a Ht Hg. unfold is_guild, is_type. now rewrite Ht, Hg. }
      apply times_invariant; [| apply Hstart].
      intros; apply spawn_producer_invariant; auto.
      intros a Ht. unfold is_guild, is_type. now rewrite Ht. }
    apply H.
  - intro Hn.
    assert (H : spawn_invariant (is_type TDecomposer) (gridWidth c) (gridHeight c) (fst r4)).
    { unfold r4. rewrite times_nonpositive by exact Hn.
      apply times_invariant.
      { intros; apply spawn_carnivore_invariant; auto.
        intros a Ht _. unfold is_type. now rewrite Ht. }
      apply times_invariant.
      { intros; apply spawn_herbivore_invariant; auto.
        intros a Ht _. unfold is_type. now rewrite Ht. }
      apply times_invariant; [| apply Hstart].
      intros; apply spawn_producer_invariant; auto.
      intros a Ht. unfold is_type. now rewrite Ht. }
    apply H.
Qed.

Lemma initialize_builds_state_witness :
  let hk := fst (initialize (fun q => q) (Some bad_config) (fresh_hook DEFAULT_CONFIG)
                   (constant_source 0.5)) in
  environmentRef hk = Some (initial_environment bad_config) /\
  count (is_type TProducer) (st_organisms (hk_state hk)) = 0%Z.
Proof.
  pose proof (initialize_builds_state (fun q => q) bad_config (fresh_hook DEFAULT_CONFIG)
                (constant_source 0.5)) as H.
  cbv zeta in H. destruct H as (_ & He & _ & Hp & _).
  split; [exact He | apply Hp; cbn; lia].
Defined.

(** ** Saving and loading *)

(** C2.  Loading what was just saved gives back the React state, but
    the objects the next cycle runs on are not those of the snapshot:
    the environment's day counter is 0 and its disturbance list empty,
    and the terrain of the grid is newly drawn, whatever the snapshot's
    grid holds. *)
Theorem loadSimulation_rebuilds (Math_sqrt : Q -> Q) (hk : Hook) (name date : string)
    (s : Src) :
  let st := hk_state hk in
  let hk' := fst (loadSimulation Math_sqrt (saveSimulation hk name date) hk s) in
  (st_day (hk_state hk') = st_day st /\
   st_season (hk_state hk') = st_season st /\
   st_environment (hk_state hk') = st_environment st /\
   st_organisms (hk_state hk') = st_organisms st /\
   st_disturbance (hk_state hk') = st_disturbance st /\
   st_statistics (hk_state hk') = st_statistics st) /\
  option_map env_day (environmentRef hk') = Some 0%nat /\
  option_map disturbances (environmentRef hk') = Some [] /\
  gridRef hk' = Some (reloaded_grid Math_sqrt st (hk_config hk) s).
Proof.
  cbv zeta. unfold loadSimulation, saveSimulation, bind, ret. cbn.
  repeat split.
Qed.

(** The next cycle of the running simulation is day 6 with the fire still
    active; after saving and loading, the next cycle is day 1 and there
    is no active disturbance. *)
Lemma loadSimulation_day_example :
  let src := constant_source 0.5 in
  let next := fst (runCycle (fun _ => 0) day5_hook src) in
  let loaded :=
    fst (loadSimulation (fun q => q) (saveSimulation day5_hook "s" "d") day5_hook src) in
  let next' := fst (runCycle (fun _ => 0) loaded src) in
  st_day (hk_state loaded) = 5%nat /\
  (st_day (hk_state next) = 6%nat /\ st_disturbance (hk_state next) = Some 0%nat) /\
  (st_day (hk_state next') = 1%nat /\ st_disturbance (hk_state next') = None).
Proof.
  vm_compute. repeat split.
Qed.

(** * Deferred removal of dead organisms *)

(** ** The source only moves forward *)

Lemma later_refl (s : Src) : later s s.
Proof. exists 0%nat. reflexivity. Qed.

Lemma later_trans (s1 s2 s3 : Src) : later s1 s2 -> later s2 s3 -> later s1 s3.
Proof.
  intros [k1 H1] [k2 H2]. exists (k2 + k1)%nat. intro n.
  rewrite H1, H2. f_equal. lia.
Qed.

Lemma forward_ret {A : Type} (a : A) : forward (ret a).
Proof. intro s. apply later_refl. Qed.

Lemma forward_bind {A B : Type} (c : M A) (k : A -> M B) :
  forward c -> (forall a, forward (k a)) -> forward (bind c k).
Proof.
  intros Hc Hk s. unfold bind. cbv zeta.
  eapply later_trans; [apply Hk | apply Hc].
Qed.

Lemma forward_random : forward Math_random.
Proof. intro s. exists 0%nat. reflexivity. Qed.

Lemma forward_uuid : forward uuidv4.
Proof. intro s. exists 1%nat. reflexivity. Qed.

Lemma forward_foldM {A B : Type} (f : B -> A -> M B) (l : list A) :
  (forall b a, forward (f b a)) -> forall b, forward (foldM f l b).
Proof.
  intro Hf. induction l as [| a l IH]; intro b; cbn [foldM].
  - apply forward_ret.
  - apply forward_bind; auto.
Qed.

Create HintDb forward.
#[local] Hint Resolve forward_ret forward_random forward_uuid : forward.

Ltac forward_step :=
  first
    [ solve [auto with forward]
    | apply forward_bind; [| intro]
    | match goal with
      | |- forward (match ?x with _ => _ end) => destruct x
      | |- forward (if ?b then _ else _) => destruct b
      | |- forward (let _ := _ in _) => cbv zeta
      end ].

Ltac forward_tac := repeat forward_step.

Lemma forward_Organism_new (a : PartialAttributes) : forward (Organism_new a).
Proof. unfold Organism_new. forward_tac. Qed.
#[local] Hint Resolve forward_Organism_new : forward.

Lemma forward_Producer_new (a : PartialAttributes) : forward (Producer_new a).
Proof. unfold Producer_new. forward_tac. Qed.

Lemma forward_Consumer_new (a : PartialAttributes) : forward (Consumer_new a).
Proof. unfold Consumer_new. forward_tac. Qed.

Lemma forward_Decomposer_new (a : PartialAttributes) : forward (Decomposer_new a).
Proof. unfold Decomposer_new. forward_tac. Qed.
#[local] Hint Resolve forward_Producer_new forward_Consumer_new forward_Decomposer_new
  : forward.

Lemma forward_canReproduce (o : Organism) : forward (canReproduce o).
Proof. unfold canReproduce. forward_tac. Qed.

Lemma forward_reproduce (o : Organism) : forward (reproduce o).
Proof. unfold reproduce. forward_tac. Qed.

Lemma forward_eat (c : Consumer) (prey : Organism) : forward (eat c prey).
Proof. unfold eat. forward_tac. Qed.

Lemma forward_findAvailablePosition (g : Grid) (p : Position) (r : Z) :
  forward (findAvailablePosition g p r).
Proof. unfold findAvailablePosition. forward_tac. Qed.
#[local] Hint Resolve forward_canReproduce forward_reproduce forward_eat
  forward_findAvailablePosition : forward.

Lemma forward_handle_reproduction (o : Organism) (r : Z) (l : Loop) :
  forward (handle_reproduction o r l).
Proof. unfold handle_reproduction. forward_tac. Qed.

Lemma forward_consumer_move (env : EnvironmentConfig) (o : Organism) (l : Loop) :
  forward (consumer_move env o l).
Proof. unfold consumer_move. forward_tac. Qed.

Lemma forward_decomposer_move (env : EnvironmentConfig) (o : Organism) (l : Loop) :
  forward (decomposer_move env o l).
Proof. unfold decomposer_move. forward_tac. Qed.

Lemma forward_rebuild_producer (a : Attributes) : forward (rebuild_producer a).
Proof. unfold rebuild_producer. forward_tac. Qed.

Lemma forward_rebuild_consumer (a : Attributes) : forward (rebuild_consumer a).
Proof. unfold rebuild_consumer. forward_tac. Qed.
#[local] Hint Resolve forward_handle_reproduction forward_consumer_move
  forward_decomposer_move forward_rebuild_producer forward_rebuild_consumer : forward.

Lemma forward_try_eat (c : Consumer) (r : Z) (wanted : Attributes -> bool)
    (rebuild : Attributes -> M (Organism * (Organism -> Attributes))) (l : Loop) :
  (forall a, forward (rebuild a)) -> forward (try_eat c r wanted rebuild l).
Proof. intro Hr. unfold try_eat. forward_tac. Qed.

Lemma forward_decomposer_feed (d : Decomposer) (n : Z) (cell : Cell) (l : Loop) :
  forward (decomposer_feed d n cell l).
Proof. unfold decomposer_feed. forward_tac. Qed.
#[local] Hint Resolve forward_decomposer_feed : forward.

Lemma forward_step_producer env key organism cell l :
  forward (step_producer env key organism cell l).
Proof. unfold step_producer. forward_tac. Qed.

Lemma forward_step_consumer env key organism l :
  forward (step_consumer env key organism l).
Proof.
  unfold step_consumer. forward_tac; apply forward_try_eat; auto with forward.
Qed.

Lemma forward_step_decomposer env key organism cell l :
  forward (step_decomposer env key organism cell l).
Proof. unfold step_decomposer. forward_tac. Qed.
#[local] Hint Resolve forward_step_producer forward_step_consumer forward_step_decomposer
  : forward.

Lemma forward_step_organism env l entry : forward (step_organism env l entry).
Proof. unfold step_organism. forward_tac. Qed.
#[local] Hint Resolve forward_step_organism : forward.

Lemma forward_generateRandomDisturbance e h : forward (generateRandomDisturbance e h).
Proof. unfold generateRandomDisturbance. forward_tac. Qed.

Lemma forward_updateSeasonalFactors e : forward (updateSeasonalFactors e).
Proof. unfold updateSeasonalFactors. forward_tac. Qed.
#[local] Hint Resolve forward_generateRandomDisturbance forward_updateSeasonalFactors
  : forward.

Lemma forward_Environment_update e h : forward (Environment_update e h).
Proof. unfold Environment_update. forward_tac. Qed.
#[local] Hint Resolve forward_Environment_update : forward.

Lemma forward_cycle_pass e g hk : forward (cycle_pass e g hk).
Proof.
  unfold cycle_pass. forward_tac. apply forward_foldM. auto with forward.
Qed.

Lemma forward_generateRandomConfig : forward generateRandomConfig.
Proof. unfold generateRandomConfig. forward_tac. Qed.
#[local] Hint Resolve forward_cycle_pass forward_generateRandomConfig : forward.

Lemma forward_runCycle (Math_log : Q -> Q) hk : forward (runCycle Math_log hk).
Proof. unfold runCycle. forward_tac. Qed.

(** ** The organism table *)

Lemma lookup_assign_same {A : Type} (k : string) (v : A) (t : list (string * A)) :
  lookup k (assign k v t) = Some v.
Proof.
  induction t as [| [k' v'] t IH]; cbn.
  - now rewrite String.eqb_refl.
  - destruct (String.eqb k k') eqn:E; cbn; rewrite E; auto.
Qed.

Lemma lookup_assign_other {A : Type} (k k' : string) (v : A) (t : list (string * A)) :
  k <> k' -> lookup k' (assign k v t) = lookup k' t.
Proof.
  intro Hne. induction t as [| [k0 v0] t IH]; cbn.
  - destruct (String.eqb k' k) eqn:E; [apply String.eqb_eq in E; congruence | reflexivity].
  - destruct (String.eqb k k0) eqn:E; cbn.
    + apply String.eqb_eq in E. subst k0.
      destruct (String.eqb k' k) eqn:E'; [apply String.eqb_eq in E'; congruence | reflexivity].
    + destruct (String.eqb k' k0); auto.
Qed.

Lemma lookup_delete_same {A : Type} (k : string) (t : list (string * A)) :
  lookup k (delete k t) = None.
Proof.
  unfold delete. induction t as [| [k' v'] t IH]; cbn; [reflexivity |].
  destruct (String.eqb k k') eqn:E; cbn; [exact IH | now rewrite E].
Qed.

Lemma lookup_delete_other {A : Type} (k k' : string) (t : list (string * A)) :
  k <> k' -> lookup k' (delete k t) = lookup k' t.
Proof.
  intro Hne. unfold delete. induction t as [| [k0 v0] t IH]; cbn; [reflexivity |].
  destruct (String.eqb k k0) eqn:E; cbn.
  - apply String.eqb_eq in E. subst k0.
    destruct (String.eqb k' k) eqn:E'; [apply String.eqb_eq in E'; congruence | exact IH].
  - destruct (String.eqb k' k0); auto.
Qed.

Lemma lookup_In {A : Type} (k : string) (v : A) (t : list (string * A)) :
  lookup k t = Some v -> In (k, v) t.
Proof.
  induction t as [| [k' v'] t IH]; cbn; [discriminate |].
  destruct (String.eqb k k') eqn:E.
  - apply String.eqb_eq in E. intros [= ->]. left. now subst.
  - intro H. right. now apply IH.
Qed.

Lemma In_lookup {A : Type} (k : string) (v : A) (t : list (string * A)) :
  NoDup (map fst t) -> In (k, v) t -> lookup k t = Some v.
Proof.
  induction t as [| [k' v'] t IH]; cbn; [intros _ [] |].
  intros Hnd [[= -> ->] | Hin].
  - now rewrite String.eqb_refl.
  - inversion Hnd as [| ? ? Hnotin Hnd']; subst.
    destruct (String.eqb k k') eqn:E; [| now apply IH].
    apply String.eqb_eq in E. subst k'. exfalso. apply Hnotin.
    change k with (fst (k, v)). now apply in_map.
Qed.

Lemma In_assign {A : Type} (k k' : string) (v v' : A) (t : list (string * A)) :
  In (k', v') (assign k v t) -> (k' = k /\ v' = v) \/ In (k', v') t.
Proof.
  induction t as [| [k0 v0] t IH]; cbn.
  - intros [[= <- <-] | []]. now left.
  - destruct (String.eqb k k0) eqn:E; cbn.
    + apply String.eqb_eq in E. subst k0.
      intros [[= <- <-] | Hin]; [now left | right; now right].
    + intros [Heq | Hin]; [right; now left |].
      destruct (IH Hin) as [H | H]; [now left | right; now right].
Qed.

Lemma keys_assign {A : Type} (k : string) (v : A) (t : list (string * A)) :
  map fst (assign k v t) = map fst t \/ map fst (assign k v t) = map fst t ++ [k].
Proof.
  induction t as [| [k0 v0] t IH]; cbn.
  - now right.
  - destruct (String.eqb k k0) eqn:E; cbn.
    + now left.
    + destruct IH as [-> | ->]; [now left | now right].
Qed.

Lemma keys_assign_In {A : Type} (k : string) (v : A) (t : list (string * A)) :
  In k (map fst t) -> map fst (assign k v t) = map fst t.
Proof.
  induction t as [| [k0 v0] t IH]; cbn; [intros [] |].
  destruct (String.eqb k k0) eqn:E; cbn; [reflexivity |].
  intros [-> | Hin]; [rewrite String.eqb_refl in E; discriminate |].
  now rewrite IH.
Qed.

Lemma keys_assign_fresh {A : Type} (k : string) (v : A) (t : list (string * A)) :
  ~ In k (map fst t) -> map fst (assign k v t) = map fst t ++ [k].
Proof.
  induction t as [| [k0 v0] t IH]; cbn; [reflexivity |].
  intro Hnotin. destruct (String.eqb k k0) eqn:E; cbn.
  - apply String.eqb_eq in E. exfalso. apply Hnotin. now left.
  - rewrite IH; [reflexivity |]. intro; apply Hnotin; now right.
Qed.

Lemma NoDup_keys_assign {A : Type} (k : string) (v : A) (t : list (string * A)) :
  NoDup (map fst t) -> NoDup (map fst (assign k v t)).
Proof.
  intro Hnd. destruct (in_dec string_dec k (map fst t)) as [Hin | Hnotin].
  - now rewrite keys_assign_In.
  - rewrite keys_assign_fresh by assumption.
    apply NoDup_app; [exact Hnd | repeat constructor; intros [] |].
    intros x Hx [<- | []]. contradiction.
Qed.

Lemma In_delete {A : Type} (k k' : string) (v' : A) (t : list (string * A)) :
  In (k', v') (delete k t) -> In (k', v') t.
Proof.
  unfold delete. intro H. apply filter_In in H. tauto.
Qed.

Lemma NoDup_keys_delete {A : Type} (k : string) (t : list (string * A)) :
  NoDup (map fst t) -> NoDup (map fst (delete k t)).
Proof.
  unfold delete. induction t as [| [k0 v0] t IH]; cbn; [auto |].
  intro Hnd. inversion Hnd as [| ? ? Hnotin Hnd']; subst.
  destruct (negb (String.eqb k k0)); cbn; [| now apply IH].
  constructor; [| now apply IH].
  intro Hin. apply Hnotin. apply in_map_iff in Hin. destruct Hin as ([k1 v1] & <- & Hin).
  apply filter_In in Hin. destruct Hin as [Hin _].
  change k1 with (fst (k1, v1)). now apply in_map.
Qed.

Lemma table_wf_assign (k : string) (a : Attributes) (t : Table) :
  table_wf t -> id (base a) = k -> k <> "" -> table_wf (assign k a t).
Proof.
  intros [Hnd Hid] Ha Hk. split; [now apply NoDup_keys_assign |].
  intros k' a' Hin. destruct (In_assign _ _ _ _ _ Hin) as [[-> ->] | Hin'].
  - now split.
  - now apply Hid.
Qed.

Lemma table_wf_delete (k : string) (t : Table) : table_wf t -> table_wf (delete k t).
Proof.
  intros [Hnd Hid]. split; [now apply NoDup_keys_delete |].
  intros k' a' Hin. apply Hid. eapply In_delete. exact Hin.
Qed.

Lemma table_wf_lookup (t : Table) (k : string) (a : Attributes) :
  table_wf t -> lookup k t = Some a -> id (base a) = k /\ k <> "".
Proof.
  intros [_ Hid] H. apply Hid. now apply lookup_In.
Qed.

Lemma table_wf_assign_position (k : string) (p : Position) (t : Table) :
  table_wf t -> table_wf (assign_position k p t).
Proof.
  intro Hwf. unfold assign_position.
  destruct (lookup k t) as [a |] eqn:E; [| exact Hwf].
  destruct (table_wf_lookup _ _ _ Hwf E) as [Hid Hk].
  apply table_wf_assign; auto.
Qed.

(** ** The cells of the grid, by index *)

Lemma cell_at_cellN (cs : list (list Cell)) (x y : Z) :
  cell_at cs x y = cellN cs (Z.to_nat x) (Z.to_nat y).
Proof. reflexivity. Qed.

Lemma nth_error_update_nth {A : Type} (f : A -> A) (l : list A) (n m : nat) :
  nth_error (update_nth n f l) m
  = if Nat.eqb n m then option_map f (nth_error l m) else nth_error l m.
Proof.
  destruct (Nat.eqb n m) eqn:E.
  - apply Nat.eqb_eq in E. subst m.
    destruct (nth_error l n) as [x |] eqn:Hx.
    + now apply update_nth_same.
    + now rewrite update_nth_none.
  - apply Nat.eqb_neq in E. now apply update_nth_other.
Qed.

Lemma cellN_update_cell (g : Grid) (x y : Z) (f : Cell -> Cell) (i j : nat) :
  cellN (cells (update_cell g x y f)) i j
  = if Nat.eqb (Z.to_nat x) i && Nat.eqb (Z.to_nat y) j
    then option_map f (cellN (cells g) i j)
    else cellN (cells g) i j.
Proof.
  unfold update_cell, cellN. cbn [cells].
  rewrite nth_error_update_nth.
  destruct (Nat.eqb (Z.to_nat y) j) eqn:Ey.
  - rewrite andb_true_r.
    destruct (nth_error (cells g) j) as [row |]; cbn [option_map].
    + apply nth_error_update_nth.
    + now destruct (Nat.eqb (Z.to_nat x) i).
  - now rewrite andb_false_r.
Qed.

Lemma similar_refl (g : Grid) : similar g g.
Proof. repeat split. Qed.

Lemma similar_trans (g1 g2 g3 : Grid) : similar g1 g2 -> similar g2 g3 -> similar g1 g3.
Proof.
  intros (Hw1 & Hh1 & H1) (Hw2 & Hh2 & H2).
  split; [congruence | split; [congruence |]].
  intros i j. now rewrite H2, H1.
Qed.

Lemma similar_update_cell (g : Grid) (x y : Z) (f : Cell -> Cell) :
  (forall c, organisms (f c) = organisms c) -> similar g (update_cell g x y f).
Proof.
  intro Hf. repeat split. intros i j. rewrite cellN_update_cell.
  destruct (_ && _); [| reflexivity].
  destruct (cellN (cells g) i j); cbn; [now rewrite Hf | reflexivity].
Qed.

Lemma similar_fold_left {A : Type} (f : Grid -> A -> Grid) (l : list A) :
  (forall g a, similar g (f g a)) -> forall g, similar g (fold_left f l g).
Proof.
  intro Hf. induction l as [| a l IH]; intro g; cbn.
  - apply similar_refl.
  - eapply similar_trans; [apply Hf | apply IH].
Qed.

Lemma similar_updateEnvironment_cell env g x y :
  similar g (updateEnvironment_cell env g x y).
Proof.
  unfold updateEnvironment_cell.
  destruct (cell_at (cells g) x y); [| apply similar_refl].
  match goal with |- context [fold_left ?f ?l ?a] => destruct (fold_left f l a) end.
  now apply similar_update_cell.
Qed.

Lemma similar_updateEnvironment g env : similar g (updateEnvironment g env).
Proof.
  unfold updateEnvironment. apply similar_fold_left. intros g' y.
  apply similar_fold_left. intros g'' x. apply similar_updateEnvironment_cell.
Qed.

Lemma applyDisturbance_cell_organisms type i c :
  organisms (applyDisturbance_cell type i c) = organisms c.
Proof. destruct type; reflexivity. Qed.

Lemma similar_applyDisturbance g sx sy ex ey type i :
  similar g (applyDisturbance g sx sy ex ey type i).
Proof.
  unfold applyDisturbance. apply similar_fold_left. intros g' y.
  apply similar_fold_left. intros g'' x. apply similar_update_cell.
  apply applyDisturbance_cell_organisms.
Qed.

Lemma similar_apply_disturbances h active0 g :
  similar g (apply_disturbances h active0 g).
Proof.
  unfold apply_disturbances. apply similar_fold_left. intros g' a.
  destruct (nth_error h a); [apply similar_applyDisturbance | apply similar_refl].
Qed.

Lemma similar_addNutrients g p amount : similar g (addNutrients g p amount).
Proof.
  unfold addNutrients. destruct (getCell g p); [| apply similar_refl].
  now apply similar_update_cell.
Qed.

(** ** Where an identifier sits in the grid *)

Lemma congruent_refl g : congruent g g.
Proof. repeat split; auto. Qed.

Lemma congruent_trans g1 g2 g3 : congruent g1 g2 -> congruent g2 g3 -> congruent g1 g3.
Proof.
  intros (Hw1 & Hh1 & H1) (Hw2 & Hh2 & H2).
  split; [congruence | split; [congruence |]].
  intros i j. now rewrite H2, H1.
Qed.

Lemma similar_congruent g g' : similar g g' -> congruent g g'.
Proof.
  intros (Hw & Hh & H). split; [exact Hw | split; [exact Hh |]].
  intros i j. specialize (H i j).
  destruct (cellN (cells g') i j), (cellN (cells g) i j); cbn in H;
    split; intro; congruence.
Qed.

Lemma congruent_update_cell g x y f : congruent g (update_cell g x y f).
Proof.
  split; [reflexivity | split; [reflexivity |]].
  intros i j. rewrite cellN_update_cell.
  destruct (_ && _); [| tauto].
  destruct (cellN (cells g) i j); cbn; split; intro; congruence.
Qed.

Lemma congruent_in_bounds g g' p : congruent g g' -> in_bounds g' p = in_bounds g p.
Proof.
  intros (Hw & Hh & _). unfold in_bounds. now rewrite Hw, Hh.
Qed.

Lemma congruent_rectangular g g' : congruent g g' -> rectangular g -> rectangular g'.
Proof.
  intros Hc Hr p Hp. rewrite (congruent_in_bounds _ _ _ Hc) in Hp.
  specialize (Hr p Hp). unfold getCell in *.
  rewrite (congruent_in_bounds _ _ _ Hc). rewrite Hp in *.
  destruct Hc as (_ & _ & Hc). rewrite cell_at_cellN in *. now rewrite Hc.
Qed.

Lemma similar_idsN g g' i j : similar g g' -> idsN g' i j = idsN g i j.
Proof.
  intros (_ & _ & H). unfold idsN. specialize (H i j).
  destruct (cellN (cells g') i j), (cellN (cells g) i j); cbn in H; congruence.
Qed.

Lemma similar_occ X g g' i j : similar g g' -> occ X g' i j = occ X g i j.
Proof.
  intro H. unfold occ. now rewrite (similar_idsN _ _ _ _ H).
Qed.

Lemma similar_placed X p g g' : similar g g' -> placed X p g -> placed X p g'.
Proof.
  intros Hs [Hb Ho]. split.
  - now rewrite (congruent_in_bounds _ _ _ (similar_congruent _ _ Hs)).
  - intros i j. now rewrite (similar_occ _ _ _ _ _ Hs).
Qed.

Lemma similar_nowhere X g g' : similar g g' -> nowhere X g -> nowhere X g'.
Proof.
  intros Hs Hn i j. now rewrite (similar_occ _ _ _ _ _ Hs).
Qed.

Lemma similar_getCell_organisms g g' p :
  similar g g' ->
  option_map organisms (getCell g' p) = option_map organisms (getCell g p).
Proof.
  intro Hs. unfold getCell.
  rewrite (congruent_in_bounds _ _ _ (similar_congruent _ _ Hs)).
  destruct (in_bounds g p); [| reflexivity].
  rewrite !cell_at_cellN. apply Hs.
Qed.

Lemma idsN_update_cell g x y f i j :
  idsN (update_cell g x y f) i j
  = if Nat.eqb (Z.to_nat x) i && Nat.eqb (Z.to_nat y) j
    then match cellN (cells g) i j with
         | Some c => organisms (f c)
         | None => []
         end
    else idsN g i j.
Proof.
  unfold idsN. rewrite cellN_update_cell.
  destruct (_ && _); [| reflexivity].
  now destruct (cellN (cells g) i j).
Qed.

Lemma count_occ_snoc (l : list string) (k X : string) :
  count_occ string_dec (l ++ [k]) X
  = (count_occ string_dec l X + if string_dec k X then 1 else 0)%nat.
Proof.
  rewrite count_occ_app. cbn. destruct (string_dec k X); reflexivity.
Qed.

Lemma count_occ_remove_first_other (l : list string) (k X : string) :
  k <> X -> count_occ string_dec (remove_first k l) X = count_occ string_dec l X.
Proof.
  intro Hne. induction l as [| y l IH]; cbn; [reflexivity |].
  destruct (String.eqb k y) eqn:E.
  - apply String.eqb_eq in E. subst y.
    destruct (string_dec k X); [contradiction | reflexivity].
  - cbn. now rewrite IH.
Qed.

Lemma count_occ_remove_first_same (l : list string) (X : string) :
  In X l ->
  count_occ string_dec (remove_first X l) X = pred (count_occ string_dec l X).
Proof.
  induction l as [| y l IH]; cbn; [intros [] |].
  destruct (String.eqb X y) eqn:E.
  - apply String.eqb_eq in E. subst y. intros _.
    destruct (string_dec X X); [reflexivity | contradiction].
  - apply String.eqb_neq in E. intros [-> | Hin]; [contradiction |].
    cbn. destruct (string_dec y X); [congruence |]. now apply IH.
Qed.

Lemma includes_In (X : string) (l : list string) : includes X l = true <-> In X l.
Proof.
  unfold includes. rewrite existsb_exists. split.
  - intros (y & Hin & E). apply String.eqb_eq in E. now subst.
  - intro Hin. exists X. split; [exact Hin | apply String.eqb_refl].
Qed.

Lemma occ_push_other X g p k i j :
  k <> X -> occ X (push_organism g p k) i j = occ X g i j.
Proof.
  intro Hne. unfold occ, push_organism. rewrite idsN_update_cell.
  destruct (_ && _); [| reflexivity].
  unfold idsN. destruct (cellN (cells g) i j); [| reflexivity].
  cbn [organisms set_organisms]. rewrite count_occ_snoc.
  destruct (string_dec k X); [contradiction | lia].
Qed.

Lemma occ_addOrganism_other X g o i j :
  id o <> X -> occ X (snd (addOrganism g o)) i j = occ X g i j.
Proof.
  intro Hne. unfold addOrganism.
  destruct (getCell g (position o)); cbn [snd]; [| reflexivity].
  now apply occ_push_other.
Qed.

Lemma occ_removeOrganism_other X g k p i j :
  k <> X -> occ X (snd (removeOrganism g k p)) i j = occ X g i j.
Proof.
  intro Hne. unfold removeOrganism.
  destruct (getCell g p); cbn [snd]; [| reflexivity].
  destruct (includes k (organisms c)); cbn [snd]; [| reflexivity].
  unfold occ. rewrite idsN_update_cell.
  destruct (_ && _); [| reflexivity].
  unfold idsN. destruct (cellN (cells g) i j); [| reflexivity].
  cbn [organisms set_organisms]. now apply count_occ_remove_first_other.
Qed.

Lemma congruent_push g p k : congruent g (push_organism g p k).
Proof. apply congruent_update_cell. Qed.

Lemma congruent_addOrganism g o : congruent g (snd (addOrganism g o)).
Proof.
  unfold addOrganism. destruct (getCell g (position o)); cbn [snd];
    [apply congruent_push | apply congruent_refl].
Qed.

Lemma congruent_removeOrganism g k p : congruent g (snd (removeOrganism g k p)).
Proof.
  unfold removeOrganism. destruct (getCell g p); cbn [snd]; [| apply congruent_refl].
  destruct (includes k (organisms c)); cbn [snd];
    [apply congruent_update_cell | apply congruent_refl].
Qed.

Lemma congruent_moveOrganism g k p q : congruent g (snd (moveOrganism g k p q)).
Proof.
  unfold moveOrganism.
  destruct (_ || _); cbn [snd]; [apply congruent_refl |].
  pose proof (congruent_removeOrganism g k p) as Hr.
  destruct (removeOrganism g k p) as [removed g1]. cbn [snd] in Hr.
  destruct removed; cbn [negb snd]; [| exact Hr].
  destruct (getCell g1 q); cbn [snd]; [| exact Hr].
  eapply congruent_trans; [exact Hr | apply congruent_push].
Qed.

Lemma occ_moveOrganism_other X g k p q i j :
  k <> X -> occ X (snd (moveOrganism g k p q)) i j = occ X g i j.
Proof.
  intro Hne. unfold moveOrganism.
  destruct (_ || _); cbn [snd]; [reflexivity |].
  pose proof (occ_removeOrganism_other X g k p i j Hne) as Hr.
  destruct (removeOrganism g k p) as [removed g1]. cbn [snd] in Hr.
  destruct removed; cbn [negb snd]; [| exact Hr].
  destruct (getCell g1 q); cbn [snd]; [| exact Hr].
  now rewrite occ_push_other.
Qed.

Lemma in_bounds_at_index g p q :
  in_bounds g p = true -> in_bounds g q = true ->
  at_index p (Z.to_nat (px q)) (Z.to_nat (py q)) = true -> p = q.
Proof.
  unfold in_bounds, at_index. intros Hp Hq Hi.
  repeat (apply andb_true_iff in Hp; destruct Hp as [Hp ?]).
  repeat (apply andb_true_iff in Hq; destruct Hq as [Hq ?]).
  apply andb_true_iff in Hi. destruct Hi as [Hx Hy].
  apply Nat.eqb_eq in Hx, Hy.
  repeat match goal with
         | H : (_ <? _)%Z = true |- _ => apply Z.ltb_lt in H
         | H : (_ <=? _)%Z = true |- _ => apply Z.leb_le in H
         end.
  destruct p as [x1 y1], q as [x2 y2]. cbn in *. f_equal; lia.
Qed.

Lemma at_index_self p : at_index p (Z.to_nat (px p)) (Z.to_nat (py p)) = true.
Proof. unfold at_index. now rewrite !Nat.eqb_refl. Qed.

Lemma placed_getCell X p g :
  placed X p g -> exists c, getCell g p = Some c /\ In X (organisms c).
Proof.
  intros [Hb Ho]. specialize (Ho (Z.to_nat (px p)) (Z.to_nat (py p))).
  rewrite at_index_self in Ho. unfold getCell. rewrite Hb, cell_at_cellN.
  unfold occ, idsN in Ho.
  destruct (cellN (cells g) (Z.to_nat (px p)) (Z.to_nat (py p))) as [c |];
    [| discriminate].
  exists c. split; [reflexivity |].
  apply (count_occ_In string_dec). lia.
Qed.

Lemma nowhere_getCell X g p c : nowhere X g -> getCell g p = Some c -> ~ In X (organisms c).
Proof.
  intros Hn Hc. unfold getCell in Hc.
  destruct (in_bounds g p); [| discriminate].
  rewrite cell_at_cellN in Hc.
  specialize (Hn (Z.to_nat (px p)) (Z.to_nat (py p))).
  unfold occ, idsN in Hn. rewrite Hc in Hn.
  intro Hin. apply (count_occ_In string_dec) in Hin. lia.
Qed.

(** Removing [X] from the cell it is placed in leaves it nowhere. *)
Lemma removeOrganism_placed X p g :
  placed X p g -> nowhere X (snd (removeOrganism g X p)).
Proof.
  intro Hpl. destruct (placed_getCell _ _ _ Hpl) as (c & Hc & Hin).
  destruct Hpl as [Hb Ho].
  unfold removeOrganism. rewrite Hc.
  apply includes_In in Hin. rewrite Hin. cbn [snd].
  intros i j. unfold occ. rewrite idsN_update_cell. fold (at_index p i j).
  specialize (Ho i j). unfold occ in Ho.
  destruct (at_index p i j); [| exact Ho].
  unfold idsN in Ho. destruct (cellN (cells g) i j) as [c' |]; [| reflexivity].
  cbn [organisms set_organisms].
  rewrite count_occ_remove_first_same.
  - now rewrite Ho.
  - apply (count_occ_In string_dec). lia.
Qed.

(** Moving [X] from the cell it is placed in to a cell of a rectangular
    grid places it there. *)
Lemma moveOrganism_placed X p q g :
  rectangular g -> placed X p g -> in_bounds g q = true ->
  placed X q (snd (moveOrganism g X p q)).
Proof.
  intros Hrect Hpl Hq.
  pose proof (removeOrganism_placed X p g Hpl) as Hrem.
  pose proof (congruent_removeOrganism g X p) as Hcong.
  destruct (placed_getCell _ _ _ Hpl) as (c & Hc & Hin).
  unfold moveOrganism.
  assert (Hout : ((px q <? 0)%Z || (grid_width g <=? px q)%Z ||
                  (py q <? 0)%Z || (grid_height g <=? py q)%Z) = false).
  { unfold in_bounds in Hq.
    repeat (apply andb_true_iff in Hq; destruct Hq as [Hq ?]).
    repeat match goal with
           | H : (_ <? _)%Z = true |- _ => apply Z.ltb_lt in H
           | H : (_ <=? _)%Z = true |- _ => apply Z.leb_le in H
           end.
    repeat (apply orb_false_iff; split);
      first [apply Z.ltb_ge; lia | apply Z.leb_gt; lia]. }
  rewrite Hout.
  assert (Hremoved : fst (removeOrganism g X p) = true).
  { unfold removeOrganism. rewrite Hc. apply includes_In in Hin. now rewrite Hin. }
  destruct (removeOrganism g X p) as [removed g1]. cbn [fst snd] in *. subst removed.
  cbn [negb].
  assert (Hq1 : in_bounds g1 q = true) by (now rewrite (congruent_in_bounds _ _ _ Hcong)).
  pose proof (congruent_rectangular _ _ Hcong Hrect q Hq1) as Hcell.
  destruct (getCell g1 q) as [c1 |] eqn:Hc1; [| contradiction]. cbn [snd].
  split.
  - now rewrite (congruent_in_bounds _ _ _ (congruent_push g1 q X)).
  - intros i j. unfold occ, push_organism. rewrite idsN_update_cell.
    fold (at_index q i j). specialize (Hrem i j). unfold occ in Hrem.
    destruct (at_index q i j) eqn:Hat; [| exact Hrem].
    unfold idsN in Hrem.
    destruct (cellN (cells g1) i j) as [c' |] eqn:Hc'.
    + cbn [organisms set_organisms]. rewrite count_occ_snoc, Hrem.
      destruct (string_dec X X); [reflexivity | contradiction].
    + exfalso. unfold getCell in Hc1. rewrite Hq1, cell_at_cellN in Hc1.
      unfold at_index in Hat. apply andb_true_iff in Hat. destruct Hat as [Hx Hy].
      apply Nat.eqb_eq in Hx, Hy. subst i j. congruence.
Qed.

(** ** Constructors and methods keep the identifier *)

Lemma Organism_new_id (a : PartialAttributes) (k : string) (s : Src) :
  o_id a = Some k -> k <> "" ->
  id (fst (Organism_new a s)) = k /\ snd (Organism_new a s) = s.
Proof.
  intros Ha Hk. unfold Organism_new, bind, ret. rewrite Ha.
  destruct k; [contradiction |]. cbn. now split.
Qed.

Lemma Producer_new_stored (a : Attributes) (s : Src) :
  id (base a) <> "" ->
  id (p_org (fst (Producer_new (as_partial a) s))) = id (base a) /\
  position (p_org (fst (Producer_new (as_partial a) s))) = position (base a) /\
  isDead (p_org (fst (Producer_new (as_partial a) s))) = isDead (base a) /\
  snd (Producer_new (as_partial a) s) = s.
Proof.
  intro Hk. unfold Producer_new, bind, ret. cbv zeta.
  match goal with
  | |- context [Organism_new ?pa s] =>
      destruct (Organism_new_id pa (id (base a)) s eq_refl Hk) as [Hid Hs]
  end.
  cbn [fst snd p_org]. rewrite Hs. split; [exact Hid |].
  split; [reflexivity |]. split; [| reflexivity].
  cbn. now destruct (isDead (base a)).
Qed.

Lemma Consumer_new_stored (a : Attributes) (s : Src) :
  id (base a) <> "" ->
  id (c_org (fst (Consumer_new (as_partial a) s))) = id (base a) /\
  position (c_org (fst (Consumer_new (as_partial a) s))) = position (base a) /\
  isDead (c_org (fst (Consumer_new (as_partial a) s))) = isDead (base a) /\
  snd (Consumer_new (as_partial a) s) = s.
Proof.
  intro Hk. unfold Consumer_new, bind, ret. cbv zeta.
  match goal with
  | |- context [Organism_new ?pa s] =>
      destruct (Organism_new_id pa (id (base a)) s eq_refl Hk) as [Hid Hs]
  end.
  cbn [fst snd c_org]. rewrite Hs. split; [exact Hid |].
  split; [reflexivity |]. split; [| reflexivity].
  cbn. now destruct (isDead (base a)).
Qed.

Lemma Decomposer_new_stored (a : Attributes) (s : Src) :
  id (base a) <> "" ->
  id (d_org (fst (Decomposer_new (as_partial a) s))) = id (base a) /\
  position (d_org (fst (Decomposer_new (as_partial a) s))) = position (base a) /\
  isDead (d_org (fst (Decomposer_new (as_partial a) s))) = isDead (base a) /\
  snd (Decomposer_new (as_partial a) s) = s.
Proof.
  intro Hk. unfold Decomposer_new, bind, ret. cbv zeta.
  match goal with
  | |- context [Organism_new ?pa s] =>
      destruct (Organism_new_id pa (id (base a)) s eq_refl Hk) as [Hid Hs]
  end.
  cbn [fst snd d_org]. rewrite Hs. split; [exact Hid |].
  split; [reflexivity |]. split; [| reflexivity].
  cbn. now destruct (isDead (base a)).
Qed.

Lemma Organism_update_keeps (o : Organism) :
  id (Organism_update o) = id o /\ position (Organism_update o) = position o.
Proof.
  unfold Organism_update.
  destruct (Qle_bool _ _); [now split |].
  destruct (Qle_bool _ _); now split.
Qed.

(** The base update kills exactly the organisms that have reached their
    maximal age or run out of energy, and never revives one. *)
Lemma Organism_update_isDead (o : Organism) :
  isDead (Organism_update o)
  = Qle_bool (maxAge o) (age o + 1) || Qle_bool (energy o) 0 || isDead o.
Proof.
  unfold Organism_update. cbn [maxAge age energy set_age].
  destruct (Qle_bool (maxAge o) (age o + 1)); [reflexivity |].
  destruct (Qle_bool (energy o) 0); reflexivity.
Qed.

Lemma Producer_update_keeps (p : Producer) env n w :
  id (p_org (Producer_update p env n w)) = id (p_org p) /\
  position (p_org (Producer_update p env n w)) = position (p_org p) /\
  isDead (p_org (Producer_update p env n w)) = isDead (Organism_update (p_org p)).
Proof.
  unfold Producer_update.
  destruct (Organism_update_keeps (p_org p)) as [Hid Hpos].
  destruct (isDead (Organism_update (p_org p))) eqn:E; cbn [p_org Producer_with_org].
  - now rewrite Hid, Hpos, E.
  - destruct (_ && _); cbn; now rewrite Hid, Hpos, E.
Qed.

Lemma Consumer_update_keeps (c : Consumer) env :
  id (c_org (Consumer_update c env)) = id (c_org c) /\
  position (c_org (Consumer_update c env)) = position (c_org c) /\
  isDead (c_org (Consumer_update c env)) = isDead (Organism_update (c_org c)).
Proof.
  unfold Consumer_update.
  destruct (Organism_update_keeps (c_org c)) as [Hid Hpos].
  destruct (isDead (Organism_update (c_org c))) eqn:E; cbn; now rewrite Hid, Hpos, E.
Qed.

Lemma Decomposer_update_keeps (d : Decomposer) env n :
  id (d_org (snd (Decomposer_update d env n))) = id (d_org d) /\
  position (d_org (snd (Decomposer_update d env n))) = position (d_org d) /\
  isDead (d_org (snd (Decomposer_update d env n))) = isDead (Organism_update (d_org d)).
Proof.
  unfold Decomposer_update.
  destruct (Organism_update_keeps (d_org d)) as [Hid Hpos].
  destruct (isDead (Organism_update (d_org d))) eqn:E; cbn [snd d_org Decomposer_with_org].
  - now rewrite Hid, Hpos, E.
  - destruct (_ && _); cbn; now rewrite Hid, Hpos, E.
Qed.

Lemma eat_keeps (c : Consumer) (prey : Organism) (s : Src) :
  let res := fst (eat c prey s) in
  id (c_org (snd (fst res))) = id (c_org c) /\
  position (c_org (snd (fst res))) = position (c_org c) /\
  isDead (c_org (snd (fst res))) = isDead (c_org c) /\
  id (snd res) = id prey.
Proof.
  cbv zeta. unfold eat.
  destruct (isDead (c_org c) || isDead prey); [cbn; now repeat split |].
  unfold bind, ret. cbn [fst snd].
  destruct (JS.ltb _ _); cbn; now repeat split.
Qed.

Lemma decompose_keeps (d : Decomposer) (o : Organism) :
  id (d_org (snd (decompose d o))) = id (d_org d) /\
  position (d_org (snd (decompose d o))) = position (d_org d) /\
  isDead (d_org (snd (decompose d o))) = isDead (d_org d).
Proof.
  unfold decompose. destruct (isDead (d_org d)) eqn:E; cbn; now rewrite ?E.
Qed.

(** The offspring is named by the next identifier of the source. *)
Lemma reproduce_keeps (o : Organism) (s : Src) :
  let r := fst (reproduce o s) in
  id (fst r) = uuids s 0%nat /\
  id (snd r) = id o /\ position (snd r) = position o /\ isDead (snd r) = isDead o.
Proof.
  cbv zeta. unfold reproduce, bind, ret, Organism_new, Math_random, uuidv4. cbn.
  now repeat split.
Qed.

(** ** What one visit may change *)

Ltac loop_simpl :=
  cbn [newOrganisms deadOrganisms positionChanges newOrganismsToAdd
       deadOrganismsCounts grid set_newOrganisms set_deadOrganisms
       set_positionChanges set_newOrganismsToAdd set_deadOrganismsCounts
       set_grid fst snd] in *.

Section Frame.

(** [R]: the identifiers the source of the cycle can hand out; [X]: the
    organism that is followed; [own]: whether the entry being visited is
    the one of [X]. *)
Variable R : string -> Prop.
Variable X : string.
Variable own : bool.

Local Abbreviation draws_in := (draws_in R).
Local Abbreviation post := (post R).
Local Abbreviation rel := (rel R X own).
Local Abbreviation rel_wf := (rel_wf R X own).
Local Abbreviation rel_add := (rel_add R X own).
Local Abbreviation rel_grid := (rel_grid R X own).
Local Abbreviation rel_dead := (rel_dead R X own).
Local Abbreviation rel_moves := (rel_moves R X own).
Local Abbreviation rel_table := (rel_table R X own).
Local Abbreviation rel_nodup := (rel_nodup R X own).
Local Abbreviation move_outcome := (move_outcome R X own).
Local Abbreviation eater_outcome := (eater_outcome R X own).
Local Abbreviation feeder_outcome := (feeder_outcome R X own).

Lemma draws_in_later (s' s : Src) : later s' s -> draws_in s -> draws_in s'.
Proof.
  intros [m Hm] Hs n. rewrite Hm. apply Hs.
Qed.

Lemma post_ret {A : Type} (a : A) (Q : A -> Prop) : Q a -> post (ret a) Q.
Proof. intros H s _. exact H. Qed.

Lemma post_bind {A B : Type} (c : M A) (f : A -> M B) (Q : A -> Prop) (Q' : B -> Prop) :
  forward c -> post c Q -> (forall a, Q a -> post (f a) Q') -> post (bind c f) Q'.
Proof.
  intros Hfw Hc Hf s Hs. unfold bind. cbv zeta.
  apply Hf; [now apply Hc |]. eapply draws_in_later; [apply Hfw | exact Hs].
Qed.

Lemma post_weaken {A : Type} (c : M A) (Q Q' : A -> Prop) :
  post c Q -> (forall a, Q a -> Q' a) -> post c Q'.
Proof. intros Hc HQ s Hs. apply HQ. now apply Hc. Qed.

Lemma rel_refl (l : Loop) : rel l l.
Proof.
  constructor; auto using similar_refl, incl_refl.
Qed.

Lemma rel_trans (l1 l2 l3 : Loop) : rel l1 l2 -> rel l2 l3 -> rel l1 l3.
Proof.
  intros [W1 A1 G1 D1 M1 T1 N1] [W2 A2 G2 D2 M2 T2 N2]. constructor.
  - auto.
  - intros o Ho. destruct (A2 o Ho) as [H | H]; auto.
  - eapply similar_trans; eauto.
  - eapply incl_tran; eauto.
  - intro Hk. now rewrite M2, M1.
  - intros Hk a Ha Hd. apply T2; auto.
  - auto.
Qed.

Ltac unchanged_case :=
  unfold ret; cbn [fst snd]; split; [apply rel_refl | repeat split; auto].

Lemma rel_handle_reproduction (o : Organism) (r : Z) (l : Loop) :
  post (handle_reproduction o r l)
    (fun res =>
       rel l (snd res) /\
       id (fst res) = id o /\ position (fst res) = position o /\
       isDead (fst res) = isDead o /\
       newOrganisms (snd res) = newOrganisms l /\
       positionChanges (snd res) = positionChanges l /\
       deadOrganisms (snd res) = deadOrganisms l).
Proof.
  intros s Hs. unfold handle_reproduction, bind. cbv zeta.
  destruct (fst (canReproduce o s)); [| unchanged_case].
  destruct (fst (findAvailablePosition (grid l) (position o) r (snd (canReproduce o s))))
    as [p |]; [| unchanged_case].
  set (s1 := snd (findAvailablePosition (grid l) (position o) r (snd (canReproduce o s)))).
  destruct (reproduce_keeps o s1) as (Hoff & Hid & Hpos & Hdead).
  unfold ret. cbn [fst snd].
  assert (Hs1 : draws_in s1).
  { eapply draws_in_later; [| exact Hs]. unfold s1.
    eapply later_trans; [apply forward_findAvailablePosition | apply forward_canReproduce]. }
  split; [| repeat split; auto].
  constructor; loop_simpl; auto using similar_refl, incl_refl.
  intros o' Ho'. apply in_app_or in Ho'.
  destruct Ho' as [Ho' | [<- | []]]; [now left | right].
  cbn [id set_position]. rewrite Hoff. apply Hs1.
Qed.

Lemma rel_consumer_move (env : EnvironmentConfig) (o : Organism) (l : Loop) :
  (own = false -> id o <> X) ->
  post (consumer_move env o l) (move_outcome env o l).
Proof.
  intros Hk s Hs. unfold move_outcome, consumer_move, bind. cbv zeta.
  destruct (Qlt_bool (fst (Math_random s)) 0.8); [| unchanged_case].
  set (validMoves := filter (in_config env) (map (shifted (position o)) offsets)).
  assert (Hvalid : forall q, In q validMoves -> in_config env q = true).
  { intros q Hq. unfold validMoves in Hq. apply filter_In in Hq. tauto. }
  destruct validMoves as [| q0 rest] eqn:Ev; [unchanged_case |].
  rewrite <- Ev in *. clear Ev.
  destruct (pick (fst (Math_random (snd (Math_random s)))) validMoves) as [q |] eqn:Ep;
    [| unchanged_case].
  unfold ret. cbn [fst snd].
  assert (Hq : in_config env q = true).
  { apply Hvalid. unfold pick in Ep. eapply nth_error_In. exact Ep. }
  split; [| repeat split; auto].
  - constructor; loop_simpl; auto using similar_refl, incl_refl, NoDup_keys_assign.
    intro Hne. apply lookup_assign_other. auto.
  - right. exists q. now repeat split.
Qed.

Lemma rel_decomposer_move (env : EnvironmentConfig) (o : Organism) (l : Loop) :
  (own = false -> id o <> X) ->
  post (decomposer_move env o l) (move_outcome env o l).
Proof.
  intros Hk s Hs. unfold move_outcome, decomposer_move, bind. cbv zeta.
  destruct (Qlt_bool (fst (Math_random s)) 0.4); [| unchanged_case].
  match goal with
  | |- context [flat_map ?f ?cands] => set (validMoves := flat_map f cands)
  end.
  assert (Hvalid : forall q, In q validMoves -> in_config env q = true).
  { intros q Hq. unfold validMoves in Hq. apply in_flat_map in Hq.
    destruct Hq as (q' & Hq' & Hrep). apply repeat_spec in Hrep. subst q.
    apply filter_In in Hq'. tauto. }
  destruct validMoves as [| q0 rest] eqn:Ev; [unchanged_case |].
  rewrite <- Ev in *. clear Ev.
  destruct (pick (fst (Math_random (snd (Math_random s)))) validMoves) as [q |] eqn:Ep;
    [| unchanged_case].
  unfold ret. cbn [fst snd].
  assert (Hq : in_config env q = true).
  { apply Hvalid. unfold pick in Ep. eapply nth_error_In. exact Ep. }
  split; [| repeat split; auto].
  - constructor; loop_simpl; auto using similar_refl, incl_refl, NoDup_keys_assign.
    intro Hne. apply lookup_assign_other. auto.
  - right. exists q. now repeat split.
Qed.

Lemma eater_outcome_refl (consumer : Consumer) (l : Loop) :
  eater_outcome consumer l (consumer, l).
Proof. unfold eater_outcome. cbn [fst snd]. split; [apply rel_refl | repeat split; auto]. Qed.

(** A feeding attempt rewrites at most the entry of a living target. *)
Lemma rel_try_eat (consumer : Consumer) (radius : Z) (wanted : Attributes -> bool)
    (rebuild : Attributes -> M (Organism * (Organism -> Attributes))) (l : Loop) :
  (forall a, wanted a = true -> isDead (base a) = false) ->
  (forall target s, id (base target) <> "" ->
     id (fst (fst (rebuild target s))) = id (base target) /\
     forall o', base (snd (fst (rebuild target s)) o') = o') ->
  post (try_eat consumer radius wanted rebuild l) (eater_outcome consumer l).
Proof.
  intros Hwanted Hrebuild s Hs. unfold try_eat.
  match goal with
  | |- context [filter ?f ?cands] => set (nearby := filter f cands)
  end.
  assert (Hnear : forall i, In i nearby ->
            exists a, lookup i (newOrganisms l) = Some a /\ wanted a = true).
  { intros i Hi. unfold nearby in Hi. apply filter_In in Hi. destruct Hi as [_ Hi].
    destruct (lookup i (newOrganisms l)) as [a |]; [| discriminate]. eauto. }
  destruct nearby as [| i0 rest] eqn:En; [apply eater_outcome_refl |].
  rewrite <- En in *. clear En.
  unfold bind. cbv zeta.
  destruct (pick (fst (Math_random s)) nearby) as [targetId |] eqn:Ep;
    [| apply eater_outcome_refl].
  assert (Hin : In targetId nearby) by (unfold pick in Ep; eapply nth_error_In; exact Ep).
  destruct (Hnear _ Hin) as (target & Hlook & Hw). rewrite Hlook.
  destruct (canEat consumer (base target)); [| apply eater_outcome_refl].
  set (s1 := snd (Math_random s)).
  set (inst := fst (rebuild target s1)).
  set (res := fst (eat consumer (fst inst) (snd (rebuild target s1)))).
  destruct (eat_keeps consumer (fst inst) (snd (rebuild target s1)))
    as (Hid & Hpos & Hdead & Hprey).
  fold res in Hid, Hpos, Hdead, Hprey.
  unfold ret, eater_outcome. cbn [fst snd].
  split; [| repeat split; auto].
  constructor; loop_simpl; auto using similar_refl, incl_refl.
  - intro Hwf. destruct (table_wf_lookup _ _ _ Hwf Hlook) as [Hidt Hne].
    assert (Hne' : id (base target) <> "") by congruence.
    destruct (Hrebuild target s1 Hne') as [Hid1 Hbase].
    fold inst in Hid1, Hbase.
    apply table_wf_assign; auto. rewrite Hbase, Hprey. congruence.
  - intros _ a Ha Hd. rewrite lookup_assign_other; [exact Ha |].
    intros ->. rewrite Ha in Hlook. injection Hlook as <-.
    apply Hwanted in Hw. congruence.
Qed.

Lemma rebuild_producer_spec (target : Attributes) (s : Src) :
  id (base target) <> "" ->
  id (fst (fst (rebuild_producer target s))) = id (base target) /\
  forall o', base (snd (fst (rebuild_producer target s)) o') = o'.
Proof.
  intro Hne. unfold rebuild_producer, bind, ret. cbn [fst snd].
  destruct (Producer_new_stored target s Hne) as (Hid & _). now split.
Qed.

Lemma rebuild_consumer_spec (target : Attributes) (s : Src) :
  id (base target) <> "" ->
  id (fst (fst (rebuild_consumer target s))) = id (base target) /\
  forall o', base (snd (fst (rebuild_consumer target s)) o') = o'.
Proof.
  intro Hne. unfold rebuild_consumer, bind, ret. cbn [fst snd].
  destruct (Consumer_new_stored target s Hne) as (Hid & _). now split.
Qed.

Lemma feeder_outcome_refl (decomposer : Decomposer) (l : Loop) :
  feeder_outcome decomposer l (decomposer, l).
Proof. unfold feeder_outcome. cbn [fst snd]. split; [apply rel_refl | repeat split; auto]. Qed.

Lemma rel_decomposer_feed (decomposer : Decomposer) (deadCount : Z) (cell : Cell)
    (l : Loop) :
  post (decomposer_feed decomposer deadCount cell l) (feeder_outcome decomposer l).
Proof.
  intros s Hs. unfold decomposer_feed.
  destruct (0 <? deadCount)%Z; [| apply feeder_outcome_refl].
  match goal with
  | |- context [filter ?f ?cands] => destruct (filter f cands) as [| i0 rest] eqn:En
  end; [apply feeder_outcome_refl |].
  unfold bind. cbv zeta.
  match goal with
  | |- context [pick ?r ?cands] => destruct (pick r cands) as [targetId |]
  end; [| apply feeder_outcome_refl].
  destruct (lookup targetId (newOrganisms l)) as [target |];
    [| apply feeder_outcome_refl].
  destruct (decompose_keeps decomposer (base target)) as (Hid & Hpos & Hdead).
  unfold ret, feeder_outcome. cbn [fst snd].
  destruct (includes targetId _); loop_simpl.
  - split; [| repeat split; auto].
    constructor; loop_simpl; auto using similar_addNutrients, incl_refl.
  - split; [| repeat split; auto].
    constructor; loop_simpl; auto using similar_addNutrients.
    apply incl_appl, incl_refl.
Qed.

(** *** The three kinds of visit *)

Lemma rel_assign_own (key : string) (a : Attributes) (l : Loop) :
  (own = false -> key <> X) -> id (base a) = key -> key <> "" ->
  rel l (set_newOrganisms l (assign key a (newOrganisms l))).
Proof.
  intros Hk Hid Hne. constructor; loop_simpl; auto using similar_refl, incl_refl.
  - intro Hwf. now apply table_wf_assign.
  - intros Ho a' Ha' _. rewrite lookup_assign_other; auto.
Qed.

Lemma rel_step_producer env (key : string) (organism : Attributes) (cell : Cell)
    (l : Loop) :
  (own = false -> key <> X) -> id (base organism) = key -> key <> "" ->
  post (step_producer env key organism cell l) (rel l).
Proof.
  intros Hk Hid Hne. unfold step_producer.
  apply post_bind with (Q := fun p => id (p_org p) = key);
    [apply forward_Producer_new | |].
  { intros s _. destruct (Producer_new_stored organism s) as (H & _); congruence. }
  intros producer Hp. cbv zeta.
  set (producer' := Producer_update producer env _ _).
  assert (Hid' : id (p_org producer') = key).
  { unfold producer'. destruct (Producer_update_keeps producer env
      (cell_nutrientLevel cell) (cell_waterLevel cell)) as (H & _). congruence. }
  set (l1 := set_newOrganisms l _).
  assert (H1 : rel l l1) by (apply rel_assign_own; auto).
  eapply post_bind; [apply forward_handle_reproduction
                    | apply rel_handle_reproduction |].
  intros res (Hrel & _). apply post_ret. eapply rel_trans; eauto.
Qed.

Lemma rel_step_consumer env (key : string) (organism : Attributes) (l : Loop) :
  (own = false -> key <> X) -> id (base organism) = key -> key <> "" ->
  post (step_consumer env key organism l) (rel l).
Proof.
  intros Hk Hid Hne. unfold step_consumer.
  apply post_bind with (Q := fun c => id (c_org c) = key);
    [apply forward_Consumer_new | |].
  { intros s _. destruct (Consumer_new_stored organism s) as (H & _); congruence. }
  intros consumer0 Hc0. cbv zeta.
  set (consumer1 := Consumer_update consumer0 env).
  assert (Hc1 : id (c_org consumer1) = key).
  { unfold consumer1. destruct (Consumer_update_keeps consumer0 env) as (H & _).
    congruence. }
  eapply post_bind; [apply forward_consumer_move | apply rel_consumer_move |].
  { intro Ho. rewrite Hc1. auto. }
  intros r1 (Hrel1 & Hid1 & _).
  apply post_bind
    with (Q := fun r => rel l (snd r) /\ id (c_org (fst r)) = key).
  { destruct (negb _); [apply forward_try_eat; auto with forward | apply forward_ret]. }
  { destruct (negb _).
    - eapply post_weaken.
      + apply rel_try_eat; [| apply rebuild_producer_spec].
        intros a Ha. apply andb_true_iff in Ha. destruct Ha as [_ Ha].
        now apply negb_true_iff in Ha.
      + intros res (Hrel & Hidr & _). split; [eapply rel_trans; eauto |].
        rewrite Hidr. cbn [c_org Consumer_with_org]. congruence.
    - apply post_ret. cbn [fst snd]. split; [exact Hrel1 |].
      cbn [c_org Consumer_with_org]. congruence. }
  intros r2 (Hrel2 & Hid2).
  apply post_bind
    with (Q := fun r => rel l (snd r) /\ id (c_org (fst r)) = key).
  { destruct (negb _); [apply forward_try_eat; auto with forward | apply forward_ret]. }
  { destruct (negb _).
    - eapply post_weaken.
      + apply rel_try_eat; [| apply rebuild_consumer_spec].
        intros a Ha. apply andb_true_iff in Ha. destruct Ha as [_ Ha].
        now apply negb_true_iff in Ha.
      + intros res (Hrel & Hidr & _). split; [eapply rel_trans; eauto |]. congruence.
    - apply post_ret. now split. }
  intros r3 (Hrel3 & Hid3).
  eapply post_bind; [apply forward_handle_reproduction
                    | apply rel_handle_reproduction |].
  intros r4 (Hrel4 & Hid4 & _). apply post_ret.
  eapply rel_trans; [exact Hrel3 |]. eapply rel_trans; [exact Hrel4 |].
  apply rel_assign_own; auto.
  cbn [base Consumer_getAttributes c_org Consumer_with_org]. congruence.
Qed.

Lemma rel_step_decomposer env (key : string) (organism : Attributes) (cell : Cell)
    (l : Loop) :
  (own = false -> key <> X) -> id (base organism) = key -> key <> "" ->
  post (step_decomposer env key organism cell l) (rel l).
Proof.
  intros Hk Hid Hne. unfold step_decomposer.
  apply post_bind with (Q := fun d => id (d_org d) = key);
    [apply forward_Decomposer_new | |].
  { intros s _. destruct (Decomposer_new_stored organism s) as (H & _); congruence. }
  intros decomposer0 Hd0. cbv zeta.
  match goal with
  | |- context [Decomposer_update decomposer0 env ?n] =>
      set (u := Decomposer_update decomposer0 env n);
      destruct (Decomposer_update_keeps decomposer0 env n) as (Hd1 & _);
      fold u in Hd1
  end.
  match goal with
  | |- context [if Qlt_bool 0 (fst u) then ?a else ?b] =>
      set (l1 := if Qlt_bool 0 (fst u) then a else b)
  end.
  assert (H1 : rel l l1).
  { unfold l1. destruct (Qlt_bool 0 (fst u)); [| apply rel_refl].
    constructor; loop_simpl; auto using similar_addNutrients, incl_refl. }
  eapply post_bind; [apply forward_decomposer_move | apply rel_decomposer_move |].
  { intro Ho. rewrite Hd1, Hd0. auto. }
  intros r1 (Hrel1 & Hid1 & _).
  eapply post_bind; [apply forward_decomposer_feed | apply rel_decomposer_feed |].
  intros r2 (Hrel2 & Hid2 & _).
  eapply post_bind; [apply forward_handle_reproduction
                    | apply rel_handle_reproduction |].
  intros r3 (Hrel3 & Hid3 & _). apply post_ret.
  eapply rel_trans; [exact H1 |]. eapply rel_trans; [exact Hrel1 |].
  eapply rel_trans; [exact Hrel2 |]. eapply rel_trans; [exact Hrel3 |].
  apply rel_assign_own; auto.
  cbn [base Decomposer_getAttributes d_org Decomposer_with_org] in *. congruence.
Qed.

(** A visit of any entry whose key is its non-empty identifier. *)
Lemma rel_step_organism env (l : Loop) (entry : string * Attributes) :
  (own = false -> isDead (base (snd entry)) = false -> fst entry <> X) ->
  id (base (snd entry)) = fst entry -> fst entry <> "" ->
  post (step_organism env l entry) (rel l).
Proof.
  intros Hk Hid Hne. unfold step_organism. cbv zeta.
  destruct (isDead (base (snd entry))) eqn:Edead.
  - apply post_ret. constructor; loop_simpl; auto using similar_refl.
    apply incl_appl, incl_refl.
  - destruct (getCell (grid l) (position (base (snd entry)))) as [cell |];
      [| apply post_ret, rel_refl].
    destruct (type (base (snd entry))).
    + apply rel_step_producer; auto.
    + apply rel_step_consumer; auto.
    + apply rel_step_decomposer; auto.
Qed.

(** The whole pass, when every living entry is one of another organism. *)
Lemma rel_foldM env (entries : Table) :
  (forall k a, In (k, a) entries ->
     id (base a) = k /\ k <> "" /\
     (own = false -> isDead (base a) = false -> k <> X)) ->
  forall l, post (foldM (step_organism env) entries l) (rel l).
Proof.
  induction entries as [| [k a] entries IH]; intros Hall l; cbn [foldM].
  - apply post_ret, rel_refl.
  - destruct (Hall k a (or_introl eq_refl)) as (Hid & Hne & Hk).
    eapply post_bind; [apply forward_step_organism | apply rel_step_organism; auto |].
    intros l1 H1. eapply post_weaken.
    + apply IH. intros k' a' Hin. apply Hall. now right.
    + intros l2 H2. eapply rel_trans; eauto.
Qed.

End Frame.

(** ** The visit of an organism that is about to die *)

Lemma Producer_new_doomed (a : Attributes) (s : Src) :
  doomed (base a) = true ->
  isDead (Organism_update (p_org (fst (Producer_new (as_partial a) s)))) = true.
Proof.
  intro H. rewrite Organism_update_isDead.
  unfold Producer_new, Organism_new, bind, ret.
  cbn -[JS.or_num JS.or_bool Qle_bool Qplus].
  unfold doomed in H. rewrite H. reflexivity.
Qed.

Lemma Consumer_new_doomed (a : Attributes) (s : Src) :
  doomed (base a) = true ->
  isDead (Organism_update (c_org (fst (Consumer_new (as_partial a) s)))) = true.
Proof.
  intro H. rewrite Organism_update_isDead.
  unfold Consumer_new, Organism_new, bind, ret.
  cbn -[JS.or_num JS.or_bool Qle_bool Qplus].
  unfold doomed in H. rewrite H. reflexivity.
Qed.

Lemma Decomposer_new_doomed (a : Attributes) (s : Src) :
  doomed (base a) = true ->
  isDead (Organism_update (d_org (fst (Decomposer_new (as_partial a) s)))) = true.
Proof.
  intro H. rewrite Organism_update_isDead.
  unfold Decomposer_new, Organism_new, bind, ret.
  cbn -[JS.or_num JS.or_bool Qle_bool Qplus].
  unfold doomed in H. rewrite H. reflexivity.
Qed.

Section Visit.

Variable R : string -> Prop.
Variable env : EnvironmentConfig.
Variable key : string.
Variable p0 : Position.
Variable l0 : Loop.

Local Abbreviation carried := (carried env key p0 l0).
Local Abbreviation visited := (visited env key p0 l0).

Lemma carried_same (o o' : Organism) (l l' : Loop) :
  carried o l -> id o' = id o -> isDead o' = isDead o -> position o' = position o ->
  positionChanges l' = positionChanges l -> carried o' l'.
Proof.
  intros (Hid & Hd & Hp) Hid' Hd' Hp' Hm. unfold carried.
  rewrite Hid', Hd', Hp', Hm. auto.
Qed.

Lemma carried_move (o : Organism) (l : Loop) (res : Organism * Loop) :
  id o = key -> isDead o = true -> position o = p0 ->
  positionChanges l = positionChanges l0 ->
  move_outcome R key true env o l res -> carried (fst res) (snd res).
Proof.
  intros Hid Hd Hp Hm (_ & Hid' & Hd' & _ & _ & _ & Hmove).
  split; [congruence | split; [congruence |]].
  destruct Hmove as [[-> ->] | (q & Hq & -> & ->)].
  - left. split; [exact Hp | now rewrite Hm].
  - right. exists q. split; [exact Hq |]. split; [reflexivity |].
    rewrite Hid, Hp. apply lookup_assign_same.
Qed.

Lemma carried_assign (o : Organism) (x : Extras) (l : Loop) :
  carried o l ->
  visited (set_newOrganisms l (assign key {| base := o; extras := x |} (newOrganisms l))).
Proof.
  intro H. exists {| base := o; extras := x |}. loop_simpl.
  split; [apply lookup_assign_same | exact H].
Qed.

Lemma visited_step_producer (organism : Attributes) (cell : Cell) :
  id (base organism) = key -> key <> "" -> position (base organism) = p0 ->
  doomed (base organism) = true ->
  post R (step_producer env key organism cell l0) visited.
Proof.
  intros Hid Hne Hpos Hdoom. unfold step_producer.
  apply post_bind
    with (Q := fun p => id (p_org p) = key /\ position (p_org p) = p0 /\
                        isDead (Organism_update (p_org p)) = true);
    [apply forward_Producer_new | |].
  { intros s _. destruct (Producer_new_stored organism s) as (H1 & H2 & _); [congruence |].
    repeat split; try congruence. now apply Producer_new_doomed. }
  intros producer (Hp1 & Hp2 & Hp3). cbv zeta.
  set (producer' := Producer_update producer env _ _).
  destruct (Producer_update_keeps producer env
              (cell_nutrientLevel cell) (cell_waterLevel cell)) as (Hk1 & Hk2 & Hk3).
  fold producer' in Hk1, Hk2, Hk3.
  assert (Hc : carried (p_org producer') l0).
  { split; [congruence | split; [congruence |]]. left. split; [congruence | reflexivity]. }
  eapply post_bind; [apply forward_handle_reproduction
                    | apply (rel_handle_reproduction R key true) |].
  intros res (_ & _ & _ & _ & Ht & Hm & _). apply post_ret.
  exists (Producer_getAttributes producer'). rewrite Ht. loop_simpl.
  split; [apply lookup_assign_same |].
  eapply carried_same; [exact Hc | reflexivity .. | exact Hm].
Qed.

Lemma visited_step_consumer (organism : Attributes) :
  id (base organism) = key -> key <> "" -> position (base organism) = p0 ->
  doomed (base organism) = true ->
  post R (step_consumer env key organism l0) visited.
Proof.
  intros Hid Hne Hpos Hdoom. unfold step_consumer.
  apply post_bind
    with (Q := fun c => id (c_org c) = key /\ position (c_org c) = p0 /\
                        isDead (Organism_update (c_org c)) = true);
    [apply forward_Consumer_new | |].
  { intros s _. destruct (Consumer_new_stored organism s) as (H1 & H2 & _); [congruence |].
    repeat split; try congruence. now apply Consumer_new_doomed. }
  intros consumer0 (Hp1 & Hp2 & Hp3). cbv zeta.
  set (consumer1 := Consumer_update consumer0 env).
  destruct (Consumer_update_keeps consumer0 env) as (Hk1 & Hk2 & Hk3).
  fold consumer1 in Hk1, Hk2, Hk3.
  apply post_bind with (Q := fun r => carried (fst r) (snd r));
    [apply forward_consumer_move | |].
  { eapply post_weaken; [apply (rel_consumer_move R key true); discriminate |].
    intros res Hres.
    apply (carried_move (c_org consumer1) l0 res); try exact Hres; congruence. }
  intros r1 Hc1.
  apply post_bind with (Q := fun r => carried (c_org (fst r)) (snd r)).
  { destruct (negb _); [apply forward_try_eat; auto with forward | apply forward_ret]. }
  { destruct (negb _).
    - eapply post_weaken.
      + apply (rel_try_eat R key true); [| apply rebuild_producer_spec].
        intros a Ha. apply andb_true_iff in Ha. destruct Ha as [_ Ha].
        now apply negb_true_iff in Ha.
      + intros res (_ & Hi & Hd & Hp & _ & Hm & _).
        eapply carried_same; [exact Hc1 | | | | exact Hm]; assumption.
    - apply post_ret. exact Hc1. }
  intros r2 Hc2.
  apply post_bind with (Q := fun r => carried (c_org (fst r)) (snd r)).
  { destruct (negb _); [apply forward_try_eat; auto with forward | apply forward_ret]. }
  { destruct (negb _).
    - eapply post_weaken.
      + apply (rel_try_eat R key true); [| apply rebuild_consumer_spec].
        intros a Ha. apply andb_true_iff in Ha. destruct Ha as [_ Ha].
        now apply negb_true_iff in Ha.
      + intros res (_ & Hi & Hd & Hp & _ & Hm & _).
        eapply carried_same; [exact Hc2 | | | | exact Hm]; assumption.
    - apply post_ret. exact Hc2. }
  intros r3 Hc3.
  eapply post_bind; [apply forward_handle_reproduction
                    | apply (rel_handle_reproduction R key true) |].
  intros r4 (_ & Hi & Hp & Hd & _ & Hm & _). apply post_ret.
  apply carried_assign.
  eapply carried_same; [exact Hc3 | | | | exact Hm]; assumption.
Qed.

Lemma visited_step_decomposer (organism : Attributes) (cell : Cell) :
  id (base organism) = key -> key <> "" -> position (base organism) = p0 ->
  doomed (base organism) = true ->
  post R (step_decomposer env key organism cell l0) visited.
Proof.
  intros Hid Hne Hpos Hdoom. unfold step_decomposer.
  apply post_bind
    with (Q := fun d => id (d_org d) = key /\ position (d_org d) = p0 /\
                        isDead (Organism_update (d_org d)) = true);
    [apply forward_Decomposer_new | |].
  { intros s _. destruct (Decomposer_new_stored organism s) as (H1 & H2 & _); [congruence |].
    repeat split; try congruence. now apply Decomposer_new_doomed. }
  intros decomposer0 (Hp1 & Hp2 & Hp3). cbv zeta.
  match goal with
  | |- context [Decomposer_update decomposer0 env ?n] =>
      set (u := Decomposer_update decomposer0 env n);
      destruct (Decomposer_update_keeps decomposer0 env n) as (Hk1 & Hk2 & Hk3);
      fold u in Hk1, Hk2, Hk3
  end.
  match goal with
  | |- context [if Qlt_bool 0 (fst u) then ?a else ?b] =>
      set (l1 := if Qlt_bool 0 (fst u) then a else b)
  end.
  assert (Hm1 : positionChanges l1 = positionChanges l0)
    by (unfold l1; now destruct (Qlt_bool 0 (fst u))).
  apply post_bind with (Q := fun r => carried (fst r) (snd r));
    [apply forward_decomposer_move | |].
  { eapply post_weaken; [apply (rel_decomposer_move R key true); discriminate |].
    intros res Hres.
    apply (carried_move (d_org (snd u)) l1 res); try exact Hres; congruence. }
  intros r1 Hc1.
  apply post_bind with (Q := fun r => carried (d_org (fst r)) (snd r));
    [apply forward_decomposer_feed | |].
  { eapply post_weaken; [apply (rel_decomposer_feed R key true) |].
    intros res (_ & Hi & Hd & Hp & _ & Hm).
    eapply carried_same; [exact Hc1 | | | | exact Hm]; assumption. }
  intros r2 Hc2.
  eapply post_bind; [apply forward_handle_reproduction
                    | apply (rel_handle_reproduction R key true) |].
  intros r3 (_ & Hi & Hp & Hd & _ & Hm & _). apply post_ret.
  apply carried_assign.
  eapply carried_same; [exact Hc2 | | | | exact Hm]; assumption.
Qed.

Lemma visited_step_organism (organism : Attributes) (cell : Cell) :
  id (base organism) = key -> key <> "" -> position (base organism) = p0 ->
  isDead (base organism) = false -> doomed (base organism) = true ->
  getCell (grid l0) p0 = Some cell ->
  post R (step_organism env l0 (key, organism)) visited.
Proof.
  intros Hid Hne Hpos Halive Hdoom Hcell. unfold step_organism. cbv zeta.
  cbn [fst snd]. rewrite Halive, Hpos, Hcell.
  destruct (type (base organism)).
  - now apply visited_step_producer.
  - now apply visited_step_consumer.
  - now apply visited_step_decomposer.
Qed.

End Visit.

(** ** Applying the queued changes *)

Lemma keeps_refl X l : keeps X l l.
Proof. constructor; auto using congruent_refl. Qed.

Lemma keeps_trans X l1 l2 l3 : keeps X l1 l2 -> keeps X l2 l3 -> keeps X l1 l3.
Proof.
  intros [T1 O1 C1 W1 M1 A1 D1] [T2 O2 C2 W2 M2 A2 D2]. constructor.
  - congruence.
  - intros i j. now rewrite O2, O1.
  - eapply congruent_trans; eauto.
  - auto.
  - congruence.
  - congruence.
  - congruence.
Qed.

Lemma keeps_fold_left {A : Type} X (f : Loop -> A -> Loop) (P : A -> Prop) (xs : list A) :
  (forall l x, P x -> keeps X l (f l x)) ->
  Forall P xs -> forall l, keeps X l (fold_left f xs l).
Proof.
  intros Hf Hall. induction Hall as [| x xs Hx Hxs IH]; intro l; cbn.
  - apply keeps_refl.
  - eapply keeps_trans; [apply Hf; exact Hx | apply IH].
Qed.

Lemma keeps_placed X p l l' : keeps X l l' -> placed X p (grid l) -> placed X p (grid l').
Proof.
  intros Hk [Hb Ho]. split.
  - now rewrite (congruent_in_bounds _ _ _ (keeps_cong _ _ _ Hk)).
  - intros i j. now rewrite (keeps_occ _ _ _ Hk).
Qed.

Lemma keeps_nowhere X l l' : keeps X l l' -> nowhere X (grid l) -> nowhere X (grid l').
Proof.
  intros Hk Hn i j. now rewrite (keeps_occ _ _ _ Hk).
Qed.

Lemma lookup_assign_position_other (k X : string) (p : Position) (t : Table) :
  k <> X -> lookup X (assign_position k p t) = lookup X t.
Proof.
  intro Hne. unfold assign_position.
  destruct (lookup k t); [now apply lookup_assign_other | reflexivity].
Qed.

Lemma apply_move_keeps X l (m : string * (Position * Position)) :
  fst m <> X -> keeps X l (apply_move l m).
Proof.
  intro Hne. unfold apply_move. constructor; loop_simpl; auto.
  - now apply lookup_assign_position_other.
  - intros i j. now apply occ_moveOrganism_other.
  - apply congruent_moveOrganism.
  - apply table_wf_assign_position.
Qed.

Lemma apply_birth_keeps X l (o : Organism) :
  id o <> X /\ id o <> "" -> keeps X l (apply_birth l o).
Proof.
  intros [Hne Hne']. unfold apply_birth. constructor; loop_simpl; auto.
  - now apply lookup_assign_other.
  - intros i j. now apply occ_addOrganism_other.
  - apply congruent_addOrganism.
  - intro Hwf. now apply table_wf_assign.
Qed.

Lemma apply_removal_keeps X l (key : string) :
  key <> X -> keeps X l (apply_removal l key).
Proof.
  intro Hne. unfold apply_removal.
  destruct (lookup key (newOrganisms l)) as [a |]; [| apply keeps_refl].
  constructor; loop_simpl; auto.
  - now apply lookup_delete_other.
  - intros i j. now apply occ_removeOrganism_other.
  - apply congruent_removeOrganism.
  - apply table_wf_delete.
Qed.

Lemma lookup_None_keys {A : Type} (X : string) (t : list (string * A)) :
  lookup X t = None -> Forall (fun m => fst m <> X) t.
Proof.
  induction t as [| [k v] t IH]; cbn; [constructor |].
  destruct (String.eqb X k) eqn:E; [discriminate |].
  intro H. constructor; [| now apply IH].
  cbn. apply String.eqb_neq in E. congruence.
Qed.

Lemma lookup_Some_split {A : Type} (X : string) (v : A) (t : list (string * A)) :
  NoDup (map fst t) -> lookup X t = Some v ->
  exists t1 t2, t = t1 ++ (X, v) :: t2 /\
                Forall (fun m => fst m <> X) t1 /\ Forall (fun m => fst m <> X) t2.
Proof.
  intros Hnd Hl. apply lookup_In in Hl. apply in_split in Hl.
  destruct Hl as (t1 & t2 & ->). exists t1, t2. split; [reflexivity |].
  rewrite map_app in Hnd. cbn in Hnd.
  apply NoDup_remove_2 in Hnd.
  split; apply Forall_forall; intros [k' v'] Hin Heq; cbn in Heq; subst k';
    apply Hnd; apply in_or_app; [left | right];
    change X with (fst (X, v')); now apply in_map.
Qed.

Lemma set_position_same (o : Organism) : set_position o (position o) = o.
Proof. now destruct o. Qed.

(** The queued step of [X] itself, from the cell it is placed in. *)
Lemma apply_move_own X (p q : Position) (a1 : Attributes) (l : Loop) :
  lookup X (newOrganisms l) = Some a1 -> position (base a1) = q ->
  placed X p (grid l) -> rectangular (grid l) -> in_bounds (grid l) q = true ->
  let l' := apply_move l (X, (p, q)) in
  lookup X (newOrganisms l') = Some a1 /\
  placed X q (grid l') /\
  congruent (grid l) (grid l') /\
  (table_wf (newOrganisms l) -> table_wf (newOrganisms l')) /\
  newOrganismsToAdd l' = newOrganismsToAdd l /\
  deadOrganisms l' = deadOrganisms l.
Proof.
  intros Hl Hq Hpl Hrect Hb. cbv zeta. unfold apply_move. loop_simpl. cbn [fst snd].
  split.
  { unfold assign_position. rewrite Hl, lookup_assign_same, <- Hq, set_position_same.
    now destruct a1. }
  split; [now apply moveOrganism_placed |].
  split; [apply congruent_moveOrganism |].
  split; [apply table_wf_assign_position | now split].
Qed.

(** The removal of [X] itself. *)
Lemma apply_removal_own X (a : Attributes) (l : Loop) :
  lookup X (newOrganisms l) = Some a -> placed X (position (base a)) (grid l) ->
  let l' := apply_removal l X in
  lookup X (newOrganisms l') = None /\ nowhere X (grid l') /\
  (table_wf (newOrganisms l) -> table_wf (newOrganisms l')).
Proof.
  intros Hl Hpl. cbv zeta. unfold apply_removal. rewrite Hl. loop_simpl.
  split; [apply lookup_delete_same |].
  split; [now apply removeOrganism_placed | apply table_wf_delete].
Qed.

Lemma removals_gone X (ks : list string) :
  forall l, lookup X (newOrganisms l) = None -> nowhere X (grid l) ->
            table_wf (newOrganisms l) ->
  let l' := fold_left apply_removal ks l in
  lookup X (newOrganisms l') = None /\ nowhere X (grid l') /\ table_wf (newOrganisms l').
Proof.
  induction ks as [| k ks IH]; intros l Hl Hn Hwf; cbn [fold_left]; [cbv zeta; auto |].
  apply IH.
  - unfold apply_removal.
    destruct (lookup k (newOrganisms l)) eqn:E; [| exact Hl]. loop_simpl.
    destruct (string_dec k X) as [-> | Hne]; [congruence |].
    now rewrite lookup_delete_other.
  - destruct (string_dec k X) as [-> | Hne].
    + unfold apply_removal. now rewrite Hl.
    + eapply keeps_nowhere; [now apply apply_removal_keeps | exact Hn].
  - unfold apply_removal.
    destruct (lookup k (newOrganisms l)); [| exact Hwf]. loop_simpl.
    now apply table_wf_delete.
Qed.

Lemma removals_remove X (a : Attributes) (ks : list string) :
  In X ks ->
  forall l, lookup X (newOrganisms l) = Some a ->
            placed X (position (base a)) (grid l) -> table_wf (newOrganisms l) ->
  let l' := fold_left apply_removal ks l in
  lookup X (newOrganisms l') = None /\ nowhere X (grid l') /\ table_wf (newOrganisms l').
Proof.
  induction ks as [| k ks IH]; intros Hin l Hl Hpl Hwf; [destruct Hin |].
  cbn [fold_left]. destruct (string_dec k X) as [-> | Hne].
  - destruct (apply_removal_own X a l Hl Hpl) as (H1 & H2 & H3).
    apply removals_gone; auto.
  - destruct Hin as [-> | Hin]; [contradiction |].
    pose proof (apply_removal_keeps X l k Hne) as Hk.
    apply IH; auto.
    + now rewrite (keeps_table _ _ _ Hk).
    + eapply keeps_placed; eauto.
    + now apply (keeps_wf _ _ _ Hk).
Qed.

(** ** One pass over the organisms, seen from [X] *)

Lemma foldM_app {A B : Type} (f : B -> A -> M B) (l1 l2 : list A) (b : B) (s : Src) :
  foldM f (l1 ++ l2) b s
  = foldM f l2 (fst (foldM f l1 b s)) (snd (foldM f l1 b s)).
Proof.
  revert b s. induction l1 as [| a l1 IH]; intros b s; cbn; [reflexivity |].
  unfold bind. cbv zeta. apply IH.
Qed.

Lemma table_wf_entries (table : Table) :
  table_wf table ->
  forall k a, In (k, a) table -> id (base a) = k /\ k <> "".
Proof. intros [_ H]. exact H. Qed.

(** A dead entry is queued for removal by the pass. *)
Lemma pass_queues_dead (R : string -> Prop) (X : string) env (a : Attributes)
    (entries : Table) :
  (forall k a', In (k, a') entries -> id (base a') = k /\ k <> "") ->
  In (X, a) entries -> isDead (base a) = true ->
  forall l s, draws_in R s ->
    In X (deadOrganisms (fst (foldM (step_organism env) entries l s))).
Proof.
  induction entries as [| [k a'] entries IH]; intros Hwf Hin Hdead l s Hs;
    [destruct Hin |].
  cbn [foldM]. unfold bind. cbv zeta.
  assert (Hs1 : draws_in R (snd (step_organism env l (k, a') s))).
  { eapply draws_in_later; [apply forward_step_organism | exact Hs]. }
  destruct Hin as [[= -> ->] | Hin].
  - assert (Hrel : rel R X true (fst (step_organism env l (X, a) s))
                     (fst (foldM (step_organism env) entries
                             (fst (step_organism env l (X, a) s))
                             (snd (step_organism env l (X, a) s))))).
    { apply (rel_foldM R X true env entries); [| exact Hs1].
      intros k' a'' Hin'. destruct (Hwf k' a'' (or_intror Hin')) as [H1 H2].
      repeat split; auto. discriminate. }
    apply (rel_dead _ _ _ _ _ Hrel).
    unfold step_organism. cbn [fst snd]. rewrite Hdead. cbn.
    apply in_or_app. right. now left.
  - apply IH; auto. intros k' a'' Hin'. apply Hwf. now right.
Qed.

(** The pass of a cycle in which [X] is already dead: the queued changes
    remove it from the table and from the grid. *)
Lemma pass_removes (X : string) env (table : Table) (g0 : Grid) (s : Src)
    (a : Attributes) :
  table_wf table -> lookup X table = Some a -> isDead (base a) = true ->
  placed X (position (base a)) g0 -> draws_in (fresh X) s ->
  let l := apply_changes (fst (foldM (step_organism env) table (initial_loop table g0) s)) in
  lookup X (newOrganisms l) = None /\ nowhere X (grid l) /\ table_wf (newOrganisms l).
Proof.
  intros Hwf Hl Hdead Hpl Hs. cbv zeta.
  set (l0 := initial_loop table g0).
  set (l3 := fst (foldM (step_organism env) table l0 s)).
  assert (Hrel : rel (fresh X) X false l0 l3).
  { apply (rel_foldM (fresh X) X false env table); [| exact Hs].
    intros k a' Hin. destruct (table_wf_entries _ Hwf _ _ Hin) as [H1 H2].
    repeat split; auto. intros _ Halive ->.
    rewrite (In_lookup _ _ _ (proj1 Hwf) Hin) in Hl. congruence. }
  assert (Hq : In X (deadOrganisms l3)).
  { apply (pass_queues_dead (fresh X) X env a table); auto.
    - apply table_wf_entries, Hwf.
    - now apply lookup_In. }
  destruct Hrel as [W A G D Mv T N].
  specialize (W Hwf). specialize (Mv eq_refl). specialize (T eq_refl a Hl Hdead).
  cbn [l0 initial_loop positionChanges newOrganismsToAdd lookup] in Mv, A.
  unfold apply_changes.
  set (l4 := fold_left apply_move (positionChanges l3) l3).
  assert (K4 : keeps X l3 l4).
  { apply (keeps_fold_left X apply_move (fun m => fst m <> X)).
    - intros; now apply apply_move_keeps.
    - now apply lookup_None_keys. }
  set (l5 := fold_left apply_birth (newOrganismsToAdd l4) l4).
  assert (K5 : keeps X l4 l5).
  { apply (keeps_fold_left X apply_birth (fun o => id o <> X /\ id o <> "")).
    - intros; now apply apply_birth_keeps.
    - apply Forall_forall. intros o Ho. rewrite (keeps_add _ _ _ K4) in Ho.
      destruct (A o Ho) as [[] | H]. exact H. }
  pose proof (keeps_trans _ _ _ _ K4 K5) as K.
  apply (removals_remove X a).
  - now rewrite (keeps_dead _ _ _ K).
  - now rewrite (keeps_table _ _ _ K).
  - eapply keeps_placed; [exact K |]. eapply similar_placed; eauto.
  - now apply (keeps_wf _ _ _ K).
Qed.

Lemma in_config_in_bounds env (g : Grid) (q : Position) :
  width env = grid_width g -> height env = grid_height g ->
  in_config env q = true -> in_bounds g q = true.
Proof.
  intros Hw Hh. unfold in_config, in_bounds. now rewrite Hw, Hh.
Qed.

(** The pass of the cycle in which [X] dies in its own update and is not
    queued for removal: at the end it is in the table, marked dead, and
    placed in the cell the table records. *)
Lemma pass_marks (X : string) env (table : Table) (g0 : Grid) (s : Src)
    (a : Attributes) :
  table_wf table -> lookup X table = Some a ->
  isDead (base a) = false -> doomed (base a) = true ->
  placed X (position (base a)) g0 -> rectangular g0 ->
  width env = grid_width g0 -> height env = grid_height g0 ->
  draws_in (fresh X) s ->
  let l3 := fst (foldM (step_organism env) table (initial_loop table g0) s) in
  ~ In X (deadOrganisms l3) ->
  let l := apply_changes l3 in
  exists a1, lookup X (newOrganisms l) = Some a1 /\ isDead (base a1) = true /\
             placed X (position (base a1)) (grid l) /\ table_wf (newOrganisms l).
Proof.
  intros Hwf Hl Halive Hdoom Hpl Hrect Hw Hh Hs. cbv zeta.
  set (l0 := initial_loop table g0).
  destruct (lookup_Some_split X a table (proj1 Hwf) Hl) as (pre & rest & Ht & Hpre & Hrest).
  assert (Hent : forall k a', In (k, a') table -> id (base a') = k /\ k <> "")
    by (apply table_wf_entries, Hwf).
  destruct (Hent X a (lookup_In _ _ _ Hl)) as [Hid HneX].
  (* the entries before the one of X *)
  set (l1 := fst (foldM (step_organism env) pre l0 s)).
  set (s1 := snd (foldM (step_organism env) pre l0 s)).
  assert (Hs1 : draws_in (fresh X) s1).
  { eapply draws_in_later; [| exact Hs]. apply forward_foldM. auto with forward. }
  assert (R1 : rel (fresh X) X false l0 l1).
  { apply (rel_foldM (fresh X) X false env pre); [| exact Hs].
    intros k a' Hin. destruct (Hent k a') as [H1 H2].
    { rewrite Ht. apply in_or_app. now left. }
    repeat split; auto. intros _ _.
    rewrite Forall_forall in Hpre. apply (Hpre _ Hin). }
  (* the entry of X *)
  set (l2 := fst (step_organism env l1 (X, a) s1)).
  set (s2 := snd (step_organism env l1 (X, a) s1)).
  assert (Hs2 : draws_in (fresh X) s2).
  { eapply draws_in_later; [apply forward_step_organism | exact Hs1]. }
  assert (R2 : rel (fresh X) X true l1 l2).
  { apply (rel_step_organism (fresh X) X true env l1 (X, a)); auto. discriminate. }
  assert (Hpl1 : placed X (position (base a)) (grid l1)).
  { eapply similar_placed; [apply (rel_grid _ _ _ _ _ R1) | exact Hpl]. }
  destruct (placed_getCell _ _ _ Hpl1) as (cell & Hcell & _).
  assert (V2 : visited env X (position (base a)) l1 l2).
  { apply (visited_step_organism (fresh X) env X (position (base a)) l1 a cell); auto. }
  (* the entries after the one of X *)
  set (l3 := fst (foldM (step_organism env) table l0 s)).
  assert (E3 : l3 = fst (foldM (step_organism env) rest l2 s2)).
  { unfold l3. rewrite Ht, foldM_app. cbn [foldM]. reflexivity. }
  assert (R3 : rel (fresh X) X false l2 l3).
  { rewrite E3. apply (rel_foldM (fresh X) X false env rest); [| exact Hs2].
    intros k a' Hin. destruct (Hent k a') as [H1 H2].
    { rewrite Ht. apply in_or_app. right. now right. }
    repeat split; auto. intros _ _.
    rewrite Forall_forall in Hrest. apply (Hrest _ Hin). }
  intro Hnotq.
  (* what the loop leaves *)
  destruct V2 as (a1 & Hl2 & Hid1 & Hdead1 & Hcase).
  pose proof (rel_table _ _ _ _ _ R3 eq_refl a1 Hl2 Hdead1) as Hl3.
  pose proof (rel_moves _ _ _ _ _ R3 eq_refl) as Hm3.
  pose proof (rel_moves _ _ _ _ _ R1 eq_refl) as Hm1.
  cbn [l0 initial_loop positionChanges lookup] in Hm1.
  assert (Hwf3 : table_wf (newOrganisms l3)).
  { apply (rel_wf _ _ _ _ _ R3), (rel_wf _ _ _ _ _ R2), (rel_wf _ _ _ _ _ R1). exact Hwf. }
  assert (Hnd3 : NoDup (map fst (positionChanges l3))).
  { apply (rel_nodup _ _ _ _ _ R3), (rel_nodup _ _ _ _ _ R2), (rel_nodup _ _ _ _ _ R1).
    constructor. }
  assert (Hadd3 : Forall (fun o => id o <> X /\ id o <> "") (newOrganismsToAdd l3)).
  { apply Forall_forall. intros o Ho.
    destruct (rel_add _ _ _ _ _ R3 o Ho) as [Ho2 | H]; [| exact H].
    destruct (rel_add _ _ _ _ _ R2 o Ho2) as [Ho1 | H]; [| exact H].
    destruct (rel_add _ _ _ _ _ R1 o Ho1) as [[] | H]. exact H. }
  assert (Hsim3 : similar g0 (grid l3)).
  { eapply similar_trans; [apply (rel_grid _ _ _ _ _ R1) |].
    eapply similar_trans; [apply (rel_grid _ _ _ _ _ R2) | apply (rel_grid _ _ _ _ _ R3)]. }
  assert (Hpl3 : placed X (position (base a)) (grid l3))
    by (eapply similar_placed; eauto).
  assert (Hrect3 : rectangular (grid l3)).
  { eapply congruent_rectangular; [apply similar_congruent; exact Hsim3 | exact Hrect]. }
  (* the queued steps *)
  unfold apply_changes.
  set (l4 := fold_left apply_move (positionChanges l3) l3).
  assert (H4 : lookup X (newOrganisms l4) = Some a1 /\
               placed X (position (base a1)) (grid l4) /\
               (table_wf (newOrganisms l3) -> table_wf (newOrganisms l4)) /\
               newOrganismsToAdd l4 = newOrganismsToAdd l3 /\
               deadOrganisms l4 = deadOrganisms l3).
  { destruct Hcase as [[Hp Hm2] | (q & Hq & Hp & Hm2)].
    - assert (K4 : keeps X l3 l4).
      { apply (keeps_fold_left X apply_move (fun m => fst m <> X)).
        - intros; now apply apply_move_keeps.
        - apply lookup_None_keys. congruence. }
      rewrite Hp. split; [| split; [| split; [| split]]].
      + now rewrite (keeps_table _ _ _ K4).
      + eapply keeps_placed; eauto.
      + apply (keeps_wf _ _ _ K4).
      + apply (keeps_add _ _ _ K4).
      + apply (keeps_dead _ _ _ K4).
    - assert (Hm : lookup X (positionChanges l3) = Some (position (base a), q))
        by congruence.
      destruct (lookup_Some_split _ _ _ Hnd3 Hm) as (m1 & m2 & Em & Hm1' & Hm2').
      unfold l4. rewrite Em, fold_left_app. cbn [fold_left].
      set (la := fold_left apply_move m1 l3).
      assert (Ka : keeps X l3 la).
      { apply (keeps_fold_left X apply_move (fun m => fst m <> X)); auto.
        intros; now apply apply_move_keeps. }
      destruct (apply_move_own X (position (base a)) q a1 la) as (Hb1 & Hb2 & Hb3 & Hb4 & Hb5 & Hb6).
      { now rewrite (keeps_table _ _ _ Ka). }
      { exact Hp. }
      { eapply keeps_placed; eauto. }
      { eapply congruent_rectangular; [apply (keeps_cong _ _ _ Ka) | exact Hrect3]. }
      { rewrite (congruent_in_bounds _ _ _ (keeps_cong _ _ _ Ka)).
        rewrite (congruent_in_bounds _ _ _ (similar_congruent _ _ Hsim3)).
        eapply in_config_in_bounds; eauto. }
      set (lb := apply_move la (X, (position (base a), q))) in *.
      assert (Kc : keeps X lb (fold_left apply_move m2 lb)).
      { apply (keeps_fold_left X apply_move (fun m => fst m <> X)); auto.
        intros; now apply apply_move_keeps. }
      rewrite Hp. split; [| split; [| split; [| split]]].
      + now rewrite (keeps_table _ _ _ Kc).
      + eapply keeps_placed; eauto.
      + intro H. apply (keeps_wf _ _ _ Kc), Hb4, (keeps_wf _ _ _ Ka), H.
      + rewrite (keeps_add _ _ _ Kc), Hb5. apply (keeps_add _ _ _ Ka).
      + rewrite (keeps_dead _ _ _ Kc), Hb6. apply (keeps_dead _ _ _ Ka). }
  destruct H4 as (Hl4 & Hpl4 & Hwf4 & Hadd4 & Hdead4).
  (* the births and the removals *)
  set (l5 := fold_left apply_birth (newOrganismsToAdd l4) l4).
  assert (K5 : keeps X l4 l5).
  { apply (keeps_fold_left X apply_birth (fun o => id o <> X /\ id o <> "")).
    - intros; now apply apply_birth_keeps.
    - now rewrite Hadd4. }
  set (l6 := fold_left apply_removal (deadOrganisms l5) l5).
  assert (K6 : keeps X l5 l6).
  { apply (keeps_fold_left X apply_removal (fun key => key <> X)).
    - intros; now apply apply_removal_keeps.
    - apply Forall_forall. intros key Hkey ->.
      rewrite (keeps_dead _ _ _ K5), Hdead4 in Hkey. contradiction. }
  pose proof (keeps_trans _ _ _ _ K5 K6) as K.
  exists a1. split; [| split; [| split]].
  - now rewrite (keeps_table _ _ _ K).
  - exact Hdead1.
  - apply (keeps_placed _ _ _ _ K). exact Hpl4.
  - apply (keeps_wf _ _ _ K). auto.
Qed.

(** ** A whole cycle *)

Lemma updateSeasonalFactors_dims (e : Environment) (s : Src) :
  width (config (fst (updateSeasonalFactors e s))) = width (config e) /\
  height (config (fst (updateSeasonalFactors e s))) = height (config e).
Proof.
  unfold updateSeasonalFactors, bind, ret, Math_random. cbn.
  destruct (season (config e)); split; reflexivity.
Qed.

Lemma generateRandomDisturbance_dims (e : Environment) (h : Store) (s : Src) :
  width (config (fst (fst (generateRandomDisturbance e h s)))) = width (config e) /\
  height (config (fst (fst (generateRandomDisturbance e h s)))) = height (config e).
Proof.
  unfold generateRandomDisturbance, bind, ret, Math_random. cbv zeta. cbn [fst snd].
  destruct (pick _ _) as [type |]; [| split; reflexivity].
  destruct type; split; reflexivity.
Qed.

Lemma Environment_update_dims (e : Environment) (h : Store) (s : Src) :
  width (config (fst (fst (Environment_update e h s)))) = width (config e) /\
  height (config (fst (fst (Environment_update e h s)))) = height (config e).
Proof.
  unfold Environment_update, bind, ret, Math_random. cbv zeta. cbn [fst snd].
  match goal with
  | |- context [updateSeasonalFactors ?e0 ?s0] =>
      destruct (updateSeasonalFactors_dims e0 s0) as [Hw Hh]
  end.
  cbn [config set_day_season width height] in Hw, Hh.
  destruct (Qlt_bool _ _).
  - match goal with
    | |- context [generateRandomDisturbance ?e0 ?h0 ?s0] =>
        destruct (generateRandomDisturbance_dims e0 h0 s0) as [Hw' Hh']
    end.
    unfold updateDisturbances in *. cbn [fst snd config set_disturbances] in *.
    split; congruence.
  - unfold updateDisturbances. cbn [fst snd config set_disturbances].
    split; congruence.
Qed.

(** What [cycle_pass] hands to the loop. *)
Lemma cycle_pass_shape (e : Environment) (g : Grid) (hk : Hook) (s : Src) :
  exists (g0 : Grid) (s1 : Src),
    similar g g0 /\ later s1 s /\
    width (config (fst (fst (fst (cycle_pass e g hk s))))) = width (config e) /\
    height (config (fst (fst (fst (cycle_pass e g hk s))))) = height (config e) /\
    snd (fst (cycle_pass e g hk s))
    = fst (foldM (step_organism (config (fst (fst (fst (cycle_pass e g hk s))))))
             (st_organisms (hk_state hk))
             (initial_loop (st_organisms (hk_state hk)) g0) s1).
Proof.
  unfold cycle_pass, bind, ret, getConfig. cbv zeta. cbn [fst snd].
  destruct (Environment_update_dims e (hk_store hk) s) as [Hw Hh].
  eexists. exists (snd (Environment_update e (hk_store hk) s)).
  split; [| split; [| split; [| split]]].
  - eapply similar_trans; [apply similar_updateEnvironment | apply similar_apply_disturbances].
  - apply forward_Environment_update.
  - exact Hw.
  - exact Hh.
  - reflexivity.
Qed.

(** The two ways [runCycle] ends. *)
Lemma runCycle_cases (Math_log : Q -> Q) (hk : Hook) (e : Environment) (g : Grid) (s : Src) :
  environmentRef hk = Some e -> gridRef hk = Some g ->
  let l := apply_changes (snd (fst (cycle_pass e g hk s))) in
  let hk' := fst (runCycle Math_log hk s) in
  (extinctionCount hk' = S (extinctionCount hk) /\ hk_state hk' = hk_state hk) \/
  (extinctionCount hk' = extinctionCount hk /\
   st_organisms (hk_state hk') = newOrganisms l /\
   gridRef hk' = Some (grid l) /\
   environmentRef hk' = Some (fst (fst (fst (cycle_pass e g hk s))))).
Proof.
  intros He Hg. cbv zeta. unfold runCycle. rewrite He, Hg.
  unfold bind. cbv zeta.
  destruct (restarting hk _).
  - left. split; reflexivity.
  - right. repeat split.
Qed.

(** C6 (amended).  An organism that dies of age or energy depletion in its
    own update during step n is still in the organism table, marked dead,
    and listed in the cell at its recorded position at the end of step n;
    unless it was queued for removal in step n (consumed or decomposed), it
    is absent from the organism table and from every cell's organism list
    at the end of step n+1 -- provided neither step ends in an extinction
    restart, which returns the previous state. *)
Theorem deferred_removal (Math_log : Q -> Q) (X : string) (hk : Hook)
    (e : Environment) (g : Grid) (a : Attributes) (s : Src) :
  environmentRef hk = Some e -> gridRef hk = Some g ->
  table_wf (st_organisms (hk_state hk)) ->
  rectangular g ->
  width (config e) = grid_width g -> height (config e) = grid_height g ->
  draws_in (fresh X) s ->
  lookup X (st_organisms (hk_state hk)) = Some a ->
  dies_in_update (base a) ->
  placed X (position (base a)) g ->
  let r1 := runCycle Math_log hk s in
  let r2 := runCycle Math_log (fst r1) (snd r1) in
  ~ In X (deadOrganisms (snd (fst (cycle_pass e g hk s)))) ->
  extinctionCount (fst r1) = extinctionCount hk ->
  extinctionCount (fst r2) = extinctionCount (fst r1) ->
  (exists a1 g1 c,
     lookup X (st_organisms (hk_state (fst r1))) = Some a1 /\
     isDead (base a1) = true /\
     gridRef (fst r1) = Some g1 /\
     getCell g1 (position (base a1)) = Some c /\ In X (organisms c)) /\
  (lookup X (st_organisms (hk_state (fst r2))) = None /\
   exists g2, gridRef (fst r2) = Some g2 /\
              forall p c, getCell g2 p = Some c -> ~ In X (organisms c)).
Proof.
  intros He Hg Hwf Hrect Hw Hh Hs Hl [Halive Hdoom] Hpl r1 r2 Hnotq Hc1 Hc2.
  (* step n *)
  destruct (cycle_pass_shape e g hk s) as (g0 & s1 & Hsim & Hlater & Hw' & Hh' & Hpass).
  assert (Hmark :
    exists a1, lookup X (newOrganisms (apply_changes (snd (fst (cycle_pass e g hk s))))) = Some a1 /\
               isDead (base a1) = true /\
               placed X (position (base a1))
                 (grid (apply_changes (snd (fst (cycle_pass e g hk s))))) /\
               table_wf (newOrganisms (apply_changes (snd (fst (cycle_pass e g hk s)))))).
  { rewrite Hpass in Hnotq |- *.
    apply (pass_marks X _ _ g0 s1 a); auto.
    - eapply similar_placed; eauto.
    - eapply congruent_rectangular; [apply similar_congruent; exact Hsim | exact Hrect].
    - rewrite Hw'. destruct Hsim as (E & _). congruence.
    - rewrite Hh'. destruct Hsim as (_ & E & _). congruence.
    - eapply draws_in_later; eauto. }
  destruct Hmark as (a1 & Hl1 & Hdead1 & Hpl1 & Hwf1).
  destruct (runCycle_cases Math_log hk e g s He Hg) as [[Hx _] | (_ & Ht1 & Hg1 & He1)].
  { fold r1 in Hx. rewrite Hx in Hc1. lia. }
  fold r1 in Ht1, Hg1, He1.
  split.
  { destruct (placed_getCell _ _ _ Hpl1) as (c & Hc & Hin).
    exists a1, (grid (apply_changes (snd (fst (cycle_pass e g hk s))))), c.
    rewrite Ht1. auto. }
  (* step n+1 *)
  set (e1 := fst (fst (fst (cycle_pass e g hk s)))) in *.
  set (g1 := grid (apply_changes (snd (fst (cycle_pass e g hk s))))) in *.
  assert (Hs2 : draws_in (fresh X) (snd r1)).
  { eapply draws_in_later; [apply forward_runCycle | exact Hs]. }
  destruct (cycle_pass_shape e1 g1 (fst r1) (snd r1))
    as (g0' & s1' & Hsim' & Hlater' & _ & _ & Hpass').
  destruct (runCycle_cases Math_log (fst r1) e1 g1 (snd r1) He1 Hg1)
    as [[Hx _] | (_ & Ht2 & Hg2 & _)].
  { fold r2 in Hx. rewrite Hx in Hc2. lia. }
  fold r2 in Ht2, Hg2.
  rewrite Hpass' in Ht2, Hg2. rewrite Ht1 in Ht2, Hg2.
  destruct (pass_removes X (config (fst (fst (fst (cycle_pass e1 g1 (fst r1) (snd r1))))))
              _ g0' s1' a1 Hwf1 Hl1 Hdead1)
    as (Hnone & Hno & _).
  { eapply similar_placed; eauto. }
  { eapply draws_in_later; eauto. }
  split.
  - rewrite Ht2. exact Hnone.
  - eexists. split; [exact Hg2 |].
    intros p c Hc. eapply nowhere_getCell; eauto.
Qed.

(** C6, as stated, fails in its own scenario when the hook restarts on
    extinction (the default): the second step empties the table, finds no
    organism left and returns the previous state, so the dead producer is
    still in the organism table after step n+1, while its identifier has
    left the cell. *)
Lemma deferred_removal_counterexample :
  let r1 := runCycle (fun _ => 0) (tiny_hook true) (constant_source 0.5) in
  let r2 := runCycle (fun _ => 0) (fst r1) (snd r1) in
  option_map (fun a => isDead (base a)) (lookup "p" (st_organisms (hk_state (fst r1))))
  = Some true /\
  option_map (fun a => isDead (base a)) (lookup "p" (st_organisms (hk_state (fst r2))))
  = Some true /\
  option_map (fun g => option_map organisms (getCell g {| px := 0; py := 0 |}))
             (gridRef (fst r2)) = Some (Some []) /\
  extinctionCount (fst r2) = 1%nat.
Proof. vm_compute. repeat split. Qed.

Lemma deferred_removal_witness :
  let r1 := runCycle (fun _ => 0) (tiny_hook false) (constant_source 0.5) in
  let r2 := runCycle (fun _ => 0) (fst r1) (snd r1) in
  (exists a1 g1 c,
     lookup "p" (st_organisms (hk_state (fst r1))) = Some a1 /\
     isDead (base a1) = true /\
     gridRef (fst r1) = Some g1 /\
     getCell g1 (position (base a1)) = Some c /\ In "p" (organisms c)) /\
  (lookup "p" (st_organisms (hk_state (fst r2))) = None /\
   exists g2, gridRef (fst r2) = Some g2 /\
              forall p c, getCell g2 p = Some c -> ~ In "p" (organisms c)).
Proof.
  apply (deferred_removal (fun _ => 0) "p" (tiny_hook false) tiny_environment
           (sample_grid ["p"]) dying_producer (constant_source 0.5)).
  - reflexivity.
  - reflexivity.
  - split.
    + cbn. constructor; [intros [] | constructor].
    + intros k a [[= <- <-] | []]. split; [reflexivity | discriminate].
  - intros p Hp. unfold getCell. rewrite Hp.
    unfold in_bounds in Hp. cbn in Hp.
    assert (px p = 0%Z /\ py p = 0%Z) as [-> ->] by lia.
    discriminate.
  - reflexivity.
  - reflexivity.
  - intro n. split; discriminate.
  - reflexivity.
  - split; reflexivity.
  - split; [reflexivity |].
    intros [| [| i]] [| [| j]]; reflexivity.
  - vm_compute. intros [].
  - vm_compute. reflexivity.
  - vm_compute. reflexivity.
Defined.
